(** * Verification of the blade analysis scripts

    A shallow embedding of [scripts/analyze-trace.py] (CPU-profile hotspot
    analysis) and [scripts/analyze-webgpu-inspector.py] (WebGPU Inspector
    recording summary), and the properties their specification states.

    Conventions of the embedding:
    - a Python [int] is a [Z]; [None] is the [None] of an [option]; a
      conversion between [int] and [str] of more than 4300 digits raises
      [ValueError], as in CPython;
    - a Python [str] is a [string] (a list of 8-bit code points, among
      which the digits are the ten characters from 0 to 9);
    - a [dict] or [defaultdict] read as a map is a [gmap]; a [set] is a [gset];
    - a [float] is a binary64 number of [SpecFloat], the arithmetic being
      that of IEEE 754 with rounding to nearest even;
    - a raised exception is the [Raise] of the [result] monad;
    - a [while] loop is a fuelled [Fixpoint] together with the proof that the
      fuel handed to it is enough. *)

From Stdlib Require Import ZArith List Ascii String SpecFloat.
From stdpp Require Import base tactics option list gmap sets strings pretty
  sorting.

#[local] Set Warnings "-clear-no-such-hyp".

Local Open Scope string_scope.
Local Open Scope list_scope.
Local Open Scope Z_scope.

(** * Python values and built-ins *)

Module Py.

(** ** Exceptions *)

Inductive exn := ZeroDivisionError | OverflowError | ValueError | IndexError.

Inductive result (A : Type) :=
  | Ok (a : A)
  | Raise (e : exn).
Arguments Ok {A} a.
Arguments Raise {A} e.

(** Statements in sequence: the first exception raised ends the run. *)
#[export] Instance result_bind : MBind result := λ A B k r,
  match r with
  | Ok a => k a
  | Raise e => Raise e
  end.

#[export] Instance exn_eq_dec : EqDecision exn.
Proof. solve_decision. Defined.

#[export] Instance result_eq_dec {A : Type} `{EqDecision A} :
  EqDecision (result A).
Proof. solve_decision. Defined.

(** The run raised nothing. *)
Definition is_ok {A : Type} (r : result A) : bool :=
  match r with
  | Ok _ => true
  | Raise _ => false
  end.

(** A [for] loop whose body may raise. *)
Fixpoint for_each {A S : Type} (body : S → A → result S) (l : list A)
    (s : S) : result S :=
  match l with
  | [] => Ok s
  | x :: l' => s' ← body s x; for_each body l' s'
  end.

(** [l[i]] for an index that is not negative. *)
Definition item {A : Type} (l : list A) (i : nat) : result A :=
  match l !! i with
  | Some a => Ok a
  | None => Raise IndexError
  end.

(** A loop, or a comprehension, that makes an item of each item of a list,
    up to the first exception. *)
Fixpoint map_result {A B : Type} (f : A → result B) (l : list A) :
    result (list B) :=
  match l with
  | [] => Ok []
  | a :: l' => b ← f a; bs ← map_result f l'; Ok (b :: bs)
  end.

(** ** Floats *)

Abbreviation float := spec_float.

Definition prec : Z := 53.
Definition emax : Z := 1024.

(** A number is an [int] or a [float]. *)
Inductive number :=
  | Int (z : Z)
  | Float (f : float).

(** [float(z)] for an [int] that converts without overflow: the nearest
    binary64 number, ties to even. *)
Definition float_of_int (z : Z) : float := binary_normalize prec emax z 0 false.

(** The integer [z] as a quotient operand: sign and magnitude, not rounded. *)
Definition operand (z : Z) : float :=
  match z with
  | Z0 => S754_zero false
  | Zpos p => S754_finite false p 0
  | Zneg p => S754_finite true p 0
  end.

(** [a / b] on two [int]s: the quotient of the integers themselves rounded
    once to the nearest binary64 number; [ZeroDivisionError] for [b = 0] and
    [OverflowError] when the quotient is too large for a [float]. *)
Definition truediv (a b : Z) : result float :=
  if bool_decide (b = 0) then Raise ZeroDivisionError
  else if bool_decide (a = 0) then Ok (S754_zero (bool_decide (b < 0)))
  else
    match SFdiv prec emax (operand a) (operand b) with
    | S754_infinity _ => Raise OverflowError
    | q => Ok q
    end.

(** [x * 100] and the like: a [float] times a small [int]. *)
Definition mul_int (x : float) (z : Z) : float :=
  SFmul prec emax x (float_of_int z).

(** The literal [0.5]. *)
Definition half : float := S754_finite false 4503599627370496 (-53).

(** [n < 0.5].  An [int] is compared by its value: it is below 0.5 when it
    is at most 0. *)
Definition lt_half (n : number) : bool :=
  match n with
  | Int z => bool_decide (z ≤ 0)
  | Float f => SFltb f half
  end.

(** [sum(l)] on a list of [int]s. *)
Definition sum (l : list Z) : Z := foldl Z.add 0 l.

(** ** int and str *)

(** The limit that CPython puts on the number of digits in a conversion
    between [int] and [str] ([sys.int_info.default_max_str_digits], which the
    scripts leave as it is): a conversion of more digits is a
    [ValueError]. *)
Definition max_str_digits : nat := 4300.

(** A number that has no more digits than the limit. *)
Definition convertible (z : Z) : Prop :=
  Z.abs z < 10 ^ Z.of_nat max_str_digits.

(** [str(z)], which is also what an f-string makes of an [int]. *)
Definition str_int (z : Z) : result string :=
  if bool_decide (convertible z) then Ok (pretty z) else Raise ValueError.

(** A decimal digit among the code points below 256, and its value. *)
Definition is_digit (c : ascii) : bool :=
  let n := N_of_ascii c in ((48 <=? n) && (n <=? 57))%N.

Definition digit_value (c : ascii) : Z := Z.of_N (N_of_ascii c) - 48.

(** The number that a text of digits writes. *)
Definition decimal (s : string) : Z :=
  foldl (λ acc c, 10 * acc + digit_value c) 0 (list_ascii_of_string s).

(** The blanks that [int] passes over at both ends of a text: tab, line
    feed, vertical tab, form feed, carriage return, space, next line (133)
    and no-break space (160). *)
Definition is_blank (c : ascii) : bool :=
  let n := N_of_ascii c in
  (((9 <=? n) && (n <=? 13)) || (n =? 32) || (n =? 133) || (n =? 160))%N.

Fixpoint lstrip (s : string) : string :=
  match s with
  | String c s' => if is_blank c then lstrip s' else s
  | EmptyString => EmptyString
  end.

Fixpoint rstrip (s : string) : string :=
  match s with
  | String c s' =>
      match rstrip s' with
      | EmptyString => if is_blank c then EmptyString else String c EmptyString
      | r => String c r
      end
  | EmptyString => EmptyString
  end.

(** The digits of the body of a numeral, which is made of digits with
    single underscores between them; [after_digit] tells that the character
    before was a digit. *)
Fixpoint numeral_digits (s : string) (after_digit : bool) : option string :=
  match s with
  | EmptyString => if after_digit then Some EmptyString else None
  | String c s' =>
      if is_digit c then String c <$> numeral_digits s' true
      else if Ascii.eqb c "_" && after_digit then numeral_digits s' false
      else None
  end.

(** [int(s)] on a [str]: blanks, a sign, and the body of the numeral. *)
Definition int (s : string) : result Z :=
  let s := rstrip (lstrip s) in
  let '(negative, body) :=
    match s with
    | String c r =>
        if Ascii.eqb c "-" then (true, r)
        else if Ascii.eqb c "+" then (false, r)
        else (false, s)
    | EmptyString => (false, s)
    end in
  match numeral_digits body false with
  | Some ds =>
      if bool_decide (max_str_digits < String.length ds)%nat
      then Raise ValueError
      else Ok (if negative : bool then - decimal ds else decimal ds)
  | None => Raise ValueError
  end.

(** ** Strings *)

(** [c.lower()] on a code point below 256: the letters A-Z, and the Latin-1
    capitals from 192 to 222 but for the multiplication sign 215. *)
Definition lower_char (c : ascii) : ascii :=
  let n := N_of_ascii c in
  if ((65 <=? n) && (n <=? 90))%N then ascii_of_N (n + 32)
  else if ((192 <=? n) && (n <=? 222) && negb (n =? 215))%N
       then ascii_of_N (n + 32)
  else c.

(** [s.lower()]. *)
Fixpoint lower (s : string) : string :=
  match s with
  | EmptyString => EmptyString
  | String c s' => String (lower_char c) (lower s')
  end.

(** [needle in s] on two strings. *)
Fixpoint contains (needle s : string) : bool :=
  String.prefix needle s ||
  match s with
  | EmptyString => false
  | String _ s' => contains needle s'
  end.

End Py.

(** * Part I: analyze-trace.py *)

Module Trace.
Import Py.

(** ** Data model *)

(** One entry of the node table built by [extract_cpu_profile] (lines 39-46). *)
Record node := Node {
  functionName : string;
  url : string;
  lineNumber : option Z;
  columnNumber : option Z;
  codeType : string;
  parent : option Z;
}.

(** A stack frame [(node id, function name)]. *)
Abbreviation frame := (Z * string)%type.

(** The result of [analyze_samples] (lines 105-111). *)
Record analysis := Analysis {
  self_samples : gmap string Z;
  self_time : gmap string Z;
  total_samples : gmap string Z;
  total_time : gmap string Z;
  call_tree : gmap string (gmap string Z);
}.

(** [d.get(k, 0)], which is also what a [defaultdict(int)] reads. *)
Definition getd (m : gmap string Z) (k : string) : Z := default 0 (m !! k).

(** [d[k] += v] on a [defaultdict(int)]. *)
Definition incr (k : string) (v : Z) (m : gmap string Z) : gmap string Z :=
  <[k := getd m k + v]> m.

(** [d[p][c] += 1] on a [defaultdict(lambda: defaultdict(int))]. *)
Definition incr2 (p c : string) (m : gmap string (gmap string Z)) :
    gmap string (gmap string Z) :=
  <[p := incr c 1 (default ∅ (m !! p))]> m.

(** Python truth value of a node id that may be [None]: [None] and [0] are
    false. *)
Definition truthy (current : option Z) : bool :=
  match current with
  | Some c => bool_decide (c ≠ 0)
  | None => false
  end.

(** ** get_full_stack (lines 54-67) *)

(** The [while] loop.  One unit of fuel is spent each time the body runs;
    [None] means the fuel ran out before the loop stopped. *)
Fixpoint get_full_stack_loop (fuel : nat) (nodes : gmap Z node)
    (current : option Z) (visited : gset Z) (stack : list frame) :
    option (list frame) :=
  match current with
  | Some c =>
      if truthy current && bool_decide (c ∉ visited) then
        match fuel with
        | O => None
        | S fuel' =>
            match nodes !! c with
            | Some nd =>
                get_full_stack_loop fuel' nodes (parent nd) ({[c]} ∪ visited)
                  (stack ++ [(c, functionName nd)])
            | None => Some stack
            end
        end
      else Some stack
  | None => Some stack
  end.

(** The loop runs its body at most once per node of the table, and once
    more for a missing node. *)
Definition get_full_stack (nodes : gmap Z node) (node_id : Z) : list frame :=
  default [] (get_full_stack_loop (S (size nodes)) nodes (Some node_id) ∅ []).

(** ** analyze_samples (lines 70-111) *)

(** Lines 95-98: the total metrics of [name], unless [seen] has it. *)
Definition count_total (delta : Z) (name : string) (seen : gset string)
    (a : analysis) : analysis :=
  if bool_decide (name ∉ seen) then
    Analysis (self_samples a) (self_time a)
      (incr name 1 (total_samples a)) (incr name delta (total_time a))
      (call_tree a)
  else a.

(** Lines 101-103: the edge from [stack[j + 1]], the head of [rest], to
    [name], when there is a [stack[j + 1]]. *)
Definition count_edge (name : string) (rest : list frame) (a : analysis) :
    analysis :=
  match rest with
  | (_, parent_name) :: _ =>
      Analysis (self_samples a) (self_time a) (total_samples a)
        (total_time a) (incr2 parent_name name (call_tree a))
  | [] => a
  end.

(** The inner [for j, (nid, name) in enumerate(stack)] loop (lines 94-103);
    [rest] is [stack[j+1:]]. *)
Fixpoint walk_stack (delta : Z) (stack : list frame) (seen : gset string)
    (a : analysis) : analysis :=
  match stack with
  | [] => a
  | (nid, name) :: rest =>
      walk_stack delta rest ({[name]} ∪ seen)
        (count_edge name rest (count_total delta name seen a))
  end.

(** The body of the outer loop for sample number [i] (lines 81-103). *)
Definition analyze_sample (nodes : gmap Z node) (time_deltas : list Z)
    (i : nat) (node_id : Z) (a : analysis) : analysis :=
  let delta := default 0 (time_deltas !! i) in
  let stack := get_full_stack nodes node_id in
  match stack with
  | [] => a
  | (leaf_id, leaf_name) :: _ =>
      let a1 :=
        Analysis (incr leaf_name 1 (self_samples a))
          (incr leaf_name delta (self_time a))
          (total_samples a) (total_time a) (call_tree a) in
      walk_stack delta stack ∅ a1
  end.

(** [for i, node_id in enumerate(samples)], started at index [i]. *)
Fixpoint analyze_from (nodes : gmap Z node) (time_deltas : list Z) (i : nat)
    (samples : list Z) (a : analysis) : analysis :=
  match samples with
  | [] => a
  | node_id :: samples' =>
      analyze_from nodes time_deltas (S i) samples'
        (analyze_sample nodes time_deltas i node_id a)
  end.

Definition empty_analysis : analysis := Analysis ∅ ∅ ∅ ∅ ∅.

Definition analyze_samples (nodes : gmap Z node) (samples : list Z)
    (time_deltas : list Z) : analysis :=
  analyze_from nodes time_deltas 0 samples empty_analysis.

(** ** format_time (lines 114-121) *)

(** What [format_time] renders: the number and its unit.  (The decimal digits
    of a float are not part of the model.) *)
Inductive time_text :=
  | Seconds (f : float)
  | Milliseconds (f : float)
  | Microseconds (us : Z).

Definition format_time (us : Z) : result time_text :=
  if bool_decide (1000000 ≤ us) then
    f ← truediv us 1000000; Ok (Seconds f)
  else if bool_decide (1000 ≤ us) then
    f ← truediv us 1000; Ok (Milliseconds f)
  else str_int us;; Ok (Microseconds us).

(** ** print_bottleneck_analysis (lines 226-273) *)

(** [(t / total_time_us * 100) if total_time_us else 0] (lines 238, 240). *)
Definition share (t total_time_us : Z) : result number :=
  if bool_decide (total_time_us ≠ 0) then
    q ← truediv t total_time_us; Ok (Float (mul_int q 100))
  else Ok (Int 0).

(** The [if]/[elif] chain of lines 245-262: the category a name is filed
    under, if any. *)
Definition category_of (name : string) : option string :=
  if contains "new_from_slice" name then Some "WASM→JS Memory Copy"
  else if contains "write_buffer" (lower name) then Some "GPU Buffer Upload"
  else if contains "sync_dirty" (lower name) then Some "Dirty Buffer Sync"
  else if contains "createBindGroup" name then Some "Bind Group Creation"
  else if contains "createCommandEncoder" name
       then Some "Command Encoder Creation"
  else if contains "wasm-to-js" (lower name) then Some "WASM→JS Call"
  else if contains "js-to-wasm" (lower name) then Some "JS→WASM Call"
  else if contains "submit" (lower name) && contains "wbg" name
       then Some "GPU Submit"
  else if contains "naga" (lower name) then Some "Shader Compilation (Naga)"
  else None.

(** An item [(name, t, pct, self_pct)] of a category. *)
Abbreviation entry := (string * Z * number * number)%type.

(** [categories[c].append(e)] on a [defaultdict(list)]. *)
Definition append_to (c : string) (e : entry) (m : gmap string (list entry)) :
    gmap string (list entry) :=
  <[c := default [] (m !! c) ++ [e]]> m.

(** The body of the loop of line 237 for one item of [total_time]. *)
Definition classify (self_time : gmap string Z) (total_time_us : Z)
    (categories : gmap string (list entry)) (item : string * Z) :
    result (gmap string (list entry)) :=
  let '(name, t) := item in
  pct ← share t total_time_us;
  let self_t := getd self_time name in
  self_pct ← share self_t total_time_us;
  if lt_half pct then Ok categories
  else
    match category_of name with
    | Some c => Ok (append_to c (name, t, pct, self_pct) categories)
    | None => Ok categories
    end.

(** Lines 235-262: the [categories] that the rest of the function prints.
    The items of [total_time] come in the order of [map_to_list]. *)
Definition bottleneck_categories (total_time self_time : gmap string Z)
    (total_time_us : Z) : result (gmap string (list entry)) :=
  for_each (classify self_time total_time_us) (map_to_list total_time) ∅.

(** ** print_report (lines 292-320) *)

(** The header lines 309-312. *)
Record header := Header {
  total_samples_line : Z;
  total_time_line : time_text;
  active_time_line : time_text * float;
  sample_interval_line : Z;
}.

Section print_report.
(** The four section printers called on lines 317-320, from the analysis,
    the sample count, the total time and the active time.  They run after
    the header; nothing below depends on what they do. *)
Context {R : Type} (print_sections : analysis → Z → Z → Z → result R).

Definition print_report (nodes : gmap Z node) (samples : list Z)
    (time_deltas : list Z) : result (header * R) :=
  let analysis := analyze_samples nodes samples time_deltas in
  let total_sample_count := Z.of_nat (length samples) in
  let total_time_us :=
    if bool_decide (time_deltas ≠ []) then sum time_deltas else 0 in
  let idle_time_us :=
    getd (self_time analysis) "(idle)" +
    getd (self_time analysis) "(program)" +
    getd (self_time analysis) "(root)" in
  let active_time_us := total_time_us - idle_time_us in
  total_text ← format_time total_time_us;
  active_text ← format_time active_time_us;
  q ← truediv active_time_us total_time_us;
  let active_pct := mul_int q 100 in
  let interval := total_time_us `div` Z.max total_sample_count 1 in
  sections ← print_sections analysis total_sample_count total_time_us
               active_time_us;
  Ok (Header total_sample_count total_text (active_text, active_pct)
        interval, sections).
End print_report.

(** ** Vocabulary of the specification *)

(** [chain nodes cur stack]: [stack] follows the parent links from [cur], every
    frame being a node of the table under its own name. *)
Fixpoint chain (nodes : gmap Z node) (cur : option Z) (stack : list frame) :
    Prop :=
  match stack with
  | [] => True
  | (c, name) :: rest =>
      cur = Some c ∧
      ∃ nd, nodes !! c = Some nd ∧ name = functionName nd ∧
            chain nodes (parent nd) rest
  end.

(** The id the walk stood on when the loop ended: the starting id when no
    frame was pushed, the parent of the last frame otherwise. *)
Definition stopped_on (nodes : gmap Z node) (node_id : Z)
    (stack : list frame) : option Z :=
  match last stack with
  | None => Some node_id
  | Some (c, _) => nodes !! c ≫= parent
  end.

(** The three reasons the specification gives for the end of the walk. *)
Definition stop_reason (nodes : gmap Z node) (stack : list frame)
    (cur : option Z) : Prop :=
  cur = None ∨
  ∃ c, cur = Some c ∧ (nodes !! c = None ∨ c ∈ stack.*1).

(** The reasons the loop has: the id [0] ends the walk as [None] does. *)
Definition stop_reason_falsy (nodes : gmap Z node) (stack : list frame)
    (cur : option Z) : Prop :=
  truthy cur = false ∨
  ∃ c, cur = Some c ∧ (nodes !! c = None ∨ c ∈ stack.*1).

(** The patterns of the bottleneck classifier in their order, each with its
    category: memory copy, buffer upload, dirty sync, bind-group creation,
    command-encoder creation, the calls across the boundary in either
    direction, submission, shader compilation. *)
Definition patterns : list ((string → bool) * string) :=
  [ (contains "new_from_slice", "WASM→JS Memory Copy");
    (λ name, contains "write_buffer" (lower name), "GPU Buffer Upload");
    (λ name, contains "sync_dirty" (lower name), "Dirty Buffer Sync");
    (contains "createBindGroup", "Bind Group Creation");
    (contains "createCommandEncoder", "Command Encoder Creation");
    (λ name, contains "wasm-to-js" (lower name), "WASM→JS Call");
    (λ name, contains "js-to-wasm" (lower name), "JS→WASM Call");
    (λ name, contains "submit" (lower name) && contains "wbg" name,
      "GPU Submit");
    (λ name, contains "naga" (lower name), "Shader Compilation (Naga)") ].

(** The category of the first pattern of [ps] that [name] matches. *)
Fixpoint first_match (ps : list ((string → bool) * string)) (name : string) :
    option string :=
  match ps with
  | [] => None
  | (matches, c) :: ps' => if matches name then Some c else first_match ps' name
  end.

(** [name] has an item in the category [c]. *)
Definition in_category (categories : gmap string (list entry)) (c : string)
    (name : string) : Prop :=
  ∃ t pct self_pct, (name, t, pct, self_pct) ∈ default [] (categories !! c).

(** The share [t / total_time_us] is below 0.5%, in exact arithmetic (for a
    positive denominator). *)
Definition share_below_half_percent (t total_time_us : Z) : Prop :=
  200 * t < total_time_us.

(** [enumerate(samples)] started at index [i]. *)
Fixpoint enumerate_from (i : nat) (samples : list Z) : list (nat * Z) :=
  match samples with
  | [] => []
  | node_id :: samples' => (i, node_id) :: enumerate_from (S i) samples'
  end.

(** A total-time map with a buffer upload, a submission, a function that
    matches no pattern and a memory copy of 0.4%, with its self times. *)
Definition sample_total_time : gmap string Z :=
  {[ "Naga_write_BUFFER" := 500; "__wbg_Submit_1" := 70;
     "render_frame" := 900; "Uint8Array::new_from_slice" := 4 ]}.

Definition sample_self_time : gmap string Z :=
  {[ "Naga_write_BUFFER" := 20; "render_frame" := 10 ]}.

(** A table whose root has the id [0]. *)
Definition zero_root_table : gmap Z node :=
  {[ 0 := Node "(root)" "" None None "" None;
     1 := Node "f" "" None None "JS" (Some 0) ]}.

(** Two nested functions, for runs with a negative time delta. *)
Definition nested_table : gmap Z node :=
  {[ 1 := Node "outer" "" None None "JS" None;
     2 := Node "inner" "" None None "JS" (Some 1) ]}.

(** A function that calls itself twice below [main]. *)
Definition recursive_table : gmap Z node :=
  {[ 1 := Node "main" "" None None "JS" None;
     2 := Node "fib" "" None None "JS" (Some 1);
     3 := Node "fib" "" None None "JS" (Some 2);
     4 := Node "fib" "" None None "JS" (Some 3) ]}.

(** A table whose parent links form a cycle. *)
Definition cyclic_table : gmap Z node :=
  {[ 1 := Node "a" "" None None "JS" (Some 2);
     2 := Node "b" "" None None "JS" (Some 3);
     3 := Node "c" "" None None "JS" (Some 1) ]}.

(** ** Auxiliary notions of the proofs *)

(** The frames the loop pushes from [current] on, as a relation. *)
Inductive walk (nodes : gmap Z node) :
    option Z → gset Z → list frame → Prop :=
  | walk_falsy current visited :
      truthy current = false → walk nodes current visited []
  | walk_visited c visited :
      c ∈ visited → walk nodes (Some c) visited []
  | walk_missing c visited :
      nodes !! c = None → walk nodes (Some c) visited []
  | walk_push c nd visited ext :
      c ≠ 0 → c ∉ visited → nodes !! c = Some nd →
      walk nodes (parent nd) ({[c]} ∪ visited) ext →
      walk nodes (Some c) visited ((c, functionName nd) :: ext).

(** Where the walk stood at its end, in the walk's own terms. *)
Fixpoint walk_end (nodes : gmap Z node) (current : option Z)
    (ext : list frame) : option Z :=
  match ext with
  | [] => current
  | (c, _) :: ext' => walk_end nodes (nodes !! c ≫= parent) ext'
  end.

(** The items a name and its time contribute to a category. *)
Definition filed (self_time : gmap string Z) (total_time_us : Z)
    (item : string * Z) (c : string) (e : entry) : Prop :=
  ∃ pct self_pct,
    share item.2 total_time_us = Ok pct ∧
    share (getd self_time item.1) total_time_us = Ok self_pct ∧
    lt_half pct = false ∧ category_of item.1 = Some c ∧
    e = (item.1, item.2, pct, self_pct).

End Trace.

(** * Part I, continued: the aggregates over a run *)

Module TraceRun.
Import Py Trace.

(** The time delta of sample number [i] (line 81). *)
Definition delta_at (time_deltas : list Z) (i : nat) : Z :=
  default 0 (time_deltas !! i).

(** [name] is the name of a frame of the stack; of its leaf; the stack has
    a frame. *)
Definition on_stack (name : string) (stack : list frame) : bool :=
  bool_decide (name ∈ stack.*2).

Definition is_leaf (name : string) (stack : list frame) : bool :=
  bool_decide (head stack.*2 = Some name).

Definition has_stack (stack : list frame) : bool := bool_decide (stack ≠ []).

(** The sum of [w i] over the samples [(i, node_id)] of a run, counted from
    the index [i0], whose stack [sel] selects. *)
Definition over_samples (nodes : gmap Z node) (i0 : nat) (samples : list Z)
    (sel : list frame → bool) (w : nat → Z) : Z :=
  sum ((λ p, w p.1)
         <$> filter (λ p, sel (get_full_stack nodes p.2) = true)
               (enumerate_from i0 samples)).

(** The number of places [j] of the stack with the name [child] at [j] and
    the name [parent] at [j + 1]. *)
Fixpoint edges (child parent : string) (stack : list frame) : Z :=
  match stack with
  | (_, c) :: rest =>
      match rest with
      | (_, p) :: _ =>
          (if bool_decide (c = child ∧ p = parent) then 1 else 0) +
          edges child parent rest
      | [] => 0
      end
  | [] => 0
  end.

(** [call_tree.get(parent, {}).get(child, 0)]. *)
Definition call_count (call_tree : gmap string (gmap string Z))
    (parent child : string) : Z :=
  getd (default ∅ (call_tree !! parent)) child.

(** [sum(d.values())]. *)
Definition total_of (m : gmap string Z) : Z :=
  map_fold (λ _ v acc, v + acc) 0 m.

(** Every count the aggregates store is at least 1. *)
Definition counts_positive (a : analysis) : Prop :=
  (∀ n w, self_samples a !! n = Some w → 1 ≤ w) ∧
  (∀ n w, total_samples a !! n = Some w → 1 ≤ w) ∧
  (∀ p d c w, call_tree a !! p = Some d → d !! c = Some w → 1 ≤ w).

(** Every time the aggregates store is at least 0. *)
Definition times_nonnegative (a : analysis) : Prop :=
  (∀ n w, self_time a !! n = Some w → 0 ≤ w) ∧
  (∀ n w, total_time a !! n = Some w → 0 ≤ w).

(** The times of the header of print_report (lines 296-303). *)
Definition total_time_us (time_deltas : list Z) : Z :=
  if bool_decide (time_deltas ≠ []) then sum time_deltas else 0.

Definition idle_time_us (a : analysis) : Z :=
  getd (self_time a) "(idle)" + getd (self_time a) "(program)" +
  getd (self_time a) "(root)".

Definition active_time_us (nodes : gmap Z node) (samples time_deltas : list Z) :
    Z :=
  total_time_us time_deltas
  - idle_time_us (analyze_samples nodes samples time_deltas).

End TraceRun.

(** * Part I, continued: text helpers *)

Module TraceText.
Import Py Trace.

(** The float is an infinity. *)
Definition is_infinity (f : float) : bool :=
  match f with
  | S754_infinity _ => true
  | _ => false
  end.

(** The first [n] characters of [s], or all of [s]. *)
Fixpoint take_string (n : nat) (s : string) : string :=
  match n, s with
  | S n', String c s' => String c (take_string n' s')
  | _, _ => ""
  end.

(** [len(s)]. *)
Definition len (s : string) : Z := Z.of_nat (String.length s).

(** The slice [s[:stop]]: a negative [stop] counts from the end of [s]. *)
Definition slice_to (s : string) (stop : Z) : string :=
  if bool_decide (stop < 0) then take_string (Z.to_nat (len s + stop)) s
  else take_string (Z.to_nat stop) s.

(** truncate (lines 136-140). *)
Definition truncate (s : string) (max_len : Z) : string :=
  if bool_decide (len s ≤ max_len) then s
  else slice_to s (max_len - 3) +:+ "...".

End TraceText.

(** * The regular expressions of the [re] module *)

Module Re.

(** ** Character classes *)

(** [\d] on a code point below 256: the digits 0-9. *)
Definition digit (c : ascii) : bool :=
  let n := N_of_ascii c in ((48 <=? n) && (n <=? 57))%N.

(** [\s] on a code point below 256: tab, line feed, vertical tab, form feed,
    carriage return, the separators 28-31, space, next line and no-break
    space. *)
Definition space (c : ascii) : bool :=
  let n := N_of_ascii c in
  (((9 <=? n) && (n <=? 13)) || ((28 <=? n) && (n <=? 32)) ||
   (n =? 133) || (n =? 160))%N.

(** [[^x]]: any code point but [x] (line feeds included). *)
Definition other_than (x c : ascii) : bool := negb (Ascii.eqb c x).

(** ** Patterns *)

(** The constructs that the patterns of the scripts use: literal text, a
    greedy repetition of a class ([min] is 0 for [*] and 1 for [+]),
    sequence, alternation and the capturing group. *)
Inductive regex :=
  | Eps
  | Lit (l : string)
  | Many (cls : ascii → bool) (min : nat)
  | Seq (r1 r2 : regex)
  | Alt (r1 r2 : regex)
  | Group (r : regex).

(** The pattern made of the parts [rs], in sequence. *)
Definition cat (rs : list regex) : regex := foldr Seq Eps rs.

(** The longest prefix of [s] made of characters of the class, and the
    rest of [s]. *)
Fixpoint span (cls : ascii → bool) (s : string) : string * string :=
  match s with
  | String c s' =>
      if cls c then (String c (span cls s').1, (span cls s').2) else ("", s)
  | EmptyString => ("", "")
  end.

(** Every character of [s] is of the class. *)
Fixpoint all (cls : ascii → bool) (s : string) : bool :=
  match s with
  | String c s' => cls c && all cls s'
  | EmptyString => true
  end.

(** [s] does not start with a character of the class. *)
Definition starts_outside (cls : ascii → bool) (s : string) : bool :=
  match s with
  | String c _ => negb (cls c)
  | EmptyString => true
  end.

(** [s] without its prefix [l], when it starts with [l]. *)
Fixpoint strip (l s : string) : option string :=
  match l, s with
  | EmptyString, _ => Some s
  | String a l', String b s' => if Ascii.eqb a b then strip l' s' else None
  | String _ _, EmptyString => None
  end.

(** [l] and [u] differ at a place that both have: no text that starts with
    [u] starts with [l]. *)
Fixpoint clash (l u : string) : bool :=
  match l, u with
  | String a l', String b u' => negb (Ascii.eqb a b) || clash l' u'
  | _, _ => false
  end.

(** [l] clashes with every suffix of [w] that is not empty. *)
Fixpoint clash_all (l w : string) : bool :=
  match w with
  | String _ w' => clash l w && clash_all l w'
  | EmptyString => true
  end.

Section exec.
Context {X : Type}.

(** A greedy repetition: the longest run of the class first, then each
    shorter one, down to [min] characters, until the rest of the pattern
    [k] matches.  [acc] is the text matched so far, [n] its length. *)
Definition stop_run (min : nat) (s : string) (acc : string) (n : nat)
    (k : string → string → option X) : option X :=
  if bool_decide (min ≤ n)%nat then k acc s else None.

Fixpoint many (cls : ascii → bool) (min : nat) (s : string) (acc : string)
    (n : nat) (k : string → string → option X) : option X :=
  match s with
  | String c s' =>
      if cls c then
        match many cls min s' (acc +:+ String c "") (S n) k with
        | Some x => Some x
        | None => stop_run min s acc n k
        end
      else stop_run min s acc n k
  | EmptyString => stop_run min s acc n k
  end.

(** The backtracking matcher, anchored at the head of [s].  The
    continuation [k] is the rest of the pattern: it gets the text matched,
    the text left and the groups closed so far, in the order of closing. *)
Fixpoint exec (r : regex) (s : string) (groups : list string)
    (k : string → string → list string → option X) : option X :=
  match r with
  | Eps => k "" s groups
  | Lit l =>
      match strip l s with
      | Some rest => k l rest groups
      | None => None
      end
  | Many cls min => many cls min s "" 0 (λ m rest, k m rest groups)
  | Seq r1 r2 =>
      exec r1 s groups (λ m1 rest1 groups1,
        exec r2 rest1 groups1 (λ m2 rest2 groups2,
          k (m1 +:+ m2) rest2 groups2))
  | Alt r1 r2 =>
      match exec r1 s groups k with
      | Some x => Some x
      | None => exec r2 s groups k
      end
  | Group r1 =>
      exec r1 s groups (λ m rest groups1, k m rest (groups1 ++ [m]))
  end.
End exec.

(** [pattern.match(s)]: the text matched at the head of [s] and its groups. *)
Definition match_at (r : regex) (s : string) : option (string * list string) :=
  exec r s [] (λ m _ groups, Some (m, groups)).

(** [re.finditer(r, s)]: the matches from left to right, none overlapping
    another.  [skip] counts the characters of the last match that are still
    to be passed over. *)
Fixpoint scan (r : regex) (s : string) (skip : nat) :
    list (string * list string) :=
  match s with
  | EmptyString =>
      match skip, match_at r "" with
      | O, Some m => [m]
      | _, _ => []
      end
  | String c s' =>
      match skip with
      | S skip' => scan r s' skip'
      | O =>
          match match_at r s with
          | Some m => m :: scan r s' (pred (String.length m.1))
          | None => scan r s' 0
          end
      end
  end.

Definition finditer (r : regex) (s : string) : list (string * list string) :=
  scan r s 0.

(** [match.group(i)] for [i] from 1 on; the empty text where the model has no
    such group. *)
Definition group (m : string * list string) (i : nat) : string :=
  default "" (m.2 !! pred i).

(** [re.findall(r, s)] for a pattern with one group. *)
Definition findall1 (r : regex) (s : string) : list string :=
  (λ m, group m 1) <$> finditer r s.

End Re.

(** * Part I, continued: the names that the reports show *)

Module TraceNames.
Import Py Re TraceText.

(** ** demangle_rust_name (lines 124-133) *)

(** [[0-9a-f]]. *)
Definition hex (c : ascii) : bool :=
  let n := N_of_ascii c in
  (((48 <=? n) && (n <=? 57)) || ((97 <=? n) && (n <=? 102)))%N.

(** The pattern [\[[0-9a-f]{16}\]] matches at the head of [s]: a bracket,
    sixteen characters of the class and a closing bracket, eighteen
    characters in all. *)
Definition hash_at (s : string) : bool :=
  match s with
  | String c s' =>
      Ascii.eqb c "[" && all hex (take_string 16 s') &&
      match String.get 16 s' with
      | Some c' => Ascii.eqb c' "]"
      | None => false
      end
  | EmptyString => false
  end.

(** [re.sub(r'\[[0-9a-f]{16}\]', '', s)]: the matches are taken from left
    to right, none overlapping another.  [skip] counts the characters of
    the last match that are still to be passed over. *)
Fixpoint remove_hashes (s : string) (skip : nat) : string :=
  match s with
  | EmptyString => ""
  | String c s' =>
      match skip with
      | S skip' => remove_hashes s' skip'
      | O =>
          if hash_at s then remove_hashes s' 17
          else String c (remove_hashes s' 0)
      end
  end.

(** [s.replace(old, new)] for a text [old] that is not empty: the
    occurrences are taken from left to right, none overlapping another. *)
Fixpoint replace_from (old new : string) (s : string) (skip : nat) : string :=
  match s with
  | EmptyString => ""
  | String c s' =>
      match skip with
      | S skip' => replace_from old new s' skip'
      | O =>
          if String.prefix old s
          then new +:+ replace_from old new s' (pred (String.length old))
          else String c (replace_from old new s' 0)
      end
  end.

Definition replace (old new s : string) : string := replace_from old new s 0.

Definition demangle_rust_name (name : string) : string :=
  let name := remove_hashes name 0 in
  let name := replace "core::ops::function::" "" name in
  let name := replace "alloc::vec::Vec<" "Vec<" name in
  replace "alloc::boxed::Box<" "Box<" name.

(** A character that no hash suffix and no replaced text starts with or
    holds at its second place. *)
Definition plain (c : ascii) : bool :=
  negb (Ascii.eqb c "[") && negb (Ascii.eqb c ":").

End TraceNames.

(** * Part II: analyze-webgpu-inspector.py *)

Module Inspector.
Import Py Re.

(** ** Data model *)

(** An item of [results['draws']]: the dict of a direct draw (lines 38-43),
    which has no key ['type']; the dict of an indirect one (lines 48-51),
    whose ['type'] is ['indirect']; or a dict with a ['type'] of its own,
    which the parser does not build but the summary and the report take as
    it comes. *)
Inductive draw :=
  | DirectDraw (vertex_count instance_count first_vertex first_instance : Z)
  | IndirectDraw (offset : Z)
  | OtherDraw (draw_type : string).

(** An item of [results['dispatches']] (lines 56-61). *)
Record dispatch := Dispatch {
  x : Z;
  y : Z;
  z : Z;
  total_workgroups : Z;
}.

(** An item of [results['buffers']] (lines 66-69, 74-77). *)
Record buffer := Buffer {
  size : Z;
  label : string;
}.

(** An item of [results['pipelines']] (lines 82-85). *)
Record pipeline := Pipeline {
  type : string;
  pipeline_label : string;
}.

(** A value of the [summary] dict. *)
Inductive value :=
  | VInt (n : Z)
  | VFloat (f : float)
  | VDict (d : gmap string Z).

(** The [results] dict. *)
Record results := Results {
  draws : list draw;
  dispatches : list dispatch;
  buffers : list buffer;
  pipelines : list pipeline;
  frame_count : Z;
  summary : gmap string value;
}.

(** ** The patterns of parse_webgpu_recording *)

(** The double quote character.  In the comments below it is written Q, and
    the patterns are cut into their parts by blanks. *)
Definition dquote : string := String "034"%char "".

(** [D_F(\d+)_\d+] (line 31). *)
Definition frame_pattern : regex :=
  cat [Lit "D_F"; Group (Many digit 1); Lit "_"; Many digit 1].

(** [\.draw\((\d+),(\d+),(\d+),(\d+)\)] (line 36). *)
Definition draw_pattern : regex :=
  cat [Lit ".draw("; Group (Many digit 1); Lit ","; Group (Many digit 1);
       Lit ","; Group (Many digit 1); Lit ","; Group (Many digit 1); Lit ")"].

(** [\.drawIndirect\([^,]+,\s*(\d+)\)] (line 46). *)
Definition draw_indirect_pattern : regex :=
  cat [Lit ".drawIndirect("; Many (other_than ","%char) 1; Lit ",";
       Many space 0; Group (Many digit 1); Lit ")"].

(** [\.dispatchWorkgroups\((\d+),(\d+),(\d+)\)] (line 54). *)
Definition dispatch_pattern : regex :=
  cat [Lit ".dispatchWorkgroups("; Group (Many digit 1); Lit ",";
       Group (Many digit 1); Lit ","; Group (Many digit 1); Lit ")"].

(** [createBuffer\(\{ [^}]* QsizeQ: (\d+) [^}]* QlabelQ:Q ( [^Q]* ) Q]
    (line 64). *)
Definition buffer_pattern : regex :=
  cat [Lit "createBuffer({"; Many (other_than "}"%char) 0;
       Lit (dquote +:+ "size" +:+ dquote +:+ ":"); Group (Many digit 1);
       Many (other_than "}"%char) 0;
       Lit (dquote +:+ "label" +:+ dquote +:+ ":" +:+ dquote);
       Group (Many (other_than "034"%char) 0); Lit dquote].

(** [createBuffer\(\{ [^}]* QlabelQ:Q ( [^Q]* ) Q [^}]* QsizeQ: (\d+)]
    (line 72). *)
Definition buffer_pattern2 : regex :=
  cat [Lit "createBuffer({"; Many (other_than "}"%char) 0;
       Lit (dquote +:+ "label" +:+ dquote +:+ ":" +:+ dquote);
       Group (Many (other_than "034"%char) 0); Lit dquote;
       Many (other_than "}"%char) 0;
       Lit (dquote +:+ "size" +:+ dquote +:+ ":"); Group (Many digit 1)].

(** [create (Compute|Render) Pipeline\(\{ [^}]* QlabelQ:Q ( [^Q]* ) Q]
    (line 80). *)
Definition pipeline_pattern : regex :=
  cat [Lit "create"; Group (Alt (Lit "Compute") (Lit "Render"));
       Lit "Pipeline({"; Many (other_than "}"%char) 0;
       Lit (dquote +:+ "label" +:+ dquote +:+ ":" +:+ dquote);
       Group (Many (other_than "034"%char) 0); Lit dquote].

(** ** compute_summary (lines 93-144) *)

(** [max(l)] on a list that is not empty. *)
Definition max_list (l : list Z) : Z :=
  match l with
  | [] => 0
  | a :: l' => foldl Z.max a l'
  end.

(** ['type' not in d]. *)
Definition is_direct (d : draw) : bool :=
  match d with
  | DirectDraw _ _ _ _ => true
  | IndirectDraw _ | OtherDraw _ => false
  end.

(** [d.get('type') == 'indirect']. *)
Definition is_indirect (d : draw) : bool :=
  match d with
  | DirectDraw _ _ _ _ => false
  | IndirectDraw _ => true
  | OtherDraw t => bool_decide (t = "indirect")
  end.

(** [d['vertex_count']] and [d['instance_count']] of a direct draw. *)
Definition vertex_count_of (d : draw) : Z :=
  match d with
  | DirectDraw v _ _ _ => v
  | IndirectDraw _ | OtherDraw _ => 0
  end.

Definition instance_count_of (d : draw) : Z :=
  match d with
  | DirectDraw _ i _ _ => i
  | IndirectDraw _ | OtherDraw _ => 0
  end.

(** [len(l)]. *)
Definition len {A : Type} (l : list A) : Z := Z.of_nat (length l).

(** [d[k] += 1] on a [defaultdict(int)]. *)
Definition count_key (k : string) (m : gmap string Z) : gmap string Z :=
  <[k := default 0 (m !! k) + 1]> m.

(** The key [{d['x']}x{d['y']}x{d['z']}] of line 125. *)
Definition dispatch_key (d : dispatch) : result string :=
  sx ← str_int (x d); sy ← str_int (y d); sz ← str_int (z d);
  Ok (sx +:+ "x" +:+ sy +:+ "x" +:+ sz).

(** Lines 99-116: the draw-call part. *)
Definition summarize_draws (r : results) (summary : gmap string value) :
    result (gmap string value) :=
  if bool_decide (draws r ≠ []) then
    let direct_draws := filter (λ d, is_direct d = true) (draws r) in
    let indirect_draws := filter (λ d, is_indirect d = true) (draws r) in
    let summary := <["draw_calls" := VInt (len (draws r))]> summary in
    let summary := <["direct_draws" := VInt (len direct_draws)]> summary in
    let summary := <["indirect_draws" := VInt (len indirect_draws)]> summary in
    if bool_decide (direct_draws ≠ []) then
      let total_vertices :=
        sum ((λ d, vertex_count_of d * instance_count_of d) <$> direct_draws) in
      let total_instances := sum (instance_count_of <$> direct_draws) in
      let summary := <["total_vertices_drawn" := VInt total_vertices]> summary in
      let summary := <["total_instances" := VInt total_instances]> summary in
      if bool_decide (0 < frame_count r) then
        dpf ← truediv (len direct_draws) (frame_count r);
        let summary := <["draws_per_frame" := VFloat dpf]> summary in
        ipf ← truediv total_instances (frame_count r);
        Ok (<["instances_per_frame" := VFloat ipf]> summary)
      else Ok summary
    else Ok summary
  else Ok summary.

(** Lines 119-130: the dispatch part. *)
Definition summarize_dispatches (r : results) (summary : gmap string value) :
    result (gmap string value) :=
  if bool_decide (dispatches r ≠ []) then
    let summary := <["dispatch_calls" := VInt (len (dispatches r))]> summary in
    dispatch_types ←
      for_each (λ types d, key ← dispatch_key d; Ok (count_key key types))
        (dispatches r) ∅;
    let summary := <["dispatch_types" := VDict dispatch_types]> summary in
    if bool_decide (0 < frame_count r) then
      dpf ← truediv (len (dispatches r)) (frame_count r);
      Ok (<["dispatches_per_frame" := VFloat dpf]> summary)
    else Ok summary
  else Ok summary.

(** Lines 135-138: the sizes by label, the first record of a label winning. *)
Definition unique_buffers (bs : list buffer) : gmap string Z :=
  foldl (λ unique b,
           if bool_decide (unique !! label b = None)
           then <[label b := size b]> unique else unique) ∅ bs.

(** [sum(d.values())]. *)
Definition sum_values (d : gmap string Z) : Z := sum (snd <$> map_to_list d).

(** Lines 133-142: the buffer part. *)
Definition summarize_buffers (r : results) (summary : gmap string value) :
    gmap string value :=
  if bool_decide (buffers r ≠ []) then
    let unique := unique_buffers (buffers r) in
    let summary := <["buffer_count" := VInt (Z.of_nat (base.size unique))]> summary in
    let summary := <["total_buffer_memory" := VInt (sum_values unique)]> summary in
    <["buffers" := VDict unique]> summary
  else summary.

Definition compute_summary (r : results) : result (gmap string value) :=
  summary ← summarize_draws r ∅;
  summary ← summarize_dispatches r summary;
  Ok (summarize_buffers r summary).

(** ** parse_webgpu_recording (lines 15-90), from the text of the file *)

Definition parse_frame_count (content : string) : result Z :=
  let frame_matches := findall1 frame_pattern content in
  if bool_decide (frame_matches ≠ []) then
    indices ← map_result int frame_matches; Ok (max_list indices + 1)
  else Ok 0.

(** The dict of a direct draw (lines 38-43) and of an indirect one (lines
    48-51), from a match. *)
Definition direct_draw_of (m : string * list string) : result draw :=
  vertex_count ← int (group m 1); instance_count ← int (group m 2);
  first_vertex ← int (group m 3); first_instance ← int (group m 4);
  Ok (DirectDraw vertex_count instance_count first_vertex first_instance).

Definition indirect_draw_of (m : string * list string) : result draw :=
  offset ← int (group m 1); Ok (IndirectDraw offset).

Definition parse_draws (content : string) : result (list draw) :=
  direct ← map_result direct_draw_of (finditer draw_pattern content);
  indirect ← map_result indirect_draw_of
                (finditer draw_indirect_pattern content);
  Ok (direct ++ indirect).

(** The dict of a dispatch (lines 56-61); the product reads the three
    groups once more, to the same numbers. *)
Definition dispatch_of (m : string * list string) : result dispatch :=
  x ← int (group m 1); y ← int (group m 2); z ← int (group m 3);
  Ok (Dispatch x y z (x * y * z)).

Definition parse_dispatches (content : string) : result (list dispatch) :=
  map_result dispatch_of (finditer dispatch_pattern content).

(** The dict of a buffer, from a match of the first pattern (lines 66-69)
    and of the second (lines 74-77). *)
Definition buffer_of (m : string * list string) : result buffer :=
  size ← int (group m 1); Ok (Buffer size (group m 2)).

Definition buffer_of2 (m : string * list string) : result buffer :=
  size ← int (group m 2); Ok (Buffer size (group m 1)).

Definition parse_buffers (content : string) : result (list buffer) :=
  first ← map_result buffer_of (finditer buffer_pattern content);
  second ← map_result buffer_of2 (finditer buffer_pattern2 content);
  Ok (first ++ second).

Definition parse_pipelines (content : string) : list pipeline :=
  (λ m, Pipeline (lower (group m 1)) (group m 2))
    <$> finditer pipeline_pattern content.

Definition parse_webgpu_recording (content : string) : result results :=
  frame_count ← parse_frame_count content;
  draws ← parse_draws content;
  dispatches ← parse_dispatches content;
  buffers ← parse_buffers content;
  let r := Results draws dispatches buffers (parse_pipelines content)
             frame_count ∅ in
  summary ← compute_summary r;
  Ok (Results draws dispatches buffers (parse_pipelines content) frame_count
        summary).

(** ** print_report, the draw configurations (lines 176-185) *)

(** The key [vertices={d['vertex_count']}, instances={d['instance_count']}]
    of line 180. *)
Definition config_key (d : draw) : result string :=
  vertices ← str_int (vertex_count_of d);
  instances ← str_int (instance_count_of d);
  Ok ("vertices=" +:+ vertices +:+ ", instances=" +:+ instances).

(** [d[k] += 1] on a [defaultdict(int)] whose items keep the order in which
    their keys came. *)
Fixpoint count_item (k : string) (items : list (string * Z)) :
    list (string * Z) :=
  match items with
  | [] => [(k, 1)]
  | (k', n) :: items' =>
      if bool_decide (k' = k) then (k', n + 1) :: items'
      else (k', n) :: count_item k items'
  end.

(** [sorted(items, key=lambda x: -x[1])]: stable, the larger count first. *)
Fixpoint insert_by_count (item : string * Z) (sorted : list (string * Z)) :
    list (string * Z) :=
  match sorted with
  | [] => [item]
  | item' :: sorted' =>
      if bool_decide (- item.2 ≤ - item'.2) then item :: sorted
      else item' :: insert_by_count item sorted'
  end.

Definition sorted_by_count (items : list (string * Z)) : list (string * Z) :=
  foldr insert_by_count [] items.

(** The lines [{count}x: {config}] that the report prints, in their order. *)
Definition draw_configurations (r : results) : result (list (string * Z)) :=
  let direct_draws := filter (λ d, is_direct d = true) (draws r) in
  draw_configs ←
    for_each (λ configs d, key ← config_key d; Ok (count_item key configs))
      direct_draws [];
  Ok (sorted_by_count draw_configs).

(** ** Vocabulary of the specification *)

(** The size of the first record of [bs] that carries the label [l]. *)
Definition first_size (l : string) (bs : list buffer) : Z :=
  default 0 (size <$> head (filter (λ b, label b = l) bs)).

(** The labels of [bs], each once. *)
Definition unique_labels (bs : list buffer) : list string :=
  remove_dups (label <$> bs).

(** Buffer records with a label that comes twice, with two sizes. *)
Definition sample_buffers : list buffer :=
  [Buffer 1024 "vertices"; Buffer 16 "indices"; Buffer 77 "vertices"].

(** The two draw calls of the example of the specification. *)
Definition draw_10_5 : string := ".draw(10,5,0,0)".
Definition draw_10_2 : string := ".draw(10,2,0,0)".

(** The text [g] has nothing that looks like a draw call. *)
Definition no_draw (g : string) : Prop :=
  ∀ pre post, g ≠ pre +:+ ".draw" +:+ post.

(** The keys of the per-frame rates. *)
Definition per_frame_keys : list string :=
  ["draws_per_frame"; "instances_per_frame"; "dispatches_per_frame"].

(** The ten digits as the specification reads them: the value of a digit
    is its place in their row, and a character that is not in the row is no
    digit. *)
Definition digit_row : string := "0123456789".

Fixpoint place_in (row : string) (c : ascii) : option Z :=
  match row with
  | EmptyString => None
  | String c' row' =>
      if Ascii.eqb c c' then Some 0 else Z.succ <$> place_in row' c
  end.

Definition digit_of (c : ascii) : option Z := place_in digit_row c.

(** The number that a numeral writes, each digit with its power of ten;
    [None] for the empty text and for a text with another character. *)
Fixpoint numeral (s : string) : option Z :=
  match s with
  | EmptyString => None
  | String c s' =>
      d ← digit_of c;
      match s' with
      | EmptyString => Some d
      | String _ _ =>
          v ← numeral s'; Some (d * 10 ^ Z.of_nat (String.length s') + v)
      end
  end.

(** The text has a frame marker [D_F<n>_<m>] somewhere, [ds] being the
    digits of its index. *)
Definition marker_at (content ds : string) : Prop :=
  ∃ pre ms post,
    content = pre +:+ "D_F" +:+ ds +:+ "_" +:+ ms +:+ post ∧
    is_Some (numeral ds) ∧ is_Some (numeral ms).

(** The text has a frame marker [D_F<n>_<m>] whose frame index is [n]. *)
Definition marker (content : string) (n : Z) : Prop :=
  ∃ ds, marker_at content ds ∧ numeral ds = Some n.

(** A numeral of the text has more than 4300 digits; none has. *)
Definition long_numeral (content : string) : Prop :=
  ∃ pre ds post,
    content = pre +:+ ds +:+ post ∧ is_Some (numeral ds) ∧
    (4300 < String.length ds)%nat.

Definition short_numerals (content : string) : Prop := ¬ long_numeral content.

(** A text with one frame marker, whose index has 4301 digits. *)
Definition long_index : string :=
  string_of_list_ascii (replicate 4301 "1"%char).

Definition long_marker_text : string := "D_F" +:+ long_index +:+ "_0".

(** ** Auxiliary notions of the proofs *)

(** A marker with the digits [ds] of its index, somewhere in [s], and at the
    head of [s]. *)
Definition occurs_head (ds s : string) : Prop :=
  ∃ ms post, s = "D_F" +:+ ds +:+ "_" +:+ ms +:+ post ∧
             ds ≠ "" ∧ ms ≠ "" ∧ all digit ds = true ∧ all digit ms = true.

Definition occurs (ds s : string) : Prop :=
  ∃ pre, ∃ s', s = pre +:+ s' ∧ occurs_head ds s'.

(** The first [skip] characters of [s] are not the letter D. *)
Fixpoint no_D (skip : nat) (s : string) : Prop :=
  match skip, s with
  | S skip', String c s' => c ≠ "D"%char ∧ no_D skip' s'
  | _, _ => True
  end.

(** The text that follows a gap: a draw call, or nothing. *)
Definition dot_or_end (rest : string) : Prop :=
  rest = "" ∨ ∃ rest', rest = String "."%char rest'.

End Inspector.

(** * Part II, continued: what the parser and the report keep *)

Module InspectorRun.
Import Py Re Inspector.

(** What a pattern matches: the text [m], with the groups closed before
    and after. *)
Fixpoint matches (r : regex) (m : string) (groups groups' : list string) :
    Prop :=
  match r with
  | Eps => m = "" ∧ groups' = groups
  | Lit l => m = l ∧ groups' = groups
  | Many cls min =>
      all cls m = true ∧ (min ≤ String.length m)%nat ∧ groups' = groups
  | Seq r1 r2 =>
      ∃ m1 m2 groups1,
        m = m1 +:+ m2 ∧ matches r1 m1 groups groups1 ∧
        matches r2 m2 groups1 groups'
  | Alt r1 r2 => matches r1 m groups groups' ∨ matches r2 m groups groups'
  | Group r1 => ∃ groups1, matches r1 m groups groups1 ∧ groups' = groups1 ++ [m]
  end.

(** [x] is a part of [s]. *)
Definition part_of (x s : string) : Prop := ∃ pre post, s = pre +:+ x +:+ post.

(** A parsed draw, dispatch, buffer or pipeline is well formed. *)
Definition draw_ok (d : draw) : Prop :=
  match d with
  | DirectDraw v i fv fi => 0 ≤ v ∧ 0 ≤ i ∧ 0 ≤ fv ∧ 0 ≤ fi
  | IndirectDraw o => 0 ≤ o
  | OtherDraw _ => False
  end.

Definition dispatch_ok (d : dispatch) : Prop :=
  0 ≤ x d ∧ 0 ≤ y d ∧ 0 ≤ z d ∧ total_workgroups d = x d * y d * z d.

Definition buffer_ok (b : buffer) : Prop :=
  0 ≤ size b ∧ all (other_than "034"%char) (label b) = true.

Definition pipeline_ok (p : pipeline) : Prop :=
  (type p = "compute" ∨ type p = "render") ∧
  all (other_than "034"%char) (pipeline_label p) = true.

(** [s.split(sep)] for a separator of one character. *)
Fixpoint split_on (sep : ascii) (s : string) : list string :=
  match s with
  | EmptyString => [""]
  | String c s' =>
      if Ascii.eqb c sep then "" :: split_on sep s'
      else
        match split_on sep s' with
        | part :: parts => String c part :: parts
        | [] => [String c ""]
        end
  end.

(** Lines 195-196: the workgroup total read back from a key of
    [dispatch_types]. *)
Definition workgroups_of_key (config : string) : result Z :=
  let parts := split_on "x" config in
  p0 ← item parts 0; n0 ← int p0;
  p1 ← item parts 1; n1 ← int p1;
  p2 ← item parts 2; n2 ← int p2;
  Ok (n0 * n1 * n2).

(** A character of a decimal numeral: a digit or the minus sign. *)
Definition numeral_char (c : ascii) : bool := digit c || Ascii.eqb c "-".

(** The number of items of [l] with the key [k]. *)
Definition tally {A : Type} (key : A → result string) (k : string)
    (l : list A) : Z :=
  len (filter (λ a, key a = Ok k) l).

(** What a step that reads numerals of the text does: it returns a value
    that is as [P] says, or it raises [ValueError], and this only when the
    text has a numeral that is too long ([short] does not hold). *)
Definition outcome {A : Type} (P : A → Prop) (short : Prop)
    (res : result A) : Prop :=
  match res with
  | Ok a => P a
  | Raise e => e = ValueError ∧ ¬ short
  end.

(** A draw as the parser makes it: direct or indirect. *)
Definition parsed_draw (d : draw) : Prop :=
  draw_ok d ∧ (is_direct d = true ∨ is_indirect d = true).

(** A dispatch whose dimensions are convertible, and one as the parser
    makes it. *)
Definition convertible_dispatch (d : dispatch) : Prop :=
  convertible (x d) ∧ convertible (y d) ∧ convertible (z d).

Definition parsed_dispatch (d : dispatch) : Prop :=
  dispatch_ok d ∧ convertible_dispatch d.

(** A direct draw whose counts are convertible. *)
Definition convertible_draw (d : draw) : Prop :=
  convertible (vertex_count_of d) ∧ convertible (instance_count_of d).

(** [direct_draws] (lines 100, 170). *)
Definition direct_draws (r : results) : list draw :=
  filter (λ d, is_direct d = true) (draws r).

(** [a] comes before [b] in [sorted(..., key=lambda x: -x[1])]. *)
Definition by_count (a b : string * Z) : Prop := b.2 ≤ a.2.

(** Results with two direct draws, an indirect one and three dispatches,
    two of them of one size. *)
Definition sample_results : results :=
  Results [DirectDraw 10 5 0 0; IndirectDraw 16; DirectDraw 6 1 0 0]
    [Dispatch 1 1 1 1; Dispatch 4 2 1 8; Dispatch 1 1 1 1] [] [] 2 ∅.

End InspectorRun.

(** * Part I, continued: the flat profile *)

Module TraceFlat.
Import Py Trace TraceText TraceNames InspectorRun.

(** ** print_flat_profile (lines 200-223) *)

(** The names that the flat profile leaves out (line 214). *)
Definition flat_excluded : list string :=
  ["(idle)"; "(program)"; "(root)"; "(garbage collector)"].

(** [items] is [d.items()]: the items of the dict, in the order that the
    dict keeps them. *)
Definition items_of (d : gmap string Z) (items : list (string * Z)) : Prop :=
  items ≡ₚ map_to_list d.

(** [sorted_funcs] (lines 212-216), from [self_time.items()]. *)
Definition sorted_funcs (self_items : list (string * Z)) :
    list (string * Z) :=
  Inspector.sorted_by_count
    (filter (λ item, item.1 ∉ flat_excluded) self_items).

(** [sorted_funcs[:40]]: the functions that get a line. *)
Definition flat_profile_funcs (self_items : list (string * Z)) :
    list (string * Z) :=
  take 40 (sorted_funcs self_items).

(** A line of the flat profile (line 223). *)
Record flat_row := FlatRow {
  row_self : time_text;
  row_total : time_text;
  row_self_pct : number;
  row_total_pct : number;
  row_display : string;
}.

(** The body of the loop of line 218 (lines 219-223). *)
Definition flat_row_of (a : analysis) (total_time_us : Z)
    (item : string * Z) : result flat_row :=
  let '(name, self_t) := item in
  let total_t := getd (total_time a) name in
  self_pct ← share self_t total_time_us;
  total_pct ← share total_t total_time_us;
  let display_name := truncate (demangle_rust_name name) 60 in
  self_text ← format_time self_t;
  total_text ← format_time total_t;
  Ok (FlatRow self_text total_text self_pct total_pct display_name).

(** The lines of the profile, in their order; [self_items] is
    [self_time.items()]. *)
Definition print_flat_profile (a : analysis) (self_items : list (string * Z))
    (total_time_us : Z) : result (list flat_row) :=
  map_result (flat_row_of a total_time_us) (flat_profile_funcs self_items).

(** The aggregates of two samples of one function, and the items of their
    self times. *)
Definition sample_analysis : analysis :=
  analyze_samples nested_table [2; 2] [100; 200].

Definition sample_self_items : list (string * Z) :=
  map_to_list (self_time sample_analysis).

End TraceFlat.

(** * Part I, continued: the call tree *)

Module TraceTree.
Import Py Trace TraceText TraceNames TraceFlat.

(** ** print_call_tree (lines 143-197) *)

(** [0.1]. *)
Definition tenth : float := S754_finite false 7205759403792794 (-56).

(** [n < 0.1].  An [int] is compared by its value. *)
Definition lt_tenth (n : number) : bool :=
  match n with
  | Int z => bool_decide (z ≤ 0)
  | Float f => SFltb f tenth
  end.

(** [f >= 0.1]. *)
Definition ge_tenth (f : float) : bool := SFleb tenth f.

(** The names that are no root of the tree (line 161). *)
Definition tree_excluded : list string := ["(idle)"; "(program)"; "(root)"].

(** [sorted(l, key=key)]: stable, the smaller key first. *)
Fixpoint insert_by_key {A : Type} (key : A → Z) (item : A) (sorted : list A) :
    list A :=
  match sorted with
  | [] => [item]
  | item' :: sorted' =>
      if bool_decide (key item ≤ key item') then item :: sorted
      else item' :: insert_by_key key item sorted'
  end.

Definition sorted_by_key {A : Type} (key : A → Z) (l : list A) : list A :=
  foldr (insert_by_key key) [] l.

(** [len(prefix)] of line 182: two blanks for each level and, below the
    roots, the three characters of the branch mark. *)
Definition prefix_len (indent : Z) : Z :=
  2 * indent + (if bool_decide (0 < indent) then 3 else 0).

(** A line of the tree (line 185): the function it is for, its level, and
    what the line shows. *)
Record tree_row := TreeRow {
  tree_name : string;
  tree_indent : Z;
  tree_self : time_text;
  tree_total : time_text;
  tree_self_pct : number;
  tree_total_pct : number;
  tree_display : string;
}.

(** The state of the walk: the set [printed] and the lines so far. *)
Abbreviation tree_state := (gset string * list tree_row)%type.

Section print_call_tree.
(** [total_items] is [total_time.items()] and [children_items name] is
    [call_tree.get(name, {}).items()], each in the order that its dict
    keeps. *)
Context (a : analysis) (total_items : list (string * Z))
  (children_items : string → list (string * Z)) (total_time_us : Z).

(** [sorted_funcs] (lines 159-163). *)
Definition tree_funcs : list (string * Z) :=
  Inspector.sorted_by_count
    (filter (λ item, item.1 ∉ tree_excluded) total_items).

(** print_subtree (lines 165-193) with [max_depth] 8.  [room] is the number
    of levels from this one down to the level 8: the call is at the level
    [indent = 9 - room], and with no room left [indent > max_depth]. *)
Fixpoint print_subtree (room : nat) (name : string) (st : tree_state) :
    result tree_state :=
  match room with
  | O => Ok st
  | S room' =>
      let indent := 8 - Z.of_nat room' in
      if bool_decide (name ∈ st.1) then Ok st
      else
        let printed := {[name]} ∪ st.1 in
        let self_t := getd (self_time a) name in
        let total_t := getd (total_time a) name in
        self_pct ← share self_t total_time_us;
        total_pct ← share total_t total_time_us;
        if lt_tenth total_pct && bool_decide (0 < indent)
        then Ok (printed, st.2)
        else
          let display_name :=
            truncate (demangle_rust_name name) (70 - prefix_len indent) in
          self_text ← format_time self_t;
          total_text ← format_time total_t;
          let rows :=
            st.2 ++ [TreeRow name indent self_text total_text self_pct
                       total_pct display_name] in
          let sorted_children :=
            sorted_by_key (λ item, - getd (total_time a) item.1)
              (children_items name) in
          for_each
            (λ st child,
               q ← truediv (getd (total_time a) child.1) total_time_us;
               if ge_tenth (mul_int q 100)
               then print_subtree room' child.1 st
               else Ok st)
            (take 5 sorted_children) (printed, rows)
  end.

(** The loop of lines 195-197: the set [printed] and the lines at its
    end. *)
Definition call_tree_walk : result tree_state :=
  for_each
    (λ st item,
       if bool_decide (item.1 ∉ st.1) then print_subtree 9 item.1 st
       else Ok st)
    (take 30 tree_funcs) (∅, []).

(** print_call_tree, as the lines it prints. *)
Definition print_call_tree : result (list tree_row) :=
  st ← call_tree_walk; Ok st.2.
End print_call_tree.

(** The function has a child in the call tree. *)
Definition has_children (children_items : string → list (string * Z))
    (item : string * Z) : Prop :=
  children_items item.1 ≠ [].

(** What every line of the tree satisfies: its level is between 0 and 8;
    the prefix and the name shown fit 70 characters; a root is none of the
    excluded names; and below the roots the share of the total time is a
    float that is at least 0.1. *)
Definition tree_row_ok (row : tree_row) : Prop :=
  0 ≤ tree_indent row ≤ 8 ∧
  prefix_len (tree_indent row) + TraceText.len (tree_display row) ≤ 70 ∧
  (tree_indent row = 0 → tree_name row ∉ tree_excluded) ∧
  (0 < tree_indent row →
   ∃ f, tree_total_pct row = Float f ∧ ge_tenth f = true).

(** The share of the total time of [name] is at least 0.1: what the loop of
    line 192 asks of a child before it walks down to it. *)
Definition large (a : analysis) (total_time_us : Z) (name : string) : Prop :=
  ∃ q, truediv (getd (total_time a) name) total_time_us = Ok q ∧
       ge_tenth (mul_int q 100) = true.

(** The state of the walk: the names marked as printed are those of the
    lines, no name has two lines, and every line is as it should be. *)
Definition tree_inv (st : tree_state) : Prop :=
  st.1 = list_to_set (tree_name <$> st.2) ∧
  NoDup (tree_name <$> st.2) ∧
  Forall tree_row_ok st.2.

(** The aggregates of two samples of [inner] below [outer], with their
    items in the order of the dicts; [stalled_analysis] is for time deltas
    of 0 and [sample_tree] for a total of 300. *)
Definition stalled_analysis : analysis :=
  Analysis {["inner" := 2]} {["inner" := 0]} {["outer" := 2; "inner" := 2]}
    {["outer" := 0; "inner" := 0]} {["outer" := {["inner" := 2]}]}.

Definition sample_tree : analysis :=
  Analysis {["inner" := 2]} {["inner" := 300]} {["outer" := 2; "inner" := 2]}
    {["outer" := 300; "inner" := 300]} {["outer" := {["inner" := 2]}]}.

Definition sample_total_items (t : Z) : list (string * Z) :=
  [("outer", t); ("inner", t)].

Definition sample_children_items (name : string) : list (string * Z) :=
  if decide (name = "outer") then [("inner", 2)] else [].

End TraceTree.

(** * Proofs for the regular expressions *)

Module ReProofs.
Import Py Re InspectorRun.

(** ** Strings *)

Lemma string_app_cons (x : ascii) (a b : string) :
  String x a +:+ b = String x (a +:+ b).
Proof. reflexivity. Qed.

Lemma string_app_nil_l (a : string) : "" +:+ a = a.
Proof. reflexivity. Qed.

Lemma string_app_assoc (a b c : string) : (a +:+ b) +:+ c = a +:+ (b +:+ c).
Proof. induction a as [|x a IH]; [done|]. by rewrite !string_app_cons, IH. Qed.

Lemma string_app_nil_r (a : string) : a +:+ "" = a.
Proof. induction a as [|x a IH]; [done|]. by rewrite string_app_cons, IH. Qed.

Lemma string_length_app (a b : string) :
  String.length (a +:+ b) = (String.length a + String.length b)%nat.
Proof. induction a as [|x a IH]; [done|]. rewrite string_app_cons. simpl. by rewrite IH. Qed.

Lemma strip_app (l s : string) : strip l (l +:+ s) = Some s.
Proof.
  induction l as [|a l IH]; [done|]. rewrite string_app_cons. simpl.
  by rewrite Ascii.eqb_refl.
Qed.

Lemma strip_Some (l s rest : string) : strip l s = Some rest → s = l +:+ rest.
Proof.
  revert s. induction l as [|a l IH]; intros s; simpl.
  { by intros [= <-]. }
  destruct s as [|b s]; [done|].
  - destruct (Ascii.eqb a b) eqn:Hab; [|done].
    apply Ascii.eqb_eq in Hab as ->. intros Hs.
    by rewrite string_app_cons, (IH _ Hs).
Qed.

(** ** Substrings *)

Lemma prefix_app (l s : string) : String.prefix l (l +:+ s) = true.
Proof.
  induction l as [|a l IH]; [by destruct s|]. rewrite string_app_cons. simpl.
  by destruct (ascii_dec a a).
Qed.

Lemma prefix_Some (l s : string) :
  String.prefix l s = true → ∃ post, s = l +:+ post.
Proof.
  revert s. induction l as [|a l IH]; intros s; [by exists s|].
  destruct s as [|b s]; simpl; [done|].
  destruct (ascii_dec a b) as [->|]; [|done].
  intros [post ->]%IH. by exists post.
Qed.

(** [needle in s] is true exactly when [s] has [needle] as a substring. *)
Lemma contains_spec (needle s : string) :
  contains needle s = true ↔ ∃ pre post, s = pre +:+ needle +:+ post.
Proof.
  split.
  - induction s as [|c s IH]; cbn [contains].
    + rewrite orb_false_r. intros [post ->]%prefix_Some. by exists "", post.
    + intros [[post ->]%prefix_Some|(pre & post & ->)%IH]%orb_true_iff.
      * by exists "", post.
      * by exists (String c pre), post.
  - intros (pre & post & ->). induction pre as [|c pre IH].
    + rewrite string_app_nil_l. destruct (needle +:+ post) eqn:Heq;
        cbn [contains]; rewrite <- Heq, prefix_app; done.
    + rewrite string_app_cons. cbn [contains]. rewrite IH. apply orb_true_r.
Qed.

(** ** Runs of a class *)

Lemma span_app cls (s : string) : (span cls s).1 +:+ (span cls s).2 = s.
Proof.
  induction s as [|c s IH]; simpl; [done|].
  destruct (cls c); simpl; [by rewrite string_app_cons, IH|done].
Qed.

Lemma span_all cls (s : string) : all cls (span cls s).1 = true.
Proof.
  induction s as [|c s IH]; simpl; [done|].
  destruct (cls c) eqn:Hc; simpl; [by rewrite Hc|done].
Qed.

Lemma span_rest cls (s : string) : starts_outside cls (span cls s).2 = true.
Proof.
  induction s as [|c s IH]; simpl; [done|].
  destruct (cls c) eqn:Hc; simpl; [done|by rewrite Hc].
Qed.

(** A run followed by a text that starts outside the class is the span. *)
Lemma span_run cls (run rest : string) :
  all cls run = true → starts_outside cls rest = true →
  span cls (run +:+ rest) = (run, rest).
Proof.
  intros Hrun Hrest. induction run as [|c run IH]; simpl in *.
  - rewrite ?string_app_nil_l. destruct rest as [|c rest]; simpl in *; [done|].
    by destruct (cls c).
  - apply andb_true_iff in Hrun as [Hc Hrun]. rewrite ?string_app_cons. simpl.
    by rewrite Hc, (IH Hrun).
Qed.

(** ** The greedy repetition *)

(** When the rest of the pattern cannot start on a character of the class,
    only the longest run is left to it. *)
Lemma many_cut {X} cls min (s acc : string) n (k : string → string → option X) :
  (∀ acc' rest', starts_outside cls rest' = false → k acc' rest' = None) →
  many cls min s acc n k =
  stop_run min (span cls s).2 (acc +:+ (span cls s).1)
    (n + String.length (span cls s).1) k.
Proof.
  intros Hk. revert acc n.
  induction s as [|c s IH]; intros acc n; simpl.
  { by rewrite string_app_nil_r, Nat.add_0_r. }
  destruct (cls c) eqn:Hc; simpl.
  - rewrite IH, string_app_assoc, string_app_cons, string_app_nil_l, Nat.add_succ_r. simpl.
    destruct (stop_run _ _ _ _ _) eqn:Hlong; [done|].
    unfold stop_run. rewrite Hk by (simpl; by rewrite Hc).
    by case_bool_decide.
  - by rewrite string_app_nil_r, Nat.add_0_r.
Qed.

(** When the rest of the pattern matches whatever is left, the longest run
    is taken. *)
Lemma many_total {X} cls min (s acc : string) n
    (k : string → string → option X) :
  (∀ acc' rest', is_Some (k acc' rest')) →
  many cls min s acc n k =
  stop_run min (span cls s).2 (acc +:+ (span cls s).1)
    (n + String.length (span cls s).1) k.
Proof.
  intros Hk. revert acc n.
  induction s as [|c s IH]; intros acc n; simpl.
  { by rewrite string_app_nil_r, Nat.add_0_r. }
  destruct (cls c) eqn:Hc; simpl.
  - rewrite IH, string_app_assoc, string_app_cons, string_app_nil_l, Nat.add_succ_r. simpl.
    destruct (stop_run _ _ _ _ _) eqn:Hlong; [done|].
    unfold stop_run in *. case_bool_decide as Hmin.
    { destruct (Hk (acc +:+ String c (span cls s).1) (span cls s).2)
        as [? Hsome]. congruence. }
    rewrite bool_decide_eq_false_2 by lia. done.
  - by rewrite string_app_nil_r, Nat.add_0_r.
Qed.

(** ** Scanning *)

Lemma strip_prefix_None (l1 l2 s : string) :
  strip l1 s = None → strip (l1 +:+ l2) s = None.
Proof.
  revert s. induction l1 as [|a l1 IH]; intros s; [done|].
  rewrite string_app_cons. destruct s as [|b s]; simpl; [done|].
  destruct (Ascii.eqb a b); [apply IH|done].
Qed.

Lemma clash_strip (l u rest : string) :
  clash l u = true → strip l (u +:+ rest) = None.
Proof.
  revert u. induction l as [|a l IH]; intros [|b u]; try done.
  rewrite string_app_cons. simpl. destruct (Ascii.eqb a b); simpl; [apply IH|done].
Qed.

(** A pattern that starts with a literal matches nothing where the literal
    is not. *)
Lemma match_at_lit_None (l : string) (r : regex) (s : string) :
  strip l s = None → match_at (Seq (Lit l) r) s = None.
Proof. intros Hs. unfold match_at. cbn [exec]. by rewrite Hs. Qed.

(** The characters of a match are passed over. *)
Lemma scan_skip (r : regex) (a rest : string) :
  scan r (a +:+ rest) (String.length a) = scan r rest 0.
Proof. induction a as [|c a IH]; [done|]. rewrite string_app_cons. by simpl. Qed.

Lemma scan_match (r : regex) (c : ascii) (a rest : string)
    (groups : list string) :
  match_at r (String c a +:+ rest) = Some (String c a, groups) →
  scan r (String c a +:+ rest) 0 = (String c a, groups) :: scan r rest 0.
Proof.
  intros Hm. rewrite string_app_cons in *. cbn [scan]. rewrite Hm.
  cbn [fst String.length pred]. by rewrite scan_skip.
Qed.

(** A stretch of text in which no match starts is passed over. *)
Lemma scan_miss (r : regex) (g rest : string) :
  (∀ g1 c g2, g = g1 +:+ String c g2 →
              match_at r (String c g2 +:+ rest) = None) →
  scan r (g +:+ rest) 0 = scan r rest 0.
Proof.
  induction g as [|c g IH]; intros Hmiss; [done|].
  rewrite string_app_cons. cbn [scan].
  rewrite <- string_app_cons, (Hmiss "" c g) by done. apply IH.
  intros g1 c' g2 ->. by apply (Hmiss (String c g1)).
Qed.

Lemma clash_all_split (l w g1 g2 : string) (c : ascii) :
  clash_all l w = true → w = g1 +:+ String c g2 →
  clash l (String c g2) = true.
Proof.
  revert w. induction g1 as [|c1 g1 IH]; intros w Hw ->.
  - rewrite string_app_nil_l in Hw. cbn [clash_all] in Hw.
    by apply andb_true_iff in Hw as [? _].
  - rewrite string_app_cons in Hw. cbn [clash_all] in Hw.
    apply andb_true_iff in Hw as [_ Hw]. by apply (IH _ Hw).
Qed.

(** A word in which the first literal of the pattern starts nowhere is
    passed over. *)
Lemma scan_clash (l : string) (r : regex) (w rest : string) :
  clash_all l w = true →
  scan (Seq (Lit l) r) (w +:+ rest) 0 = scan (Seq (Lit l) r) rest 0.
Proof.
  intros Hw. apply scan_miss. intros g1 c g2 Hsplit.
  apply match_at_lit_None, clash_strip.
  by apply (clash_all_split l w g1 g2 c).
Qed.

(** ** What a match is made of *)

Lemma many_sound {X} cls min (s acc : string) n
    (k : string → string → option X) (x : X) :
  many cls min s acc n k = Some x →
  ∃ m rest, s = m +:+ rest ∧ all cls m = true ∧
            (min ≤ n + String.length m)%nat ∧ k (acc +:+ m) rest = Some x.
Proof.
  assert (∀ s acc n, stop_run min s acc n k = Some x →
    ∃ m rest, s = m +:+ rest ∧ all cls m = true ∧
              (min ≤ n + String.length m)%nat ∧ k (acc +:+ m) rest = Some x)
    as Hstop.
  { intros s0 acc0 n0. unfold stop_run. case_bool_decide; [|done].
    intros Hk. exists "", s0. rewrite string_app_nil_r. simpl.
    split_and!; [done|done|lia|done]. }
  revert acc n. induction s as [|c s IH]; intros acc n; cbn [many].
  { apply Hstop. }
  destruct (cls c) eqn:Hc; [|apply Hstop].
  destruct (many cls min s (acc +:+ String c "") (S n) k) as [x'|] eqn:Hm;
    [|apply Hstop].
  intros [= ->]. apply IH in Hm as (m & rest & -> & Hall & Hmin & Hk).
  exists (String c m), rest. rewrite string_app_cons. simpl. rewrite Hc.
  split_and!; [done|done|lia|].
  by rewrite string_app_assoc, string_app_cons, string_app_nil_l in Hk.
Qed.

Lemma exec_sound {X} (r : regex) (s : string) (groups : list string)
    (k : string → string → list string → option X) (x : X) :
  exec r s groups k = Some x →
  ∃ m rest groups', s = m +:+ rest ∧ matches r m groups groups' ∧
                    k m rest groups' = Some x.
Proof.
  revert s groups k.
  induction r as [|l|cls min|r1 IH1 r2 IH2|r1 IH1 r2 IH2|r1 IH1];
    intros s groups k; cbn [exec matches].
  - intros Hk. by exists "", s, groups.
  - destruct (strip l s) as [rest|] eqn:Hs; [|done].
    apply strip_Some in Hs as ->. intros Hk. by exists l, rest, groups.
  - intros (m & rest & -> & Hall & Hmin & Hk)%many_sound.
    rewrite string_app_nil_l in Hk. exists m, rest, groups.
    split_and!; try done; lia.
  - intros (m1 & rest1 & g1 & -> & H1 & Hk1)%IH1.
    apply IH2 in Hk1 as (m2 & rest2 & g2 & -> & H2 & Hk2).
    exists (m1 +:+ m2), rest2, g2. rewrite string_app_assoc.
    split_and!; try done. by exists m1, m2, g1.
  - destruct (exec r1 s groups k) as [x'|] eqn:H1.
    + intros [= ->]. apply IH1 in H1 as (m & rest & g & -> & H1 & Hk).
      exists m, rest, g. by auto.
    + intros (m & rest & g & -> & H2 & Hk)%IH2. exists m, rest, g. by auto.
  - intros (m & rest & g & -> & H1 & Hk)%IH1.
    exists m, rest, (g ++ [m]). split_and!; try done. by exists g.
Qed.

Lemma match_at_sound (r : regex) (s : string) (mt : string * list string) :
  match_at r s = Some mt →
  (∃ rest, s = mt.1 +:+ rest) ∧ matches r mt.1 [] mt.2.
Proof.
  unfold match_at. intros (m & rest & g & -> & Hm & [= <-])%exec_sound.
  split; [by exists rest|done].
Qed.

Lemma part_of_refl (s : string) : part_of s s.
Proof. exists "", "". by rewrite string_app_nil_l, string_app_nil_r. Qed.

Lemma part_of_trans (x y z : string) : part_of x y → part_of y z → part_of x z.
Proof.
  intros (p1 & q1 & ->) (p2 & q2 & ->). exists (p2 +:+ p1), (q1 +:+ q2).
  by rewrite !string_app_assoc.
Qed.

Lemma part_of_app_l (x a b : string) : part_of x a → part_of x (a +:+ b).
Proof.
  intros (p & q & ->). exists p, (q +:+ b). by rewrite !string_app_assoc.
Qed.

Lemma part_of_app_r (x a b : string) : part_of x b → part_of x (a +:+ b).
Proof.
  intros (p & q & ->). exists (a +:+ p), q. by rewrite !string_app_assoc.
Qed.

Lemma part_of_cons (x : string) (c : ascii) (s : string) :
  part_of x s → part_of x (String c s).
Proof. apply (part_of_app_r x (String c "") s). Qed.

(** The groups that a match closes are parts of its text. *)
Lemma matches_groups (r : regex) (m : string) (groups groups' : list string)
    (x : string) :
  matches r m groups groups' → x ∈ groups' → x ∈ groups ∨ part_of x m.
Proof.
  revert m groups groups'.
  induction r as [|l|cls min|r1 IH1 r2 IH2|r1 IH1 r2 IH2|r1 IH1];
    intros m groups groups'; cbn [matches].
  - intros [_ ->]. by left.
  - intros [_ ->]. by left.
  - intros (_ & _ & ->). by left.
  - intros (m1 & m2 & g1 & -> & H1 & H2) Hx.
    destruct (IH2 _ _ _ H2 Hx) as [Hx1|Hx2]; [|right; by apply part_of_app_r].
    destruct (IH1 _ _ _ H1 Hx1) as [?|?]; [by left|].
    right. by apply part_of_app_l.
  - intros [H1|H2] Hx; [by eapply IH1|by eapply IH2].
  - intros (g1 & H1 & ->) [Hx| ->%list_elem_of_singleton]%elem_of_app.
    + by eapply IH1.
    + right. apply part_of_refl.
Qed.

Lemma scan_sound (r : regex) (s : string) (skip : nat)
    (mt : string * list string) :
  mt ∈ scan r s skip → part_of mt.1 s ∧ matches r mt.1 [] mt.2.
Proof.
  revert skip. induction s as [|c s IH]; intros skip; cbn [scan].
  - destruct skip; [|by intros ?%elem_of_nil].
    destruct (match_at r "") as [m|] eqn:Hm; [|by intros ?%elem_of_nil].
    intros ->%list_elem_of_singleton.
    apply match_at_sound in Hm as [[rest Hrest] Hm]. split; [|done].
    exists "", rest. by rewrite string_app_nil_l.
  - assert (∀ skip', mt ∈ scan r s skip' →
              part_of mt.1 (String c s) ∧ matches r mt.1 [] mt.2) as Hrest.
    { intros skip' [Hp Hm]%IH. split; [by apply part_of_cons|done]. }
    destruct skip as [|skip]; [|apply Hrest].
    destruct (match_at r (String c s)) as [m|] eqn:Hm; [|apply Hrest].
    intros [->|Hin]%elem_of_cons; [|by eapply Hrest].
    apply match_at_sound in Hm as [[rest Hr] Hm]. split; [|done].
    exists "", rest. by rewrite string_app_nil_l.
Qed.

(** A match of [finditer]: its text and its groups are parts of the text
    scanned. *)
Lemma finditer_sound (r : regex) (content : string)
    (mt : string * list string) :
  mt ∈ finditer r content →
  matches r mt.1 [] mt.2 ∧ ∀ x, x ∈ mt.2 → part_of x content.
Proof.
  intros [Hp Hm]%scan_sound. split; [done|]. intros x Hx.
  destruct (matches_groups _ _ _ _ x Hm Hx) as [?%elem_of_nil|Hx']; [done|].
  by eapply part_of_trans.
Qed.

End ReProofs.

(** * Proofs for int and str *)

Module IntProofs.
Import Py Re Inspector ReProofs.

Lemma for_all_ascii (P : ascii → bool) :
  (∀ b0 b1 b2 b3 b4 b5 b6 b7, P (Ascii b0 b1 b2 b3 b4 b5 b6 b7) = true) →
  ∀ c, P c = true.
Proof. intros HP [b0 b1 b2 b3 b4 b5 b6 b7]. apply HP. Qed.

Ltac by_cases_of_ascii :=
  intros [[] [] [] [] [] [] [] []]; vm_compute; (reflexivity || discriminate ||
    (intros; (reflexivity || discriminate || congruence))).

Lemma is_digit_digit (c : ascii) : is_digit c = digit c.
Proof. reflexivity. Qed.

Lemma digit_plain (c : ascii) :
  digit c = true →
  is_blank c = false ∧ Ascii.eqb c "-" = false ∧ Ascii.eqb c "+" = false.
Proof.
  revert c. intros [[] [] [] [] [] [] [] []]; vm_compute; intros; try discriminate;
    split_and!; reflexivity.
Qed.

Lemma digit_of_spec (c : ascii) :
  digit_of c = if digit c then Some (digit_value c) else None.
Proof. revert c. intros [[] [] [] [] [] [] [] []]; vm_compute; reflexivity. Qed.

Lemma digit_value_range (c : ascii) : digit c = true → 0 ≤ digit_value c ≤ 9.
Proof.
  unfold digit, digit_value. cbv zeta.
  intros [H1%N.leb_le H2%N.leb_le]%andb_prop. lia.
Qed.

(** ** The value of a text of digits *)

Lemma decimal_from (acc : Z) (s : string) :
  foldl (λ acc c, 10 * acc + digit_value c) acc (list_ascii_of_string s)
  = acc * 10 ^ Z.of_nat (String.length s) + decimal s.
Proof.
  unfold decimal. revert acc. induction s as [|c s IH]; intros acc.
  { simpl. lia. }
  cbn [list_ascii_of_string foldl String.length].
  rewrite (IH (10 * acc + digit_value c)), (IH (10 * 0 + digit_value c)).
  rewrite Nat2Z.inj_succ, Z.pow_succ_r by lia. lia.
Qed.

Lemma decimal_cons (c : ascii) (s : string) :
  decimal (String c s)
  = digit_value c * 10 ^ Z.of_nat (String.length s) + decimal s.
Proof.
  unfold decimal at 1. cbn [list_ascii_of_string foldl].
  rewrite decimal_from. lia.
Qed.

Lemma decimal_bounds (s : string) :
  all digit s = true → 0 ≤ decimal s < 10 ^ Z.of_nat (String.length s).
Proof.
  induction s as [|c s IH]; [done|]. cbn [all].
  intros [Hc%digit_value_range Hs]%andb_prop. rewrite decimal_cons.
  specialize (IH Hs). cbn [String.length].
  rewrite Nat2Z.inj_succ, Z.pow_succ_r by lia. nia.
Qed.

Lemma pow_10_mono (a b : nat) : (a ≤ b)%nat → 10 ^ Z.of_nat a ≤ 10 ^ Z.of_nat b.
Proof. intros Hab. apply Z.pow_le_mono_r; lia. Qed.

(** ** The numerals of the specification *)

Lemma numeral_digits_of (s : string) :
  s ≠ "" → all digit s = true → numeral s = Some (decimal s).
Proof.
  induction s as [|c s IH]; [done|]. intros _. cbn [all numeral].
  intros [Hc Hs]%andb_prop. rewrite digit_of_spec, Hc. cbn [mbind option_bind].
  destruct s as [|c' s'].
  { f_equal; rewrite ?decimal_cons; simpl; unfold decimal; simpl; lia. }
  rewrite IH by done. cbn [mbind option_bind]. by rewrite (decimal_cons c).
Qed.

Lemma numeral_Some (s : string) (n : Z) :
  numeral s = Some n → s ≠ "" ∧ all digit s = true ∧ decimal s = n.
Proof.
  revert n. induction s as [|c s IH]; intros n; [done|]. cbn [numeral all].
  rewrite digit_of_spec. destruct (digit c) eqn:Hc; [|done].
  cbn [mbind option_bind]. destruct s as [|c' s'].
  { intros [= <-]. split_and!; [done|done|].
    rewrite ?decimal_cons; simpl; unfold decimal; simpl; lia. }
  destruct (numeral (String c' s')) as [v|] eqn:Hv; [|done].
  cbn [mbind option_bind]. intros [= <-].
  destruct (IH v eq_refl) as (_ & Hs & Hd).
  split_and!; [done|by rewrite Hs|]. by rewrite (decimal_cons c), Hd.
Qed.

Lemma numeral_is_Some (s : string) :
  is_Some (numeral s) ↔ s ≠ "" ∧ all digit s = true.
Proof.
  split.
  - intros [n (? & ? & _)%numeral_Some]. done.
  - intros [Hne Hs]. rewrite numeral_digits_of by done. by eexists.
Qed.

(** ** int on a text of digits *)

Lemma lstrip_digits (s : string) : all digit s = true → lstrip s = s.
Proof.
  destruct s as [|c s]; [done|]. cbn [all lstrip].
  intros [(-> & _)%digit_plain _]%andb_prop. done.
Qed.

Lemma rstrip_digits (s : string) : all digit s = true → rstrip s = s.
Proof.
  induction s as [|c s IH]; [done|]. cbn [all rstrip].
  intros [(-> & _)%digit_plain Hs]%andb_prop. rewrite IH by done.
  by destruct s.
Qed.

Lemma numeral_digits_all (s : string) (after_digit : bool) :
  all digit s = true → s ≠ "" ∨ after_digit = true →
  numeral_digits s after_digit = Some s.
Proof.
  revert after_digit. induction s as [|c s IH]; intros after_digit.
  { intros _ [?| ->]; done. }
  cbn [all numeral_digits]. intros [Hc Hs]%andb_prop _.
  rewrite is_digit_digit, Hc. rewrite IH; [done|done|by right].
Qed.

(** [int] on a text of digits, one at least: the number they write, unless
    there are more of them than the limit. *)
Lemma int_digits (s : string) :
  s ≠ "" → all digit s = true →
  int s = if bool_decide (max_str_digits < String.length s)%nat
          then Raise ValueError else Ok (decimal s).
Proof.
  intros Hne Hs. unfold int. rewrite lstrip_digits, rstrip_digits by done.
  destruct s as [|c s']; [done|].
  pose proof Hs as Hs'. cbn [all] in Hs'.
  apply andb_prop in Hs' as [(_ & -> & ->)%digit_plain _].
  rewrite numeral_digits_all; [done|done|by left].
Qed.

Lemma int_short (s : string) :
  s ≠ "" → all digit s = true → (String.length s ≤ max_str_digits)%nat →
  int s = Ok (decimal s).
Proof.
  intros Hne Hs Hlen. rewrite int_digits by done.
  by rewrite bool_decide_eq_false_2 by lia.
Qed.

Lemma int_long (s : string) :
  s ≠ "" → all digit s = true → (max_str_digits < String.length s)%nat →
  int s = Raise ValueError.
Proof.
  intros Hne Hs Hlen. rewrite int_digits by done.
  by rewrite bool_decide_eq_true_2 by lia.
Qed.

(** What [int] returns for a text of digits is a number of no more digits
    than the limit. *)
Lemma int_digits_Ok (s : string) (n : Z) :
  s ≠ "" → all digit s = true → int s = Ok n →
  0 ≤ n < 10 ^ Z.of_nat max_str_digits ∧ numeral s = Some n.
Proof.
  intros Hne Hs. rewrite int_digits by done. case_bool_decide as Hlen; [done|].
  intros [= <-]. pose proof (decimal_bounds s Hs) as Hb.
  pose proof (pow_10_mono (String.length s) max_str_digits) as Hp.
  split; [lia|]. by apply numeral_digits_of.
Qed.

Lemma int_digits_cases (s : string) :
  s ≠ "" → all digit s = true →
  (∃ n, int s = Ok n) ∨ int s = Raise ValueError.
Proof.
  intros Hne Hs. rewrite int_digits by done. case_bool_decide; eauto.
Qed.

(** ** str *)

Lemma str_int_Ok (z : Z) :
  Z.abs z < 10 ^ Z.of_nat max_str_digits → str_int z = Ok (pretty z).
Proof. intros Hz. unfold str_int. by rewrite bool_decide_eq_true_2. Qed.

Lemma str_int_cases (z : Z) :
  str_int z = Ok (pretty z) ∨ str_int z = Raise ValueError.
Proof. unfold str_int. case_bool_decide; eauto. Qed.

Lemma str_int_inv (z : Z) (s : string) :
  str_int z = Ok s → s = pretty z ∧ Z.abs z < 10 ^ Z.of_nat max_str_digits.
Proof. unfold str_int. case_bool_decide; [|done]. by intros [= <-]. Qed.

(** A float has room for fewer digits than the limit. *)
Lemma float_range_in_limit : 2 ^ 1023 < 10 ^ Z.of_nat max_str_digits.
Proof.
  apply Z.lt_le_trans with (10 ^ 1023).
  - apply Z.pow_lt_mono_l; lia.
  - apply Z.pow_le_mono_r; [lia|]. unfold max_str_digits. lia.
Qed.

(** ** Loops that make a list *)

Lemma map_result_Ok {A B} (f : A → result B) (g : A → B) (l : list A) :
  (∀ a, a ∈ l → f a = Ok (g a)) → map_result f l = Ok (g <$> l).
Proof.
  induction l as [|a l IH]; intros Hf; [done|]. cbn [map_result].
  rewrite (Hf a) by (by left). cbn [mbind result_bind].
  rewrite IH by (intros b Hb; apply Hf; by right). done.
Qed.

Lemma map_result_inv {A B} (f : A → result B) (l : list A) (bs : list B) :
  map_result f l = Ok bs → Forall2 (λ a b, f a = Ok b) l bs.
Proof.
  revert bs. induction l as [|a l IH]; intros bs; cbn [map_result].
  { intros [= <-]. constructor. }
  destruct (f a) as [b|] eqn:Ha; cbn [mbind result_bind]; [|done].
  destruct (map_result f l) as [bs'|]; cbn [mbind result_bind]; [|done].
  intros [= <-]. constructor; [done|by apply IH].
Qed.

Lemma map_result_Raise {A B} (f : A → result B) (e : exn) (l : list A) :
  (∀ a, a ∈ l → (∃ b, f a = Ok b) ∨ f a = Raise e) →
  (∃ a, a ∈ l ∧ f a = Raise e) → map_result f l = Raise e.
Proof.
  induction l as [|a l IH]; intros Hf (a0 & Ha0 & He).
  { by apply elem_of_nil in Ha0. }
  cbn [map_result]. destruct (Hf a) as [[b Hb]|Hb]; [by left| |by rewrite Hb].
  rewrite Hb. cbn [mbind result_bind]. rewrite IH; [done| |].
  - intros a' Ha'. apply Hf. by right.
  - apply elem_of_cons in Ha0 as [->|Ha0]; [congruence|by exists a0].
Qed.

Lemma map_result_cases {A B} (f : A → result B) (e : exn) (l : list A) :
  (∀ a, a ∈ l → (∃ b, f a = Ok b) ∨ f a = Raise e) →
  (∃ bs, map_result f l = Ok bs) ∨ map_result f l = Raise e.
Proof.
  induction l as [|a l IH]; intros Hf; [left; by eexists|].
  cbn [map_result]. destruct (Hf a) as [[b ->]| ->]; [by left| |by right].
  cbn [mbind result_bind].
  destruct IH as [[bs ->]| ->]; [intros a' Ha'; apply Hf; by right| |];
    cbn [mbind result_bind]; eauto.
Qed.

End IntProofs.

(** * Proofs for analyze-trace.py *)

Module TraceProofs.
Import Py Trace.

(** ** Stack reconstruction *)

(** One turn of the loop, by the three ways its condition and body go. *)
Lemma loop_falsy fuel nodes current visited stack :
  truthy current = false →
  get_full_stack_loop fuel nodes current visited stack = Some stack.
Proof.
  intros Hf. destruct fuel, current as [c|]; simpl in *; by rewrite ?Hf.
Qed.

Lemma loop_visited fuel nodes c visited stack :
  c ∈ visited →
  get_full_stack_loop fuel nodes (Some c) visited stack = Some stack.
Proof.
  intros Hv. destruct fuel; simpl.
  all: rewrite (bool_decide_eq_false_2 (c ∉ visited)) by (by intros []).
  all: by rewrite andb_false_r.
Qed.

Lemma loop_body fuel nodes c visited stack :
  c ≠ 0 → c ∉ visited →
  get_full_stack_loop (S fuel) nodes (Some c) visited stack =
  match nodes !! c with
  | Some nd =>
      get_full_stack_loop fuel nodes (parent nd) ({[c]} ∪ visited)
        (stack ++ [(c, functionName nd)])
  | None => Some stack
  end.
Proof.
  intros Hc Hv. simpl.
  by rewrite (bool_decide_eq_true_2 (c ≠ 0)), (bool_decide_eq_true_2 (c ∉ visited)).
Qed.

Lemma loop_no_fuel nodes c visited stack :
  c ≠ 0 → c ∉ visited →
  get_full_stack_loop 0 nodes (Some c) visited stack = None.
Proof.
  intros Hc Hv. simpl.
  by rewrite (bool_decide_eq_true_2 (c ≠ 0)), (bool_decide_eq_true_2 (c ∉ visited)).
Qed.

(** The three ways a turn can go. *)
Lemma turn_cases (current : option Z) (visited : gset Z) :
  truthy current = false ∨
  (∃ c, current = Some c ∧ c ∈ visited) ∨
  (∃ c, current = Some c ∧ c ≠ 0 ∧ c ∉ visited).
Proof.
  destruct current as [c|]; [|by left]. simpl.
  destruct (decide (c = 0)) as [->|Hc].
  { left. by rewrite bool_decide_eq_false_2 by (by intros []). }
  destruct (decide (c ∈ visited)); [right; left|right; right]; eauto.
Qed.

Lemma loop_walk fuel nodes current visited stack res :
  get_full_stack_loop fuel nodes current visited stack = Some res →
  ∃ ext, res = stack ++ ext ∧ walk nodes current visited ext.
Proof.
  revert current visited stack.
  induction fuel as [|fuel IH]; intros current visited stack.
  all: destruct (turn_cases current visited)
         as [Hf|[(c & -> & Hv)|(c & -> & Hc & Hv)]].
  all: rewrite ?loop_falsy, ?loop_visited, ?loop_no_fuel, ?loop_body by done.
  all: try (intros [= <-]; exists []; rewrite app_nil_r; split; [done|]).
  all: try (by apply walk_falsy); try (by apply walk_visited); try done.
  destruct (nodes !! c) as [nd|] eqn:Hnd.
  - intros Hloop. apply IH in Hloop as (ext & -> & Hw).
    exists ((c, functionName nd) :: ext). rewrite <- app_assoc.
    split; [done|]. by apply walk_push.
  - intros [= <-]. exists []. rewrite app_nil_r. split; [done|].
    by apply walk_missing.
Qed.

(** The loop ends within the fuel: every turn that goes on visits a node of
    the table that was not visited before. *)
Lemma loop_fuel fuel nodes current visited stack :
  (size (dom nodes ∖ visited) < fuel)%nat →
  is_Some (get_full_stack_loop fuel nodes current visited stack).
Proof.
  revert current visited stack.
  induction fuel as [|fuel IH]; intros current visited stack Hlt; [lia|].
  destruct (turn_cases current visited)
    as [Hf|[(c & -> & Hv)|(c & -> & Hc & Hv)]].
  all: rewrite ?loop_falsy, ?loop_visited, ?loop_body by done; try done.
  destruct (nodes !! c) as [nd|] eqn:Hnd; [|done].
  apply IH.
  assert (dom nodes ∖ ({[c]} ∪ visited) ⊂ dom nodes ∖ visited) as Hsub.
  { assert (c ∈ dom nodes) by (apply elem_of_dom; eauto).
    split; [set_solver|]. intros Hsub. specialize (Hsub c). set_solver. }
  apply subset_size in Hsub. lia.
Qed.

(** More fuel does not change the outcome. *)
Lemma loop_more_fuel fuel fuel' nodes current visited stack res :
  (fuel ≤ fuel')%nat →
  get_full_stack_loop fuel nodes current visited stack = Some res →
  get_full_stack_loop fuel' nodes current visited stack = Some res.
Proof.
  revert fuel' current visited stack.
  induction fuel as [|fuel IH]; intros fuel' current visited stack Hle.
  all: destruct (turn_cases current visited)
         as [Hf|[(c & -> & Hv)|(c & -> & Hc & Hv)]].
  all: rewrite ?loop_falsy, ?loop_visited, ?loop_no_fuel by done; try done.
  destruct fuel' as [|fuel']; [lia|]. rewrite !loop_body by done.
  destruct (nodes !! c); [|done]. apply IH. lia.
Qed.

(** What the walk relation says of the frames pushed. *)
Lemma walk_chain nodes current visited ext :
  walk nodes current visited ext → chain nodes current ext.
Proof. induction 1; simpl; eauto. Qed.

Lemma walk_ids nodes current visited ext :
  walk nodes current visited ext →
  NoDup ext.*1 ∧ ∀ c, c ∈ ext.*1 → c ∈ dom nodes ∧ c ∉ visited.
Proof.
  induction 1 as [| | |c nd visited ext Hc Hv Hnd Hw [IHnd IHin]]; simpl.
  1-3: split; [constructor|set_solver].
  split.
  - constructor; [|done]. intros Hin. apply IHin in Hin. set_solver.
  - intros c' [->|Hin]%elem_of_cons.
    + split; [apply elem_of_dom; eauto|done].
    + apply IHin in Hin. set_solver.
Qed.

Lemma walk_stop nodes current visited ext :
  walk nodes current visited ext →
  let cur := walk_end nodes current ext in
  truthy cur = false ∨
  ∃ c, cur = Some c ∧ (nodes !! c = None ∨ c ∈ visited ∨ c ∈ ext.*1).
Proof.
  induction 1 as [| | |c nd visited ext Hc Hv Hnd Hw IH]; simpl in *.
  - by left.
  - right. eauto.
  - right. eauto.
  - rewrite Hnd. simpl. destruct IH as [IH|(c' & Hc' & IH)]; [by left|].
    right. exists c'. split; [done|]. set_solver.
Qed.

Lemma walk_end_stopped_on nodes node_id ext :
  walk_end nodes (Some node_id) ext = stopped_on nodes node_id ext.
Proof.
  unfold stopped_on. generalize (Some node_id) as cur.
  induction ext as [|[c name] ext IH]; intros cur; simpl; [done|].
  rewrite IH, last_cons. by destruct (last ext) as [[]|].
Qed.

(** The outcome of the loop from the initial state. *)
Lemma get_full_stack_walk nodes node_id :
  ∃ stack,
    (∀ fuel, (size nodes < fuel)%nat →
       get_full_stack_loop fuel nodes (Some node_id) ∅ [] = Some stack) ∧
    get_full_stack nodes node_id = stack ∧
    walk nodes (Some node_id) ∅ stack.
Proof.
  assert (size (dom nodes ∖ (∅ : gset Z)) ≤ size nodes)%nat as Hsz.
  { rewrite <- size_dom. apply subseteq_size. set_solver. }
  destruct (loop_fuel (S (size nodes)) nodes (Some node_id) ∅ [])
    as [stack Hstack]; [lia|].
  exists stack. split; [|split].
  - intros fuel Hfuel.
    destruct (loop_fuel fuel nodes (Some node_id) ∅ []) as [stack' Hstack'];
      [lia|].
    destruct (Nat.le_ge_cases fuel (S (size nodes))) as [Hle|Hle].
    + pose proof (loop_more_fuel _ _ _ _ _ _ _ Hle Hstack'). congruence.
    + by apply (loop_more_fuel _ _ _ _ _ _ _ Hle) in Hstack.
  - unfold get_full_stack. by rewrite Hstack.
  - by apply loop_walk in Hstack as (ext & -> & Hw).
Qed.

Lemma ids_bounded (nodes : gmap Z node) (ids : list Z) :
  NoDup ids → (∀ c, c ∈ ids → c ∈ dom nodes) → (length ids ≤ size nodes)%nat.
Proof.
  intros Hnd Hin. rewrite <- size_dom.
  rewrite <- (size_list_to_set (C := gset Z) ids) by done.
  apply subseteq_size. intros c Hc. apply Hin. set_solver.
Qed.

Lemma walk_nonzero nodes current visited ext :
  walk nodes current visited ext → 0 ∉ ext.*1.
Proof.
  induction 1 as [| | |c nd visited ext Hc Hv Hnd Hw IH]; simpl;
    [by intros ?%elem_of_nil..|].
  intros [?|?]%elem_of_cons; [congruence|done].
Qed.

(** Two stacks that follow the parent links from one id: they are equal, or
    one goes on where the other ends. *)
Lemma chain_compare nodes cur (s1 s2 : list frame) :
  chain nodes cur s1 → chain nodes cur s2 →
  s1 = s2 ∨ (∃ fr rest, s2 = s1 ++ fr :: rest) ∨
  (∃ fr rest, s1 = s2 ++ fr :: rest).
Proof.
  revert cur s2. induction s1 as [|[c1 n1] s1 IH]; intros cur [|[c2 n2] s2].
  - by left.
  - right. left. by eexists _, _.
  - right. right. by eexists _, _.
  - simpl. intros [-> (nd1 & Hnd1 & -> & H1)] [[= ->] (nd2 & Hnd2 & -> & H2)].
    rewrite Hnd1 in Hnd2. injection Hnd2 as <-.
    destruct (IH _ _ H1 H2) as [->|[(fr & rest & ->)|(fr & rest & ->)]].
    + by left.
    + right. left. by exists fr, rest.
    + right. right. by exists fr, rest.
Qed.

(** A stack that goes on after [s]: its next frame is for the id at which
    the walk along [s] stands, which is a node of the table, is not [0] and
    is not on [s], when no id is [0] and none comes twice. *)
Lemma chain_goes_on nodes cur (s : list frame) (fr : frame)
    (rest : list frame) :
  chain nodes cur (s ++ fr :: rest) →
  NoDup (s ++ fr :: rest).*1 → 0 ∉ (s ++ fr :: rest).*1 →
  walk_end nodes cur s = Some fr.1 ∧ is_Some (nodes !! fr.1) ∧
  fr.1 ≠ 0 ∧ fr.1 ∉ s.*1.
Proof.
  revert cur. induction s as [|[c n] s IH]; intros cur; simpl.
  - destruct fr as [c n]. intros [-> (nd & Hnd & _)] _ Hzero. simpl.
    split_and!; [done|by eexists| |by intros ?%elem_of_nil].
    intros ->. apply Hzero. by left.
  - intros [-> (nd & Hnd & -> & Hchain)] Hnd' Hzero.
    apply NoDup_cons in Hnd' as [Hc Hnd'].
    destruct (IH _ Hchain Hnd') as (Hend & Hsome & Hne & Hnin).
    { intros Hin. apply Hzero. by right. }
    rewrite Hnd. simpl. split_and!; [done|done|done|].
    intros [Heq|?]%elem_of_cons; [|done]. apply Hc.
    rewrite fmap_app, fmap_cons, Heq. apply elem_of_app. right. by left.
Qed.

(** What the specification says of the stack: it follows the parent links
    from the starting id, has no id twice and no frame for the id [0], and
    ends where the next id is [None] or [0], is missing from the table or
    is already on the stack. *)
Definition stack_as_specified (nodes : gmap Z node) (node_id : Z)
    (stack : list frame) : Prop :=
  chain nodes (Some node_id) stack ∧ NoDup stack.*1 ∧ (0 ∉ stack.*1) ∧
  stop_reason_falsy nodes stack (stopped_on nodes node_id stack).

Lemma stack_as_specified_unique nodes node_id (s1 s2 : list frame) :
  stack_as_specified nodes node_id s1 → stack_as_specified nodes node_id s2 →
  s1 = s2.
Proof.
  assert (∀ s fr rest,
    stack_as_specified nodes node_id s →
    stack_as_specified nodes node_id (s ++ fr :: rest) → False) as Hshort.
  { intros s fr rest (_ & _ & _ & Hstop) (Hchain & Hnd & Hzero & _).
    destruct (chain_goes_on _ _ _ _ _ Hchain Hnd Hzero)
      as (Hend & [nd Hsome] & Hne & Hnin).
    rewrite walk_end_stopped_on in Hend. rewrite Hend in Hstop.
    destruct Hstop as [Hfalsy|(c & [= <-] & [Hnone|Hin])].
    - simpl in Hfalsy. by apply bool_decide_eq_false in Hfalsy.
    - congruence.
    - done. }
  intros H1 H2.
  destruct (chain_compare nodes (Some node_id) s1 s2)
    as [->|[(fr & rest & ->)|(fr & rest & ->)]];
    [apply H1|apply H2|done| |]; exfalso.
  - by apply (Hshort s1 fr rest).
  - by apply (Hshort s2 fr rest).
Qed.

(** C2 (as amended): for every node table, cyclic or not, and every starting
    id, the loop of [get_full_stack] ends within [size nodes + 1] turns of its
    body and returns a stack that is at most as long as the table has node
    ids, repeats no node id, follows the parent links from the starting id
    and has no frame for the id [0]; the id at which it stopped is [None] or
    [0], or is missing from the table, or is already on the stack; and it is
    the one stack of which all this is true, so that the walk stops at the
    first such id. *)
Theorem get_full_stack_terminates_bounded (nodes : gmap Z node) (node_id : Z) :
  ∃ stack,
    (∀ fuel, (size nodes < fuel)%nat →
       get_full_stack_loop fuel nodes (Some node_id) ∅ [] = Some stack) ∧
    get_full_stack nodes node_id = stack ∧
    (length stack ≤ size nodes)%nat ∧
    NoDup stack.*1 ∧
    chain nodes (Some node_id) stack ∧
    (0 ∉ stack.*1) ∧
    stop_reason_falsy nodes stack (stopped_on nodes node_id stack) ∧
    (∀ stack', stack_as_specified nodes node_id stack' → stack' = stack).
Proof.
  destruct (get_full_stack_walk nodes node_id) as (stack & Hfuel & Hget & Hw).
  exists stack. destruct (walk_ids _ _ _ _ Hw) as [Hnd Hin].
  assert (stop_reason_falsy nodes stack (stopped_on nodes node_id stack))
    as Hstop.
  { pose proof (walk_stop _ _ _ _ Hw) as Hs. rewrite walk_end_stopped_on in Hs.
    destruct Hs as [Hs|(c & Hc & Hs)]; [by left|].
    right. exists c. split; [done|]. set_solver. }
  split_and!; try done.
  - rewrite <- (length_fmap fst stack). apply ids_bounded; [done|]. naive_solver.
  - by apply walk_chain in Hw.
  - by apply walk_nonzero in Hw.
  - intros stack' Hspec. apply (stack_as_specified_unique nodes node_id);
      [done|].
    split_and!; [by apply walk_chain in Hw|done|by apply walk_nonzero in Hw|
                 done].
Qed.

(** C2, the claim as stated fails: in [zero_root_table] the walk from node
    [1] stops on the parent id [0], which is not [None], is a node of the
    table and is not on the stack. *)
Lemma get_full_stack_stops_on_zero_parent :
  get_full_stack zero_root_table 1 = [(1, "f")] ∧
  stopped_on zero_root_table 1 (get_full_stack zero_root_table 1) = Some 0 ∧
  is_Some (zero_root_table !! 0) ∧
  ¬ stop_reason zero_root_table (get_full_stack zero_root_table 1)
      (stopped_on zero_root_table 1 (get_full_stack zero_root_table 1)).
Proof.
  assert (get_full_stack zero_root_table 1 = [(1, "f")]) as -> by by vm_compute.
  assert (stopped_on zero_root_table 1 [(1, "f")] = Some 0) as ->
    by by vm_compute.
  split_and!; [done|done|eexists; vm_compute; reflexivity|].
  intros [[=]|(c & [= <-] & [Hc|Hc])].
  - by vm_compute in Hc.
  - simpl in Hc. set_solver.
Qed.

(** A cyclic table: the walk from [2] ends when it meets [2] again. *)
Example get_full_stack_cyclic :
  get_full_stack cyclic_table 2 = [(2, "b"); (3, "c"); (1, "a")].
Proof. by vm_compute. Qed.

(** ** The id 0 *)

(** C10: from the id [0] the loop pushes no frame, whether or not the table
    has a node [0], so the aggregator passes over a sample whose id is [0]
    ([analyze_sample] returns the aggregates it was given), and a run is the
    run over the samples whose id is not [0], each at its own index. *)
Theorem get_full_stack_zero_id (nodes : gmap Z node) :
  get_full_stack nodes 0 = [] ∧
  (∀ time_deltas i a, analyze_sample nodes time_deltas i 0 a = a) ∧
  (∀ samples time_deltas,
     analyze_samples nodes samples time_deltas =
     foldl (λ a p, analyze_sample nodes time_deltas p.1 p.2 a) empty_analysis
       (filter (λ p, p.2 ≠ 0) (enumerate_from 0 samples))).
Proof.
  assert (get_full_stack nodes 0 = []) as Hzero.
  { unfold get_full_stack. by rewrite loop_falsy. }
  assert (∀ time_deltas i a, analyze_sample nodes time_deltas i 0 a = a)
    as Hskip.
  { intros. unfold analyze_sample. by rewrite Hzero. }
  split_and!; [done|done|].
  intros samples time_deltas. unfold analyze_samples.
  generalize empty_analysis as a. generalize 0%nat as i.
  induction samples as [|node_id samples IH]; intros i a; simpl; [done|].
  rewrite IH. destruct (decide (node_id = 0)) as [->|Hne].
  - rewrite filter_cons_False by (simpl; tauto). by rewrite Hskip.
  - by rewrite filter_cons_True.
Qed.

(** The table may well have a node [0]. *)
Example get_full_stack_zero_root :
  is_Some (zero_root_table !! 0) ∧ get_full_stack zero_root_table 0 = [].
Proof. split; [eexists; vm_compute; reflexivity|by vm_compute]. Qed.

(** ** The aggregator *)

Lemma getd_incr (m : gmap string Z) k v k' :
  getd (incr k v m) k' = getd m k' + (if bool_decide (k = k') then v else 0).
Proof.
  unfold incr, getd. case_bool_decide as Hk.
  - subst. by rewrite lookup_insert_eq.
  - rewrite lookup_insert_ne by done. lia.
Qed.

(** The inner loop leaves the self metrics alone. *)
Lemma walk_stack_self delta stack seen a :
  self_samples (walk_stack delta stack seen a) = self_samples a ∧
  self_time (walk_stack delta stack seen a) = self_time a.
Proof.
  revert seen a.
  induction stack as [|[nid name] rest IH]; intros seen a; simpl; [done|].
  destruct (IH ({[name]} ∪ seen)
              (count_edge name rest (count_total delta name seen a)))
    as [-> ->].
  unfold count_edge, count_total.
  by destruct rest as [|[? ?] ?], (bool_decide (name ∉ seen)).
Qed.

(** The inner loop adds to the total metrics of a name once, when the name
    is on the stack and was not seen before. *)
Lemma walk_stack_total delta stack seen a name :
  getd (total_time (walk_stack delta stack seen a)) name =
    getd (total_time a) name +
    (if bool_decide (name ∈ stack.*2 ∧ name ∉ seen) then delta else 0) ∧
  getd (total_samples (walk_stack delta stack seen a)) name =
    getd (total_samples a) name +
    (if bool_decide (name ∈ stack.*2 ∧ name ∉ seen) then 1 else 0).
Proof.
  revert seen a.
  induction stack as [|[nid nm] rest IH]; intros seen a;
    cbn [walk_stack]; rewrite ?fmap_nil, ?fmap_cons; cbn [snd].
  { rewrite bool_decide_eq_false_2 by set_solver. lia. }
  destruct (IH ({[nm]} ∪ seen)
              (count_edge nm rest (count_total delta nm seen a)))
    as [-> ->].
  assert (total_time (count_edge nm rest (count_total delta nm seen a)) =
          total_time (count_total delta nm seen a)) as ->
    by by destruct rest as [|[? ?] ?].
  assert (total_samples (count_edge nm rest (count_total delta nm seen a)) =
          total_samples (count_total delta nm seen a)) as ->
    by by destruct rest as [|[? ?] ?].
  unfold count_total.
  destruct (decide (nm ∈ seen)) as [Hseen|Hseen].
  - rewrite (bool_decide_eq_false_2 (nm ∉ seen)) by tauto.
    destruct (decide (name ∈ rest.*2 ∧ name ∉ seen)) as [Hin|Hin].
    + rewrite !bool_decide_eq_true_2 by set_solver. lia.
    + rewrite !bool_decide_eq_false_2 by set_solver. lia.
  - rewrite (bool_decide_eq_true_2 (nm ∉ seen)) by done.
    cbn [total_time total_samples]. rewrite !getd_incr.
    destruct (decide (nm = name)) as [->|Hne].
    + rewrite (bool_decide_eq_true_2 (name = name)) by done.
      rewrite (bool_decide_eq_false_2 (_ ∧ name ∉ {[name]} ∪ seen))
        by set_solver.
      rewrite bool_decide_eq_true_2 by set_solver. lia.
    + rewrite (bool_decide_eq_false_2 (nm = name)) by done.
      destruct (decide (name ∈ rest.*2 ∧ name ∉ seen)) as [Hin|Hin].
      * rewrite !bool_decide_eq_true_2 by set_solver. lia.
      * rewrite !bool_decide_eq_false_2 by set_solver. lia.
Qed.

(** What one sample does to the four maps. *)
Lemma analyze_sample_effect nodes time_deltas i node_id a name :
  let stack := get_full_stack nodes node_id in
  let delta := default 0 (time_deltas !! i) in
  let a' := analyze_sample nodes time_deltas i node_id a in
  let on_stack := bool_decide (name ∈ stack.*2) in
  let is_leaf := bool_decide (head stack.*2 = Some name) in
  getd (total_time a') name =
    getd (total_time a) name + (if on_stack then delta else 0) ∧
  getd (total_samples a') name =
    getd (total_samples a) name + (if on_stack then 1 else 0) ∧
  getd (self_time a') name =
    getd (self_time a) name + (if is_leaf then delta else 0) ∧
  getd (self_samples a') name =
    getd (self_samples a) name + (if is_leaf then 1 else 0).
Proof.
  cbv zeta. unfold analyze_sample.
  destruct (get_full_stack nodes node_id) as [|[leaf_id leaf_name] rest].
  { rewrite (bool_decide_eq_false_2 (name ∈ _)) by set_solver.
    rewrite (bool_decide_eq_false_2 (head _ = _)) by done. lia. }
  set (stack := (leaf_id, leaf_name) :: rest).
  set (delta := default 0 (time_deltas !! i)).
  set (a1 := Analysis _ _ _ _ _).
  destruct (walk_stack_self delta stack ∅ a1) as [-> ->].
  destruct (walk_stack_total delta stack ∅ a1 name) as [-> ->].
  subst a1. cbn [self_samples self_time total_time total_samples].
  rewrite !getd_incr.
  rewrite (bool_decide_ext (name ∈ stack.*2 ∧ name ∉ (∅ : gset string))
             (name ∈ stack.*2)) by set_solver.
  rewrite (bool_decide_ext (head stack.*2 = Some name) (leaf_name = name))
    by (subst stack; cbn; naive_solver).
  split_and!; lia.
Qed.

(** C3: one sample adds its time delta to the total time, and 1 to the total
    sample count, of every function name on its stack, once per name however
    many frames carry the name, and leaves the totals of every other name as
    they were.  (For an empty stack no name is on the stack.) *)
Theorem analyze_sample_total_once (nodes : gmap Z node)
    (time_deltas : list Z) (i : nat) (node_id : Z) (a : analysis)
    (name : string) :
  let stack := get_full_stack nodes node_id in
  let delta := default 0 (time_deltas !! i) in
  let a' := analyze_sample nodes time_deltas i node_id a in
  getd (total_time a') name =
    getd (total_time a) name +
    (if bool_decide (name ∈ stack.*2) then delta else 0) ∧
  getd (total_samples a') name =
    getd (total_samples a) name +
    (if bool_decide (name ∈ stack.*2) then 1 else 0).
Proof.
  cbv zeta.
  destruct (analyze_sample_effect nodes time_deltas i node_id a name)
    as (Ht & Hs & _).
  done.
Qed.

(** Three frames of [fib] above [main]: one sample of 7 microseconds counts
    7 and 1 for [fib], not 21 and 3. *)
Example analyze_samples_recursion :
  let a := analyze_samples recursive_table [4] [7] in
  get_full_stack recursive_table 4
    = [(4, "fib"); (3, "fib"); (2, "fib"); (1, "main")] ∧
  total_time a !! "fib" = Some 7 ∧ total_samples a !! "fib" = Some 1 ∧
  total_time a !! "main" = Some 7 ∧ self_time a !! "fib" = Some 7 ∧
  call_tree a !! "fib" ≫= (.!! "fib") = Some 2 ∧
  call_tree a !! "main" ≫= (.!! "fib") = Some 1.
Proof. cbv zeta. split_and!; vm_compute; reflexivity. Qed.

(** The leaf of a stack is on the stack. *)
Lemma leaf_on_stack (stack : list (Z * string)) (name : string) :
  head stack.*2 = Some name → name ∈ stack.*2.
Proof. destruct stack as [|[? ?] ?]; [done|]. cbn. set_solver. Qed.

(** The aggregates of a run, by induction over the samples. *)
Lemma analyze_from_self_le_total nodes time_deltas i samples a name :
  getd (self_samples a) name ≤ getd (total_samples a) name →
  getd (self_samples (analyze_from nodes time_deltas i samples a)) name
  ≤ getd (total_samples (analyze_from nodes time_deltas i samples a)) name.
Proof.
  revert i a. induction samples as [|node_id samples IH]; intros i a Ha; simpl;
    [done|].
  apply IH.
  destruct (analyze_sample_effect nodes time_deltas i node_id a name)
    as (_ & -> & _ & ->).
  pose proof (leaf_on_stack (get_full_stack nodes node_id) name).
  repeat case_bool_decide; naive_solver lia.
Qed.

Lemma analyze_from_self_time_le_total nodes time_deltas i samples a name :
  Forall (λ d, 0 ≤ d) time_deltas →
  getd (self_time a) name ≤ getd (total_time a) name →
  getd (self_time (analyze_from nodes time_deltas i samples a)) name
  ≤ getd (total_time (analyze_from nodes time_deltas i samples a)) name.
Proof.
  intros Hpos. revert i a.
  induction samples as [|node_id samples IH]; intros i a Ha; simpl; [done|].
  apply IH.
  destruct (analyze_sample_effect nodes time_deltas i node_id a name)
    as (-> & _ & -> & _).
  assert (0 ≤ default 0 (time_deltas !! i)) as Hd.
  { destruct (time_deltas !! i) as [d|] eqn:Hi; simpl; [|done].
    by apply (Forall_lookup_1 _ _ _ _ Hpos Hi). }
  pose proof (leaf_on_stack (get_full_stack nodes node_id) name).
  repeat case_bool_decide; naive_solver lia.
Qed.

(** C1 (as amended): in the result of [analyze_samples] the total sample
    count of a name is at least its self sample count, for every input; and
    its total time is at least its self time when no time delta is
    negative. *)
Theorem analyze_samples_total_ge_self (nodes : gmap Z node)
    (samples time_deltas : list Z) (name : string) :
  let a := analyze_samples nodes samples time_deltas in
  getd (self_samples a) name ≤ getd (total_samples a) name ∧
  (Forall (λ d, 0 ≤ d) time_deltas →
   getd (self_time a) name ≤ getd (total_time a) name).
Proof.
  cbv zeta. unfold analyze_samples. split.
  - by apply analyze_from_self_le_total.
  - intros Hpos. by apply analyze_from_self_time_le_total.
Qed.

(** Two samples of one leaf with the deltas 100 and 200. *)
Lemma analyze_samples_total_ge_self_witness :
  let a := analyze_samples nested_table [2; 2] [100; 200] in
  Forall (λ d, 0 ≤ d) [100; 200] ∧
  getd (self_time a) "inner" = 300 ∧
  getd (self_time a) "inner" ≤ getd (total_time a) "inner".
Proof.
  assert (Forall (λ d, 0 ≤ d) [100; 200]) as Hpos
    by (repeat constructor; lia).
  split_and!; [done|by vm_compute|].
  by apply (analyze_samples_total_ge_self nested_table [2; 2] [100; 200]).
Defined.

(** C1, the claim as stated fails: a sample of [outer] worth 5 and a sample
    of [inner] (called from [outer]) worth -3 leave [outer] with the self
    time 5 and the total time 2. *)
Lemma analyze_samples_negative_delta :
  let a := analyze_samples nested_table [1; 2] [5; -3] in
  getd (self_time a) "outer" = 5 ∧ getd (total_time a) "outer" = 2 ∧
  ¬ getd (self_time a) "outer" ≤ getd (total_time a) "outer".
Proof. by vm_compute. Qed.

(** ** The bottleneck classifier *)

(** The [if]/[elif] chain is the search for the first match in [patterns]. *)
Lemma category_of_first_match name :
  category_of name = first_match patterns name.
Proof.
  unfold category_of, patterns, first_match.
  repeat (match goal with |- context [if ?b then _ else _] => destruct b end;
          try done).
Qed.

Lemma elem_of_append_to c e (m : gmap string (list entry)) c' e' :
  e' ∈ default [] (append_to c e m !! c') ↔
  e' ∈ default [] (m !! c') ∨ (c = c' ∧ e = e').
Proof.
  unfold append_to. destruct (decide (c = c')) as [->|Hne].
  - rewrite lookup_insert_eq. simpl. rewrite elem_of_app, list_elem_of_singleton.
    naive_solver.
  - rewrite lookup_insert_ne by done. naive_solver.
Qed.

Lemma classify_filed self_time total_time_us categories item categories' :
  classify self_time total_time_us categories item = Ok categories' →
  ∀ c e, e ∈ default [] (categories' !! c) ↔
         e ∈ default [] (categories !! c) ∨
         filed self_time total_time_us item c e.
Proof.
  destruct item as [name t]. unfold classify, filed. cbn [fst snd].
  destruct (share t total_time_us) as [pct|] eqn:Hpct; [|done].
  cbn [mbind result_bind].
  destruct (share (getd self_time name) total_time_us) as [self_pct|]
    eqn:Hself; [|done].
  cbn [mbind result_bind].
  destruct (lt_half pct) eqn:Hlt.
  { intros [= <-] c e. split; [by left|].
    intros [?|(? & ? & [= <-] & _ & ? & _)]; [done|congruence]. }
  destruct (category_of name) as [c0|] eqn:Hcat.
  - intros [= <-] c e. rewrite elem_of_append_to. split.
    + intros [?|[<- <-]]; [by left|]. right. by exists pct, self_pct.
    + intros [?|(? & ? & [= <-] & [= <-] & _ & [= <-] & ->)];
        [by left|by right].
  - intros [= <-] c e. split; [by left|].
    intros [?|(? & ? & _ & _ & _ & ? & _)]; [done|congruence].
Qed.

Lemma for_each_classify_filed self_time total_time_us items categories
    categories' :
  for_each (classify self_time total_time_us) items categories
    = Ok categories' →
  ∀ c e, e ∈ default [] (categories' !! c) ↔
         e ∈ default [] (categories !! c) ∨
         ∃ item, item ∈ items ∧ filed self_time total_time_us item c e.
Proof.
  revert categories.
  induction items as [|item items IH]; intros categories; simpl.
  { intros [= <-] c e. set_solver. }
  destruct (classify self_time total_time_us categories item)
    as [categories1|] eqn:Hstep; [|done]. simpl.
  intros Hrest c e. rewrite (IH _ Hrest c e).
  rewrite (classify_filed _ _ _ _ _ Hstep c e). set_solver.
Qed.

(** What the loop files under a category, in terms of the map. *)
Lemma in_category_iff total_time self_time total_time_us categories c name :
  bottleneck_categories total_time self_time total_time_us = Ok categories →
  in_category categories c name ↔
  ∃ t pct, total_time !! name = Some t ∧ share t total_time_us = Ok pct ∧
           lt_half pct = false ∧ category_of name = Some c.
Proof.
  intros Hrun. unfold in_category. split.
  - intros (t & pct & self_pct & Hin).
    apply (for_each_classify_filed _ _ _ _ _ Hrun) in Hin
      as [Hin|([name' t'] & Hitem & pct' & self_pct' & Hp & Hs & Hlt & Hc & He)].
    { rewrite lookup_empty in Hin. set_solver. }
    simpl in *. injection He as -> -> -> ->.
    exists t', pct'. by apply elem_of_map_to_list in Hitem.
  - intros (t & pct & Ht & Hp & Hlt & Hc).
    destruct (share (getd self_time name) total_time_us) as [self_pct|e]
      eqn:Hself.
    + exists t, pct, self_pct.
      apply (for_each_classify_filed _ _ _ _ _ Hrun). right.
      exists (name, t). split; [by apply elem_of_map_to_list|].
      exists pct, self_pct. by simpl.
    + exfalso. apply elem_of_map_to_list in Ht.
      revert Hrun. unfold bottleneck_categories.
      generalize (∅ : gmap string (list entry)) as cats0.
      induction (map_to_list total_time) as [|item items IH]; intros cats0;
        [set_solver|].
      simpl. apply elem_of_cons in Ht as [<-|Ht].
      * unfold classify. rewrite Hp. simpl. by rewrite Hself.
      * destruct (classify self_time total_time_us cats0 item); [|done].
        simpl. by apply IH.
Qed.

Lemma in_category_first_match total_time self_time total_time_us categories
    c name :
  bottleneck_categories total_time self_time total_time_us = Ok categories →
  in_category categories c name ↔
  ∃ t pct, total_time !! name = Some t ∧ share t total_time_us = Ok pct ∧
           lt_half pct = false ∧ first_match patterns name = Some c.
Proof.
  intros Hrun. rewrite (in_category_iff _ _ _ _ _ _ Hrun).
  pose proof (category_of_first_match name) as Hcf.
  split; intros (t & pct & ? & ? & ? & Hc); exists t, pct; split_and!;
    try done; congruence.
Qed.

(** C4 (as amended): when the classifier returns its categories, a function
    whose percentage [t / total_time_us * 100], as the code computes it in
    binary64, compares below 0.5 is in no category; any other function of
    the map is in the category of the first pattern of [patterns] it
    matches and in no other; a function that matches no pattern is in no
    category. *)
Theorem bottleneck_categories_first_match (total_time self_time : gmap string Z)
    (total_time_us : Z) (categories : gmap string (list entry))
    (name : string) :
  bottleneck_categories total_time self_time total_time_us = Ok categories →
  (∀ t pct, total_time !! name = Some t → share t total_time_us = Ok pct →
            lt_half pct = true → ∀ c, ¬ in_category categories c name) ∧
  (∀ t pct, total_time !! name = Some t → share t total_time_us = Ok pct →
            lt_half pct = false →
            ∀ c, in_category categories c name ↔
                 first_match patterns name = Some c) ∧
  (∀ c c', in_category categories c name → in_category categories c' name →
           c = c') ∧
  (first_match patterns name = None → ∀ c, ¬ in_category categories c name).
Proof.
  intros Hrun.
  pose proof (λ c, in_category_first_match _ _ _ _ c name Hrun) as Hiff.
  split_and!.
  - intros t pct Ht Hp Hlt c (t' & pct' & Ht' & Hp' & Hlt' & _)%Hiff.
    congruence.
  - intros t pct Ht Hp Hlt c. rewrite Hiff. split.
    + by intros (? & ? & _ & _ & _ & Hc).
    + intros Hc. by exists t, pct.
  - intros c c' (? & ? & _ & _ & _ & Hc)%Hiff (? & ? & _ & _ & _ & Hc')%Hiff.
    congruence.
  - intros Hnone c (? & ? & _ & _ & _ & Hc)%Hiff. congruence.
Qed.

(** A run on four functions with the denominator 1000: the upload (which
    also matches the later pattern of the shader compiler) is filed under
    the uploads, the unmatched function and the memory copy of 0.4% are
    under no category. *)
Lemma bottleneck_categories_first_match_witness :
  match bottleneck_categories sample_total_time sample_self_time 1000 with
  | Ok categories =>
      (∀ c, in_category categories c "Naga_write_BUFFER" ↔
            first_match patterns "Naga_write_BUFFER" = Some c) ∧
      first_match patterns "Naga_write_BUFFER" = Some "GPU Buffer Upload" ∧
      (∀ c, ¬ in_category categories c "render_frame") ∧
      (∀ c, ¬ in_category categories c "Uint8Array::new_from_slice")
  | Raise _ => False
  end.
Proof.
  destruct (bottleneck_categories sample_total_time sample_self_time 1000)
    as [categories|e] eqn:Hrun.
  - split_and!.
    + destruct (bottleneck_categories_first_match _ _ _ _ "Naga_write_BUFFER"
                  Hrun) as (_ & Hfiled & _).
      apply (Hfiled 500 (Float (S754_finite false 7036874417766400 (-47))));
        vm_compute; reflexivity.
    + vm_compute; reflexivity.
    + destruct (bottleneck_categories_first_match _ _ _ _ "render_frame" Hrun)
        as (_ & _ & _ & Hnone).
      apply Hnone. vm_compute; reflexivity.
    + destruct (bottleneck_categories_first_match _ _ _ _
                  "Uint8Array::new_from_slice" Hrun) as (Hlow & _).
      apply (Hlow 4 (Float (S754_finite false 7205759403792794 (-54))));
        vm_compute; reflexivity.
  - assert (is_ok (bottleneck_categories sample_total_time sample_self_time
                     1000) = true) as Hok by (vm_compute; reflexivity).
    rewrite Hrun in Hok. discriminate Hok.
Defined.

(** C4, the claim as stated fails: with the denominator 200 * 2^47 + 1 a
    function of total time 2^47 has a share below 0.5%, yet its percentage
    rounds to 0.5 and the function is filed under the memory copies. *)
Lemma bottleneck_share_rounds_to_half :
  0 < 28147497671065601 ∧
  share_below_half_percent 140737488355328 28147497671065601 ∧
  share 140737488355328 28147497671065601 = Ok (Float half) ∧
  match bottleneck_categories {[ "new_from_slice" := 140737488355328 ]} ∅
          28147497671065601 with
  | Ok categories =>
      in_category categories "WASM→JS Memory Copy" "new_from_slice"
  | Raise _ => False
  end.
Proof.
  assert (share 140737488355328 28147497671065601 = Ok (Float half)) as Hshare
    by (vm_compute; reflexivity).
  split_and!; [done|by vm_compute|done|].
  destruct (bottleneck_categories _ _ _) as [categories|e] eqn:Hrun.
  - apply (in_category_first_match _ _ _ _ _ _ Hrun).
    exists 140737488355328, (Float half). split_and!; [|done|..].
    + apply lookup_singleton_eq.
    + vm_compute; reflexivity.
    + vm_compute; reflexivity.
  - assert (is_ok (bottleneck_categories
                     {[ "new_from_slice" := 140737488355328 ]} ∅
                     28147497671065601) = true) as Hok
      by (vm_compute; reflexivity).
    rewrite Hrun in Hok. discriminate Hok.
Qed.

(** ** The report header *)

Lemma sum_zeros (time_deltas : list Z) :
  Forall (λ d, d = 0) time_deltas → sum time_deltas = 0.
Proof.
  intros Hzero. unfold sum.
  assert (∀ acc, foldl Z.add acc time_deltas = acc) as Hacc; [|apply Hacc].
  induction Hzero as [|d l -> _ IH]; intros acc; simpl; [done|].
  rewrite IH. lia.
Qed.

(** With no time anywhere, every self time is 0. *)
Lemma analyze_from_zero_self_time nodes time_deltas i samples a name :
  Forall (λ d, d = 0) time_deltas →
  getd (self_time a) name = 0 →
  getd (self_time (analyze_from nodes time_deltas i samples a)) name = 0.
Proof.
  intros Hzero. revert i a.
  induction samples as [|node_id samples IH]; intros i a Ha; simpl; [done|].
  apply IH.
  destruct (analyze_sample_effect nodes time_deltas i node_id a name)
    as (_ & _ & -> & _).
  assert (default 0 (time_deltas !! i) = 0) as ->.
  { destruct (time_deltas !! i) as [d|] eqn:Hi; simpl; [|done].
    by apply (Forall_lookup_1 _ _ _ _ Hzero Hi). }
  case_bool_decide; lia.
Qed.

(** C9: when the time deltas are absent, empty or all zero, the report
    raises [ZeroDivisionError] at the active-time percentage of line 311,
    whatever the samples and the node table are (so also when a sample has
    a stack), and before any section is printed. *)
Theorem print_report_zero_time_raises {R : Type}
    (print_sections : analysis → Z → Z → Z → result R)
    (nodes : gmap Z node) (samples time_deltas : list Z) :
  Forall (λ d, d = 0) time_deltas →
  print_report print_sections nodes samples time_deltas
    = Raise ZeroDivisionError.
Proof.
  intros Hzero. unfold print_report.
  assert ((if bool_decide (time_deltas ≠ []) then sum time_deltas else 0) = 0)
    as ->.
  { case_bool_decide; [by apply sum_zeros|done]. }
  unfold analyze_samples.
  rewrite !(analyze_from_zero_self_time _ _ _ _ _ _ Hzero) by done.
  done.
Qed.

(** One sample with the stack [inner], [outer] and no time deltas. *)
Lemma print_report_zero_time_raises_witness :
  Forall (λ d, d = 0) ([] : list Z) ∧
  get_full_stack nested_table 2 = [(2, "inner"); (1, "outer")] ∧
  print_report (λ _ _ _ _, Ok ()) nested_table [2] []
    = Raise ZeroDivisionError.
Proof.
  split_and!; [constructor|by vm_compute|].
  apply (print_report_zero_time_raises (λ _ _ _ _, Ok ()) nested_table [2] []).
  constructor.
Defined.

End TraceProofs.

(** * The parser of analyze-webgpu-inspector.py *)

Module ParseProofs.
Import Py Re Inspector InspectorRun ReProofs IntProofs.

(** ** Steps that read numerals *)

Lemma outcome_ret {A} (P : A → Prop) (short : Prop) (a : A) :
  P a → outcome P short (Ok a).
Proof. done. Qed.

Lemma outcome_bind {A B} (P : A → Prop) (Q : B → Prop) (short : Prop)
    (res : result A) (k : A → result B) :
  outcome P short res → (∀ a, P a → outcome Q short (k a)) →
  outcome Q short (res ≫= k).
Proof. destruct res as [a|e]; cbn [outcome mbind result_bind]; auto. Qed.

Lemma outcome_impl {A} (P Q : A → Prop) (short : Prop) (res : result A) :
  (∀ a, P a → Q a) → outcome P short res → outcome Q short res.
Proof. destruct res; cbn [outcome]; auto. Qed.

Lemma outcome_map_result {A B} (P : B → Prop) (short : Prop)
    (f : A → result B) (l : list A) :
  (∀ a, a ∈ l → outcome P short (f a)) →
  outcome (Forall P) short (map_result f l).
Proof.
  induction l as [|a l IH]; intros Hf; cbn [map_result].
  { by apply outcome_ret. }
  eapply outcome_bind; [apply Hf; by left|]. intros b Hb.
  eapply outcome_bind; [apply IH; intros a' Ha'; apply Hf; by right|].
  intros bs Hbs. apply outcome_ret. by constructor.
Qed.

Lemma outcome_Ok {A} (P : A → Prop) (short : Prop) (res : result A) (a : A) :
  outcome P short res → res = Ok a → P a.
Proof. by intros H ->. Qed.

Lemma outcome_Raise {A} (P : A → Prop) (short : Prop) (res : result A)
    (e : exn) :
  outcome P short res → res = Raise e → e = ValueError.
Proof. intros H ->. apply H. Qed.

Lemma outcome_short {A} (P : A → Prop) (short : Prop) (res : result A) :
  outcome P short res → short → ∃ a, res = Ok a ∧ P a.
Proof. destruct res as [a|e]; cbn [outcome]; [eauto|]. by intros [_ ?]. Qed.

(** [int] on a group of digits of the text. *)
Lemma int_group (content g : string) :
  all digit g = true → (1 ≤ String.length g)%nat → part_of g content →
  outcome (λ n, 0 ≤ n ∧ convertible n ∧ numeral g = Some n)
    (short_numerals content) (int g).
Proof.
  intros Hg Hlen (pre & post & ->).
  assert (g ≠ "") as Hne by (by destruct g; [simpl in Hlen; lia|]).
  rewrite int_digits by done. case_bool_decide as Hlong; cbn [outcome].
  - split; [done|]. intros Hshort. apply Hshort. exists pre, g, post.
    split_and!; [done|by apply numeral_is_Some|done].
  - pose proof (decimal_bounds g Hg) as Hb.
    pose proof (pow_10_mono (String.length g) max_str_digits) as Hp.
    unfold convertible. split_and!; [lia|lia|by apply numeral_digits_of].
Qed.

Ltac break_match H :=
  cbn [cat foldr matches] in H;
  repeat match goal with
         | H' : ∃ _, _ |- _ => destruct H' as [? H']
         | H' : _ ∧ _ |- _ => destruct H' as [? ?]
         end;
  subst.

(** A step that reads one group of digits, and goes on. *)
Ltac read_group content :=
  eapply outcome_bind;
  [apply (int_group content); [done|done|
     match goal with Hp : ∀ x, x ∈ _ → part_of x content |- _ =>
       apply Hp; set_solver end]
  |intros ? (? & ? & ?)].

Lemma lower_type (t : string) :
  matches (Alt (Lit "Compute") (Lit "Render")) t [] [] →
  lower t = "compute" ∨ lower t = "render".
Proof. cbn [matches]. intros [[-> _]|[-> _]]; [by left|by right]. Qed.

Lemma max_list_nonneg (l : list Z) : Forall (λ n, 0 ≤ n) l → 0 ≤ max_list l.
Proof.
  destruct 1 as [|a l Ha Hl]; simpl; [done|].
  revert a Ha. induction Hl as [|b l Hb _ IH]; intros a Ha; simpl; [done|].
  apply IH. lia.
Qed.

Lemma parse_draws_outcome (content : string) :
  outcome (Forall parsed_draw) (short_numerals content) (parse_draws content).
Proof.
  unfold parse_draws.
  eapply outcome_bind; [apply outcome_map_result|intros direct Hdirect].
  { intros [m groups] [Hm Hp]%finditer_sound. unfold draw_pattern in Hm.
    simpl in Hm, Hp. break_match Hm. unfold direct_draw_of.
    cbn [group snd fst pred lookup list_lookup default app].
    do 4 read_group content. apply outcome_ret.
    instantiate (1 := parsed_draw). split; [done|by left]. }
  eapply outcome_bind; [apply outcome_map_result|intros indirect Hindirect].
  { intros [m groups] [Hm Hp]%finditer_sound.
    unfold draw_indirect_pattern in Hm.
    simpl in Hm, Hp. break_match Hm. unfold indirect_draw_of.
    cbn [group snd fst pred lookup list_lookup default app].
    read_group content. apply outcome_ret.
    instantiate (1 := parsed_draw). split; [done|by right]. }
  apply outcome_ret, Forall_app. done.
Qed.

Lemma parse_dispatches_outcome (content : string) :
  outcome (Forall parsed_dispatch) (short_numerals content)
    (parse_dispatches content).
Proof.
  unfold parse_dispatches. apply outcome_map_result.
  intros [m groups] [Hm Hp]%finditer_sound. unfold dispatch_pattern in Hm.
  simpl in Hm, Hp. break_match Hm. unfold dispatch_of.
  cbn [group snd fst pred lookup list_lookup default app].
  do 3 read_group content. apply outcome_ret.
  split_and!; done.
Qed.

Lemma parse_buffers_outcome (content : string) :
  outcome (Forall buffer_ok) (short_numerals content) (parse_buffers content).
Proof.
  unfold parse_buffers.
  eapply outcome_bind; [apply outcome_map_result|intros first Hfirst].
  { intros [m groups] [Hm Hp]%finditer_sound. unfold buffer_pattern in Hm.
    simpl in Hm, Hp. break_match Hm. unfold buffer_of.
    cbn [group snd fst pred lookup list_lookup default app].
    read_group content. apply outcome_ret.
    instantiate (1 := buffer_ok). split; done. }
  eapply outcome_bind; [apply outcome_map_result|intros second Hsecond].
  { intros [m groups] [Hm Hp]%finditer_sound. unfold buffer_pattern2 in Hm.
    simpl in Hm, Hp. break_match Hm. unfold buffer_of2.
    cbn [group snd fst pred lookup list_lookup default app].
    read_group content. apply outcome_ret.
    instantiate (1 := buffer_ok). split; done. }
  apply outcome_ret, Forall_app. done.
Qed.

Lemma parse_pipelines_ok (content : string) :
  Forall pipeline_ok (parse_pipelines content).
Proof.
  unfold parse_pipelines. apply Forall_fmap, Forall_forall.
  intros [m groups] [Hm _]%finditer_sound. unfold pipeline_pattern in Hm.
  simpl in Hm. cbn [cat foldr] in Hm.
  destruct Hm as (m1 & m2 & g1 & _ & [_ ->] & Hm).
  destruct Hm as (t & m3 & g2 & _ & (g3 & Ht & ->) & Hm).
  cbn [matches] in Ht.
  assert (g3 = [] ∧ (lower t = "compute" ∨ lower t = "render")) as [-> Hty].
  { destruct Ht as [[-> ->]|[-> ->]]; split; auto. }
  break_match Hm. cbn. done.
Qed.

Lemma parse_frame_count_outcome (content : string) :
  outcome (λ n, 0 ≤ n) (short_numerals content) (parse_frame_count content).
Proof.
  unfold parse_frame_count. case_bool_decide; [|done].
  eapply outcome_bind; [apply outcome_map_result|intros indices Hind].
  { unfold findall1. intros ds ([m groups] & -> & Hmt)%list_elem_of_fmap.
    apply finditer_sound in Hmt as [Hm Hp]. unfold frame_pattern in Hm.
    simpl in Hm, Hp. break_match Hm.
    cbn [group snd fst pred lookup list_lookup default app].
    eapply outcome_impl; [|apply (int_group content); [done|done|]].
    - intros n Hn. exact (proj1 Hn).
    - apply Hp. set_solver. }
  apply outcome_ret. pose proof (max_list_nonneg indices Hind). lia.
Qed.

(** X12: whatever the text of the recording, what the parser returns has
    no negative number: every count and offset of a draw, every dimension
    of a dispatch and every buffer size is at least 0, and so is the frame
    count; the total of a dispatch is the product of its dimensions; the
    type of a pipeline is compute or render; and no label holds a double
    quote.  Each part of the parser returns when no numeral of the text has
    more than 4300 digits, and raises nothing but [ValueError]. *)
Theorem parse_well_formed (content : string) :
  (∀ ds, parse_draws content = Ok ds → Forall draw_ok ds) ∧
  (∀ ds, parse_dispatches content = Ok ds → Forall dispatch_ok ds) ∧
  (∀ bs, parse_buffers content = Ok bs → Forall buffer_ok bs) ∧
  Forall pipeline_ok (parse_pipelines content) ∧
  (∀ n, parse_frame_count content = Ok n → 0 ≤ n) ∧
  (short_numerals content →
   is_ok (parse_draws content) = true ∧
   is_ok (parse_dispatches content) = true ∧
   is_ok (parse_buffers content) = true ∧
   is_ok (parse_frame_count content) = true) ∧
  (∀ e, parse_draws content = Raise e ∨ parse_dispatches content = Raise e ∨
        parse_buffers content = Raise e ∨ parse_frame_count content = Raise e →
        e = ValueError).
Proof.
  pose proof (parse_draws_outcome content) as Hdraws.
  pose proof (parse_dispatches_outcome content) as Hdispatches.
  pose proof (parse_buffers_outcome content) as Hbuffers.
  pose proof (parse_frame_count_outcome content) as Hframes.
  split_and!.
  - intros ds Hds. rewrite Hds in Hdraws. cbn [outcome] in Hdraws.
    eapply Forall_impl; [exact Hdraws|]. by intros d [? _].
  - intros ds Hds. rewrite Hds in Hdispatches. cbn [outcome] in Hdispatches.
    eapply Forall_impl; [exact Hdispatches|]. by intros d [? _].
  - intros bs Hbs. rewrite Hbs in Hbuffers. exact Hbuffers.
  - apply parse_pipelines_ok.
  - intros n Hn. rewrite Hn in Hframes. exact Hframes.
  - intros Hshort.
    destruct (outcome_short _ _ _ Hdraws Hshort) as (? & -> & _).
    destruct (outcome_short _ _ _ Hdispatches Hshort) as (? & -> & _).
    destruct (outcome_short _ _ _ Hbuffers Hshort) as (? & -> & _).
    destruct (outcome_short _ _ _ Hframes Hshort) as (? & -> & _). done.
  - intros e [He|[He|[He|He]]];
      [exact (outcome_Raise _ _ _ e Hdraws He)|
       exact (outcome_Raise _ _ _ e Hdispatches He)|
       exact (outcome_Raise _ _ _ e Hbuffers He)|
       exact (outcome_Raise _ _ _ e Hframes He)].
Qed.

End ParseProofs.

(** * Proofs for analyze-webgpu-inspector.py *)

Module InspectorProofs.
Import Py Re ReProofs Inspector InspectorRun IntProofs ParseProofs.

(** ** The frame markers *)

Lemma digit_not (c x : ascii) :
  digit x = false → digit c = true → Ascii.eqb x c = false.
Proof.
  intros Hx Hc. destruct (Ascii.eqb x c) eqn:Heq; [|done].
  apply Ascii.eqb_eq in Heq as ->. congruence.
Qed.

(** What the pattern of the frame markers matches at the head of a text. *)
Lemma match_at_frame (s : string) :
  match_at frame_pattern s =
  match strip "D_F" s with
  | Some s1 =>
      let ds := (span digit s1).1 in
      if bool_decide (1 ≤ String.length ds)%nat then
        match strip "_" (span digit s1).2 with
        | Some s3 =>
            let ms := (span digit s3).1 in
            if bool_decide (1 ≤ String.length ms)%nat
            then Some ("D_F" +:+ ds +:+ "_" +:+ ms, [ds]) else None
        | None => None
        end
      else None
  | None => None
  end.
Proof.
  unfold match_at, frame_pattern, cat. cbn [foldr exec].
  destruct (strip "D_F" s) as [s1|]; [|done].
  rewrite many_cut.
  2:{ intros acc' [|c rest']; cbn [starts_outside]; [done|].
      intros Hc%negb_false_iff. cbn [strip].
      by rewrite (digit_not c "_"). }
  unfold stop_run. cbn [Nat.add]. case_bool_decide; [|done].
  destruct (strip "_" (span digit s1).2) as [s3|]; [|done].
  rewrite many_total by eauto.
  unfold stop_run. cbn [Nat.add]. case_bool_decide; [|done].
  by rewrite !string_app_nil_l, !string_app_nil_r.
Qed.

Lemma length_pos (s : string) : (1 ≤ String.length s)%nat ↔ s ≠ "".
Proof. destruct s; simpl; split; (done || lia). Qed.

(** The marker that starts at the head of a text is the one the pattern
    matches there. *)
Lemma match_at_frame_head (ds ms post : string) :
  ds ≠ "" → ms ≠ "" → all digit ds = true → all digit ms = true →
  ∃ ms', match_at frame_pattern ("D_F" +:+ ds +:+ "_" +:+ ms +:+ post)
         = Some ("D_F" +:+ ds +:+ "_" +:+ ms', [ds]).
Proof.
  intros Hds Hms Hdd Hdm. rewrite match_at_frame, strip_app.
  rewrite (span_run digit ds ("_" +:+ ms +:+ post)) by done.
  cbn [fst snd]. rewrite bool_decide_eq_true_2 by by apply length_pos.
  rewrite strip_app.
  assert (1 ≤ String.length (span digit (ms +:+ post)).1)%nat.
  { destruct ms as [|c ms]; [done|]. rewrite string_app_cons. simpl in *.
    apply andb_true_iff in Hdm as [-> _]. simpl. lia. }
  rewrite bool_decide_eq_true_2 by done. eauto.
Qed.

Lemma match_at_frame_Some (s m : string) (groups : list string) :
  match_at frame_pattern s = Some (m, groups) →
  ∃ ds ms post,
    s = "D_F" +:+ ds +:+ "_" +:+ ms +:+ post ∧
    m = "D_F" +:+ ds +:+ "_" +:+ ms ∧ groups = [ds] ∧
    ds ≠ "" ∧ ms ≠ "" ∧ all digit ds = true ∧ all digit ms = true.
Proof.
  rewrite match_at_frame.
  destruct (strip "D_F" s) as [s1|] eqn:Hs; [|done]. cbv zeta.
  case_bool_decide as Hds; [|done].
  destruct (strip "_" (span digit s1).2) as [s3|] eqn:Hs1; [|done].
  case_bool_decide as Hms; [|done]. intros [= <- <-].
  exists (span digit s1).1, (span digit s3).1, (span digit s3).2.
  split_and!; try done; try (by apply length_pos); try apply span_all.
  apply strip_Some in Hs as ->. apply strip_Some in Hs1.
  by rewrite span_app, <- Hs1, span_app.
Qed.

Lemma occurs_cons ds c s :
  occurs ds (String c s) ↔ occurs_head ds (String c s) ∨ occurs ds s.
Proof.
  split.
  - intros ([|c' pre] & s' & Hs & Hhead).
    + left. by rewrite Hs.
    + right. rewrite string_app_cons in Hs. injection Hs as -> ->. by exists pre, s'.
  - intros [Hhead|(pre & s' & -> & Hhead)].
    + by exists "", (String c s).
    + by exists (String c pre), s'.
Qed.

Lemma occurs_nil ds : ¬ occurs ds "".
Proof.
  intros ([|c pre] & s' & Hs & ms & post & -> & _); by rewrite ?string_app_cons in Hs.
Qed.

Lemma all_app cls (a b : string) :
  all cls (a +:+ b) = all cls a && all cls b.
Proof.
  induction a as [|c a IH]; [done|]. rewrite string_app_cons. simpl.
  by rewrite IH, andb_assoc.
Qed.

Lemma all_impl (p q : ascii → bool) (s : string) :
  (∀ c, p c = true → q c = true) → all p s = true → all q s = true.
Proof.
  intros Hpq. induction s as [|c s IH]; simpl; [done|].
  intros [Hc Hs]%andb_true_iff. by rewrite (Hpq c Hc), IH.
Qed.

Lemma no_D_app (a rest : string) :
  all (other_than "D"%char) a = true → no_D (String.length a) (a +:+ rest).
Proof.
  induction a as [|c a IH]; [done|]. rewrite string_app_cons. simpl.
  intros [Hc Ha]%andb_true_iff. split; [|by apply IH].
  intros ->. done.
Qed.

Lemma digit_other_than_D (c : ascii) :
  digit c = true → other_than "D"%char c = true.
Proof.
  intros Hc. unfold other_than. apply negb_true_iff.
  destruct (Ascii.eqb c "D") eqn:Heq; [|done].
  apply Ascii.eqb_eq in Heq as ->. done.
Qed.

(** The scan finds the markers of the text, each by the digits of its
    index. *)
Lemma scan_frame_occurs (s : string) (skip : nat) (ds : string) :
  no_D skip s →
  ds ∈ (λ m, group m 1) <$> scan frame_pattern s skip ↔ occurs ds s.
Proof.
  revert skip. induction s as [|c s IH]; intros skip Hskip.
  { cbn [scan]. assert (match_at frame_pattern "" = None) as -> by done.
    destruct skip; rewrite fmap_nil, elem_of_nil; split; try done;
      by intros ?%occurs_nil. }
  rewrite occurs_cons. destruct skip as [|skip]; cbn [scan].
  - destruct (match_at frame_pattern (String c s)) as [[m groups]|] eqn:Hm.
    + destruct (match_at_frame_Some _ _ _ Hm)
        as (ds0 & ms & post & Hs & Hmm & Hg & Hds0 & Hms & Hdd & Hdm).
      assert (occurs_head ds (String c s) ↔ ds = ds0) as ->.
      { split.
        - intros (ms' & post' & Hs' & ? & ? & ? & ?).
          destruct (match_at_frame_head ds ms' post') as [ms'' Hm'];
            try done.
          rewrite <- Hs', Hm in Hm'. congruence.
        - intros ->. by exists ms, post. }
      subst m groups. rewrite fmap_cons, elem_of_cons.
      cbn [group snd fst pred lookup list_lookup default].
      rewrite !string_app_cons in Hs. injection Hs as -> ->.
      rewrite IH; [done|].
      rewrite !string_app_cons. cbn [String.length pred].
      pose proof (no_D_app ("_F" +:+ ds0 +:+ "_" +:+ ms) post) as Hno.
      rewrite !string_app_assoc in Hno. apply Hno.
      rewrite !all_app, (all_impl _ _ _ digit_other_than_D Hdd),
        (all_impl _ _ _ digit_other_than_D Hdm). done.
    + rewrite IH by done. split; [by right|].
      intros [(ms' & post' & Hs' & ? & ? & ? & ?)|Hocc]; [|done].
      destruct (match_at_frame_head ds ms' post') as [ms'' Hm']; try done.
      rewrite <- Hs' in Hm'. congruence.
  - destruct Hskip as [Hc Hskip]. rewrite IH by done.
    split; [by right|].
    intros [(ms' & post' & Hs' & _)|Hocc]; [|done].
    rewrite !string_app_cons in Hs'. by injection Hs' as -> _.
Qed.

(** The markers of the specification are the ones that the scan finds. *)
Lemma marker_at_occurs (content ds : string) :
  marker_at content ds ↔ occurs ds content.
Proof.
  split.
  - intros (pre & ms & post & -> & [? ?]%numeral_is_Some &
            [? ?]%numeral_is_Some).
    exists pre, ("D_F" +:+ ds +:+ "_" +:+ ms +:+ post).
    split; [done|]. by exists ms, post.
  - intros (pre & s' & -> & ms & post & -> & ? & ? & ? & ?).
    exists pre, ms, post. split_and!; [done|by apply numeral_is_Some..].
Qed.

Lemma marker_at_findall (content ds : string) :
  marker_at content ds ↔ ds ∈ findall1 frame_pattern content.
Proof.
  rewrite marker_at_occurs. unfold findall1, finditer.
  symmetry. by apply (scan_frame_occurs content 0).
Qed.

Lemma marker_at_digits (content ds : string) :
  marker_at content ds → ds ≠ "" ∧ all digit ds = true.
Proof. intros (pre & ms & post & _ & ?%numeral_is_Some & _). done. Qed.

Lemma marker_decimal (content : string) (n : Z) :
  marker content n ↔ ∃ ds, marker_at content ds ∧ decimal ds = n.
Proof.
  split.
  - intros (ds & Hat & (_ & _ & Hn)%numeral_Some). by exists ds.
  - intros (ds & Hat & <-). exists ds. split; [done|].
    destruct (marker_at_digits _ _ Hat). by apply numeral_digits_of.
Qed.

(** [max] of a list that is not empty: one of its items, and at least each
    of them. *)
Lemma foldl_max (l : list Z) (a : Z) :
  foldl Z.max a l ∈ a :: l ∧ ∀ v, v ∈ a :: l → v ≤ foldl Z.max a l.
Proof.
  revert a. induction l as [|b l IH]; intros a; simpl.
  { split; [by left|]. intros v ->%list_elem_of_singleton. done. }
  destruct (IH (Z.max a b)) as [Hin Hle]. split.
  - apply elem_of_cons in Hin as [Hin|Hin]; [|by do 2 right].
    rewrite Hin. destruct (Z.max_spec a b) as [[_ ->]|[_ ->]];
      [right; left|left]; done.
  - intros v [->|[->|Hv]%elem_of_cons]%elem_of_cons.
    + trans (Z.max a b); [lia|]. apply Hle. by left.
    + trans (Z.max a b); [lia|]. apply Hle. by left.
    + apply Hle. by right.
Qed.

Lemma max_list_spec (l : list Z) :
  l ≠ [] → max_list l ∈ l ∧ ∀ v, v ∈ l → v ≤ max_list l.
Proof. destruct l as [|a l]; [done|]. intros _. apply foldl_max. Qed.

(** The frame count of a text without markers. *)
Lemma parse_frame_count_no_marker (content : string) :
  (∀ n, ¬ marker content n) → parse_frame_count content = Ok 0.
Proof.
  intros Hnone. unfold parse_frame_count. case_bool_decide as Hne; [|done].
  destruct (findall1 frame_pattern content) as [|ds l] eqn:Hl; [done|].
  destruct (Hnone (decimal ds)). apply marker_decimal. exists ds.
  split; [|done]. apply marker_at_findall. rewrite Hl. by left.
Qed.

(** C5 (as amended): the frame count is 0 when the text has no marker
    [D_F<n>_<m>]; when it has markers and the index of none has more than
    4300 digits, it is one more than the index of one of the markers, which
    is the largest: no marker has a larger index; and when the index of a
    marker has more than 4300 digits, reading it raises [ValueError] and
    there is no frame count. *)
Theorem parse_frame_count_max_marker (content : string) :
  ((∀ n, ¬ marker content n) → parse_frame_count content = Ok 0) ∧
  ((∀ ds, marker_at content ds → (String.length ds ≤ 4300)%nat) →
   ∀ n, marker content n →
     ∃ n', marker content n' ∧ (∀ m, marker content m → m ≤ n') ∧
           parse_frame_count content = Ok (n' + 1)) ∧
  ((∃ ds, marker_at content ds ∧ (4300 < String.length ds)%nat) →
   parse_frame_count content = Raise ValueError).
Proof.
  split_and!.
  - apply parse_frame_count_no_marker.
  - intros Hshort n (ds & Hds & _)%marker_decimal.
    unfold parse_frame_count.
    assert (findall1 frame_pattern content ≠ []) as Hne.
    { apply marker_at_findall in Hds. intros Hnil. rewrite Hnil in Hds.
      by apply elem_of_nil in Hds. }
    rewrite bool_decide_eq_true_2 by done.
    rewrite (map_result_Ok int decimal).
    2:{ intros ds' Hds'%marker_at_findall.
        destruct (marker_at_digits _ _ Hds').
        apply int_short; [done|done|]. by apply Hshort. }
    cbn [mbind result_bind].
    destruct (max_list_spec (decimal <$> findall1 frame_pattern content))
      as [Hin Hle].
    { intros Hnil%fmap_nil_inv. done. }
    exists (max_list (decimal <$> findall1 frame_pattern content)).
    split_and!; [| |done].
    + apply list_elem_of_fmap in Hin as (ds' & -> & Hds').
      apply marker_decimal. exists ds'. split; [|done].
      by apply marker_at_findall.
    + intros m (ds' & Hds' & <-)%marker_decimal. apply Hle.
      apply list_elem_of_fmap. exists ds'. split; [done|].
      by apply marker_at_findall.
  - intros (ds & Hds & Hlong). unfold parse_frame_count.
    pose proof Hds as Hin. apply marker_at_findall in Hin.
    rewrite bool_decide_eq_true_2.
    2:{ intros Hnil. rewrite Hnil in Hin. by apply elem_of_nil in Hin. }
    rewrite (map_result_Raise int ValueError); [done| |].
    + intros ds' Hds'%marker_at_findall.
      destruct (marker_at_digits _ _ Hds'). by apply int_digits_cases.
    + exists ds. split; [done|]. destruct (marker_at_digits _ _ Hds).
      by apply int_long.
Qed.

(** The text with one marker whose index has 4301 digits has a marker, and
    it has no frame count, one more than an index or other: reading the
    index raises [ValueError]. *)
Lemma parse_frame_count_long_index :
  (∃ n, marker long_marker_text n) ∧
  parse_frame_count long_marker_text = Raise ValueError ∧
  ∀ n, parse_frame_count long_marker_text ≠ Ok n.
Proof.
  split; [|split].
  - assert (long_index ≠ "" ∧ all digit long_index = true) as [Hne Hdigits]
      by (split; [done|vm_compute; reflexivity]).
    exists (decimal long_index), long_index.
    split; [|by apply numeral_digits_of].
    exists "", "0", "". split; [|split].
    + unfold long_marker_text.
      by rewrite string_app_nil_l, string_app_nil_r.
    + by apply numeral_is_Some.
    + by eexists.
  - vm_compute. reflexivity.
  - intros n Hn.
    assert (is_ok (parse_frame_count long_marker_text) = false) as Hno
      by (vm_compute; reflexivity).
    rewrite Hn in Hno. discriminate Hno.
Qed.

(** Two markers, of the frames 0 and 12, and text that is no marker. *)
Example parse_frame_count_markers :
  parse_frame_count "D_F0_1 x D_F12_3 D_F99_ D_F_7 d_f100_1" = Ok 13 ∧
  parse_frame_count "no marker: D_F_1, D_F7, F3_4" = Ok 0.
Proof. split; vm_compute; reflexivity. Qed.

(** ** The summary *)

(** A division by a number other than 0 returns, or overflows. *)
Lemma truediv_cases (a b : Z) :
  b ≠ 0 → (∃ q, truediv a b = Ok q) ∨ truediv a b = Raise OverflowError.
Proof.
  intros Hb. unfold truediv. rewrite bool_decide_eq_false_2 by done.
  case_bool_decide; [eauto|].
  destruct (SFdiv prec emax (operand a) (operand b)); eauto.
Qed.

Lemma truediv_zero (a : Z) : truediv a 0 = Raise ZeroDivisionError.
Proof. done. Qed.

Ltac lookup_other :=
  rewrite ?lookup_insert_ne by done; rewrite ?lookup_empty; try done.

(** ** The keys of the dispatches *)

Lemma dispatch_key_outcome (d : dispatch) :
  outcome (λ k, k = pretty (x d) +:+ "x" +:+ pretty (y d) +:+ "x"
                      +:+ pretty (z d))
    (convertible_dispatch d) (dispatch_key d).
Proof.
  unfold dispatch_key, str_int, convertible_dispatch, convertible.
  repeat case_bool_decide; cbn [mbind result_bind outcome]; try done;
    (split; [done|]); by intros (? & ? & ?).
Qed.

Lemma dispatch_types_outcome (ds : list dispatch) (m : gmap string Z) :
  outcome (λ _, True) (Forall convertible_dispatch ds)
    (for_each (λ types d, key ← dispatch_key d; Ok (count_key key types))
       ds m).
Proof.
  revert m. induction ds as [|d ds IH]; intros m; cbn [for_each]; [done|].
  pose proof (dispatch_key_outcome d) as Hd.
  destruct (dispatch_key d) as [k|e]; cbn [mbind result_bind outcome] in *.
  - specialize (IH (count_key k m)).
    destruct (for_each _ ds _) as [types|e]; cbn [outcome] in *; [done|].
    destruct IH as [-> Hds]. split; [done|]. by intros [_ ?]%Forall_cons.
  - destruct Hd as [-> Hd]. split; [done|]. by intros [? _]%Forall_cons.
Qed.

(** Without a positive frame count no rate is computed: the summary has no
    rate, and only a dimension of a dispatch that has too many digits for a
    key stands in the way of the summary. *)
Lemma compute_summary_no_frames (r : results) :
  ¬ 0 < frame_count r →
  outcome (λ summary, ∀ key, key ∈ per_frame_keys → summary !! key = None)
    (Forall convertible_dispatch (dispatches r)) (compute_summary r).
Proof.
  intros Hfc.
  unfold compute_summary, summarize_draws, summarize_dispatches,
    summarize_buffers.
  rewrite !(bool_decide_eq_false_2 (0 < frame_count r)) by done.
  pose proof (dispatch_types_outcome (dispatches r) ∅) as Htypes.
  destruct (for_each _ (dispatches r) ∅) as [types|e];
    repeat case_bool_decide; cbn [mbind result_bind outcome] in *;
    try exact Htypes;
    intros key [->|[->|[->|[]%elem_of_nil]%elem_of_cons]%elem_of_cons]%elem_of_cons;
    lookup_other.
Qed.

Lemma compute_summary_not_zero_division (r : results) :
  compute_summary r ≠ Raise ZeroDivisionError.
Proof.
  destruct (decide (0 < frame_count r)) as [Hfc|Hfc].
  2:{ pose proof (compute_summary_no_frames r Hfc) as Hsum.
      destruct (compute_summary r) as [summary|e]; [done|].
      destruct Hsum as [-> _]. done. }
  assert (frame_count r ≠ 0) as Hne by lia.
  unfold compute_summary, summarize_draws, summarize_dispatches.
  rewrite !(bool_decide_eq_true_2 (0 < frame_count r)) by done.
  pose proof (dispatch_types_outcome (dispatches r) ∅) as Htypes.
  destruct (for_each _ (dispatches r) ∅) as [types|e];
    [|destruct Htypes as [-> _]];
    repeat case_bool_decide; cbn [mbind result_bind];
    repeat match goal with
      | |- context [truediv ?a (frame_count r)] =>
          destruct (truediv_cases a (frame_count r) Hne) as [[? ->]| ->];
          cbn [mbind result_bind]
      end; done.
Qed.

(** A rate in the summary tells that the frame count is positive. *)
Lemma compute_summary_rate_frames (r : results)
    (summary : gmap string value) (key : string) :
  compute_summary r = Ok summary → key ∈ per_frame_keys →
  is_Some (summary !! key) → 0 < frame_count r.
Proof.
  intros Hsum Hkey [v Hv].
  destruct (decide (0 < frame_count r)) as [|Hfc]; [done|].
  pose proof (compute_summary_no_frames r Hfc) as Hnone.
  rewrite Hsum in Hnone. cbn [outcome] in Hnone.
  rewrite (Hnone key Hkey) in Hv. done.
Qed.

(** What [parse_webgpu_recording] returns, part by part. *)
Lemma parse_webgpu_recording_Ok (content : string) (parsed : results) :
  parse_webgpu_recording content = Ok parsed →
  parse_draws content = Ok (draws parsed) ∧
  parse_dispatches content = Ok (dispatches parsed) ∧
  parse_buffers content = Ok (buffers parsed) ∧
  pipelines parsed = parse_pipelines content ∧
  parse_frame_count content = Ok (frame_count parsed) ∧
  compute_summary (Results (draws parsed) (dispatches parsed)
                     (buffers parsed) (pipelines parsed)
                     (frame_count parsed) ∅)
    = Ok (summary parsed).
Proof.
  unfold parse_webgpu_recording.
  destruct (parse_frame_count content) as [fc|]; cbn [mbind result_bind];
    [|done].
  destruct (parse_draws content) as [ds|]; cbn [mbind result_bind]; [|done].
  destruct (parse_dispatches content) as [dp|]; cbn [mbind result_bind];
    [|done].
  destruct (parse_buffers content) as [bs|]; cbn [mbind result_bind]; [|done].
  destruct (compute_summary _) as [sm|] eqn:Hsum; cbn [mbind result_bind];
    [|done].
  by intros [= <-].
Qed.

Lemma parse_webgpu_recording_not_zero_division (content : string) :
  parse_webgpu_recording content ≠ Raise ZeroDivisionError.
Proof.
  unfold parse_webgpu_recording.
  pose proof (parse_frame_count_outcome content) as Hframes.
  pose proof (parse_draws_outcome content) as Hdraws.
  pose proof (parse_dispatches_outcome content) as Hdispatches.
  pose proof (parse_buffers_outcome content) as Hbuffers.
  destruct (parse_frame_count content) as [fc|e]; cbn [mbind result_bind];
    [|by destruct Hframes as [-> _]].
  destruct (parse_draws content) as [ds|e]; cbn [mbind result_bind];
    [|by destruct Hdraws as [-> _]].
  destruct (parse_dispatches content) as [dp|e]; cbn [mbind result_bind];
    [|by destruct Hdispatches as [-> _]].
  destruct (parse_buffers content) as [bs|e]; cbn [mbind result_bind];
    [|by destruct Hbuffers as [-> _]].
  pose proof (compute_summary_not_zero_division
                (Results ds dp bs (parse_pipelines content) fc ∅)) as Hsum.
  destruct (compute_summary _) as [sm|e]; cbn [mbind result_bind]; [done|].
  congruence.
Qed.

(** A text without markers and without a numeral that is too long is
    parsed. *)
Lemma parse_webgpu_recording_no_marker (content : string) :
  (∀ n, ¬ marker content n) → short_numerals content →
  ∃ parsed, parse_webgpu_recording content = Ok parsed.
Proof.
  intros Hnone Hshort. unfold parse_webgpu_recording.
  rewrite (parse_frame_count_no_marker content Hnone).
  destruct (outcome_short _ _ _ (parse_draws_outcome content) Hshort)
    as (ds & -> & _).
  destruct (outcome_short _ _ _ (parse_dispatches_outcome content) Hshort)
    as (dp & -> & Hdp).
  destruct (outcome_short _ _ _ (parse_buffers_outcome content) Hshort)
    as (bs & -> & _).
  cbn [mbind result_bind].
  destruct (outcome_short _ _ _
              (compute_summary_no_frames
                 (Results ds dp bs (parse_pipelines content) 0 ∅)
                 ltac:(cbn [frame_count]; lia)))
    as (sm & -> & _).
  { cbn [dispatches]. eapply Forall_impl; [exact Hdp|]. by intros d [_ ?]. }
  cbn [mbind result_bind]. by eexists.
Qed.

(** C7: the summary has a per-frame rate key only when the frame count is
    positive, and so has the summary of every parsed recording; computing
    the summary never divides by zero, nor does parsing; with a frame count
    of 0 the summary that is computed has none of the keys, and it is
    computed when no dimension of a dispatch has too many digits for its
    key; and a text without frame markers is parsed to a frame count of 0
    and such a summary, and it is parsed when none of its numerals has more
    than 4300 digits. *)
Theorem compute_summary_per_frame_guard (r : results) (content : string) :
  compute_summary r ≠ Raise ZeroDivisionError ∧
  (∀ summary key,
     compute_summary r = Ok summary → key ∈ per_frame_keys →
     is_Some (summary !! key) → 0 < frame_count r) ∧
  (frame_count r = 0 →
   (∀ summary, compute_summary r = Ok summary →
               ∀ key, key ∈ per_frame_keys → summary !! key = None) ∧
   (Forall convertible_dispatch (dispatches r) →
    ∃ summary, compute_summary r = Ok summary)) ∧
  parse_webgpu_recording content ≠ Raise ZeroDivisionError ∧
  (∀ parsed key,
     parse_webgpu_recording content = Ok parsed → key ∈ per_frame_keys →
     is_Some (summary parsed !! key) → 0 < frame_count parsed) ∧
  ((∀ n, ¬ marker content n) →
   (∀ parsed, parse_webgpu_recording content = Ok parsed →
              frame_count parsed = 0 ∧
              ∀ key, key ∈ per_frame_keys → summary parsed !! key = None) ∧
   (short_numerals content →
    ∃ parsed, parse_webgpu_recording content = Ok parsed)).
Proof.
  split_and!.
  - apply compute_summary_not_zero_division.
  - apply compute_summary_rate_frames.
  - intros Hfc.
    pose proof (compute_summary_no_frames r ltac:(lia)) as Hnone. split.
    + intros summary Hsum. by rewrite Hsum in Hnone.
    + intros Hds. destruct (outcome_short _ _ _ Hnone Hds) as (sm & -> & _).
      by eexists.
  - apply parse_webgpu_recording_not_zero_division.
  - intros parsed key Hparse Hkey Hsome.
    destruct (parse_webgpu_recording_Ok _ _ Hparse)
      as (_ & _ & _ & _ & _ & Hsum).
    by apply (compute_summary_rate_frames _ _ key Hsum).
  - intros Hnone. split; [|by apply parse_webgpu_recording_no_marker].
    intros parsed Hparse.
    destruct (parse_webgpu_recording_Ok _ _ Hparse)
      as (_ & _ & _ & _ & Hfc & Hsum).
    rewrite (parse_frame_count_no_marker content Hnone) in Hfc.
    injection Hfc as Hfc. split; [done|].
    pose proof (compute_summary_no_frames _
                  ltac:(cbn [frame_count]; rewrite <- Hfc; lia)) as Hkeys.
    intros key Hkey.
    destruct (summary parsed !! key) as [v|] eqn:Hv; [|done].
    pose proof (compute_summary_rate_frames _ _ key Hsum Hkey
                  ltac:(by eexists)) as Hpos.
    cbn [frame_count] in Hpos. lia.
Qed.

(** ** The buffers *)

Lemma foldl_add (acc : Z) (l : list Z) :
  foldl Z.add acc l = acc + foldl Z.add 0 l.
Proof.
  revert acc. induction l as [|b l IH]; intros acc; simpl; [lia|].
  rewrite (IH (acc + b)), (IH (0 + b)). lia.
Qed.

Lemma sum_cons (a : Z) (l : list Z) : sum (a :: l) = a + sum l.
Proof. unfold sum. simpl. rewrite foldl_add. lia. Qed.

Lemma sum_permutation (l1 l2 : list Z) : l1 ≡ₚ l2 → sum l1 = sum l2.
Proof.
  induction 1 as [|a l1 l2 _ IH|a b l|l1 l2 l3 _ IH1 _ IH2];
    rewrite ?sum_cons; lia.
Qed.

(** The loop keeps the size a label has and gives a new label the size of
    its first record. *)
Lemma unique_buffers_from (bs : list buffer) (unique : gmap string Z)
    (l : string) :
  foldl (λ unique b,
           if bool_decide (unique !! label b = None)
           then <[label b := size b]> unique else unique) unique bs !! l =
  match unique !! l with
  | Some v => Some v
  | None => size <$> head (filter (λ b, label b = l) bs)
  end.
Proof.
  revert unique. induction bs as [|b bs IH]; intros unique; simpl.
  { by destruct (unique !! l). }
  rewrite IH. rewrite filter_cons.
  case_bool_decide as Hnew.
  - destruct (decide (label b = l)) as [<-|Hne].
    + by rewrite lookup_insert_eq, Hnew.
    + by rewrite lookup_insert_ne.
  - destruct (decide (label b = l)) as [<-|Hne]; [|done].
    by destruct (unique !! label b).
Qed.

Lemma unique_buffers_lookup (bs : list buffer) (l : string) :
  unique_buffers bs !! l = size <$> head (filter (λ b, label b = l) bs).
Proof. unfold unique_buffers. by rewrite unique_buffers_from, lookup_empty. Qed.

Lemma unique_buffers_is_Some (bs : list buffer) (l : string) :
  is_Some (unique_buffers bs !! l) ↔ l ∈ unique_labels bs.
Proof.
  rewrite unique_buffers_lookup, fmap_is_Some, head_is_Some.
  unfold unique_labels. rewrite elem_of_remove_dups, list_elem_of_fmap. split.
  - intros Hne. destruct (filter _ bs) as [|b bs'] eqn:Hf; [done|].
    assert (b ∈ filter (λ b, label b = l) bs) as Hb by (rewrite Hf; by left).
    apply list_elem_of_filter in Hb as [<- Hb]. eauto.
  - intros (b & -> & Hb) Hf.
    by apply (filter_nil_not_elem_of _ _ b) in Hf.
Qed.

(** The items of the map, by the labels in any order without repeats. *)
Lemma unique_buffers_items (bs : list buffer) :
  map_to_list (unique_buffers bs) ≡ₚ
  (λ l, (l, first_size l bs)) <$> unique_labels bs.
Proof.
  apply NoDup_Permutation.
  - apply NoDup_map_to_list.
  - apply NoDup_fmap_2_strong; [|apply NoDup_remove_dups].
    by intros l1 l2 _ _ [= ->].
  - intros [l v]. rewrite elem_of_map_to_list, list_elem_of_fmap. split.
    + intros Hl. exists l. split.
      * unfold first_size. by rewrite <- unique_buffers_lookup, Hl.
      * apply unique_buffers_is_Some. eauto.
    + intros (l' & [= -> ->] & [w Hw]%unique_buffers_is_Some).
      unfold first_size. by rewrite <- unique_buffers_lookup, Hw.
Qed.

(** The summary keeps what the buffer part writes. *)
Lemma compute_summary_buffers (r : results) (summary : gmap string value) :
  compute_summary r = Ok summary → buffers r ≠ [] →
  summary !! "buffer_count"
    = Some (VInt (Z.of_nat (base.size (unique_buffers (buffers r))))) ∧
  summary !! "total_buffer_memory"
    = Some (VInt (sum_values (unique_buffers (buffers r)))) ∧
  summary !! "buffers" = Some (VDict (unique_buffers (buffers r))).
Proof.
  intros Hsum Hne. unfold compute_summary in Hsum.
  destruct (summarize_draws r ∅) as [s1|]; [|done].
  cbn [mbind result_bind] in Hsum.
  destruct (summarize_dispatches r s1) as [s2|]; [|done].
  cbn [mbind result_bind] in Hsum. injection Hsum as <-.
  unfold summarize_buffers. rewrite bool_decide_eq_true_2 by done.
  split_and!.
  - rewrite !lookup_insert_ne by done. apply lookup_insert_eq.
  - rewrite lookup_insert_ne by done. apply lookup_insert_eq.
  - apply lookup_insert_eq.
Qed.

(** C6: when there are buffer records, the total buffer memory of the
    summary is the sum, over the labels taken once each, of the size of the
    first record that carries the label, and the buffer count is the number
    of these labels. *)
Theorem compute_summary_first_size (r : results)
    (summary : gmap string value) :
  compute_summary r = Ok summary → buffers r ≠ [] →
  summary !! "total_buffer_memory"
    = Some (VInt (sum ((λ l, first_size l (buffers r))
                         <$> unique_labels (buffers r)))) ∧
  summary !! "buffer_count" = Some (VInt (len (unique_labels (buffers r)))).
Proof.
  intros Hsum Hne.
  destruct (compute_summary_buffers r summary Hsum Hne) as (-> & -> & _).
  pose proof (unique_buffers_items (buffers r)) as Hitems. split.
  - unfold sum_values. do 2 f_equal.
    rewrite (sum_permutation _ _ (fmap_Permutation snd _ _ Hitems)).
    by rewrite <- list_fmap_compose.
  - do 2 f_equal. unfold len. f_equal.
    rewrite <- length_map_to_list, Hitems. apply length_fmap.
Qed.

(** Three records, two of them with the label [vertices] and the sizes 1024
    and 77: the total is 1024 + 16 and the count is 2. *)
Lemma compute_summary_first_size_witness :
  match compute_summary (Results [] [] sample_buffers [] 0 ∅) with
  | Ok summary =>
      summary !! "total_buffer_memory" = Some (VInt 1040) ∧
      summary !! "buffer_count" = Some (VInt 2)
  | Raise _ => False
  end.
Proof.
  destruct (compute_summary (Results [] [] sample_buffers [] 0 ∅))
    as [summary|e] eqn:Hsum.
  - destruct (compute_summary_first_size _ summary Hsum) as [-> ->]; [done|].
    split; vm_compute; reflexivity.
  - assert (is_ok (compute_summary (Results [] [] sample_buffers [] 0 ∅))
            = true) as Hok by (vm_compute; reflexivity).
    rewrite Hsum in Hok. discriminate Hok.
Defined.

(** ** The draw calls *)

Lemma gap_strip (g rest : string) :
  no_draw g → dot_or_end rest →
  ∀ g1 c g2, g = g1 +:+ String c g2 →
             strip ".draw" (String c g2 +:+ rest) = None.
Proof.
  intros Hg Hrest g1 c g2 ->.
  destruct (strip ".draw" (String c g2 +:+ rest)) as [s0|] eqn:Hs; [|done].
  exfalso. apply strip_Some in Hs.
  destruct g2 as [|c2 [|c3 [|c4 [|c5 g2]]]];
    rewrite ?string_app_cons, ?string_app_nil_l in Hs.
  5:{ injection Hs as -> -> -> -> -> _. by apply (Hg g1 g2). }
  all: destruct Hrest as [->|[rest' ->]]; discriminate Hs.
Qed.

Lemma scan_gap_draw (g rest : string) :
  no_draw g → dot_or_end rest →
  scan draw_pattern (g +:+ rest) 0 = scan draw_pattern rest 0 ∧
  scan draw_indirect_pattern (g +:+ rest) 0
    = scan draw_indirect_pattern rest 0.
Proof.
  intros Hg Hrest. split; apply scan_miss; intros g1 c g2 Hsplit.
  - apply match_at_lit_None, (strip_prefix_None ".draw" "(").
    by apply (gap_strip g rest Hg Hrest g1).
  - apply match_at_lit_None, (strip_prefix_None ".draw" "Indirect(").
    by apply (gap_strip g rest Hg Hrest g1).
Qed.

Lemma scan_draw_10_5 (rest : string) :
  scan draw_pattern (draw_10_5 +:+ rest) 0
    = (draw_10_5, ["10"; "5"; "0"; "0"]) :: scan draw_pattern rest 0 ∧
  scan draw_indirect_pattern (draw_10_5 +:+ rest) 0
    = scan draw_indirect_pattern rest 0.
Proof.
  split.
  - apply (scan_match draw_pattern "." "draw(10,5,0,0)").
    vm_compute. reflexivity.
  - by apply (scan_clash ".drawIndirect(").
Qed.

Lemma scan_draw_10_2 (rest : string) :
  scan draw_pattern (draw_10_2 +:+ rest) 0
    = (draw_10_2, ["10"; "2"; "0"; "0"]) :: scan draw_pattern rest 0 ∧
  scan draw_indirect_pattern (draw_10_2 +:+ rest) 0
    = scan draw_indirect_pattern rest 0.
Proof.
  split.
  - apply (scan_match draw_pattern "." "draw(10,2,0,0)").
    vm_compute. reflexivity.
  - by apply (scan_clash ".drawIndirect(").
Qed.

Lemma dot_or_end_draw (d rest : string) :
  d = draw_10_5 ∨ d = draw_10_2 → dot_or_end (d +:+ rest).
Proof. intros [->| ->]; right; eexists; reflexivity. Qed.

(** The draws of a text made of three draw calls and four gaps. *)
Lemma parse_draws_three (g0 g1 g2 g3 d1 d2 d3 : string) :
  d1 = draw_10_5 ∨ d1 = draw_10_2 → d2 = draw_10_5 ∨ d2 = draw_10_2 →
  d3 = draw_10_5 ∨ d3 = draw_10_2 →
  no_draw g0 → no_draw g1 → no_draw g2 → no_draw g3 →
  parse_draws (g0 +:+ d1 +:+ g1 +:+ d2 +:+ g2 +:+ d3 +:+ g3) =
  Ok ((λ d, DirectDraw 10 (if bool_decide (d = draw_10_5) then 5 else 2) 0 0)
        <$> [d1; d2; d3]).
Proof.
  intros H1 H2 H3 Hg0 Hg1 Hg2 Hg3. unfold parse_draws, finditer.
  rewrite <- (string_app_nil_r g3).
  assert (Hdot3 : dot_or_end "") by by left.
  pose proof (dot_or_end_draw d3 (g3 +:+ "") H3) as Hd3.
  pose proof (dot_or_end_draw d2 (g2 +:+ d3 +:+ g3 +:+ "") H2) as Hd2.
  pose proof (dot_or_end_draw d1 (g1 +:+ d2 +:+ g2 +:+ d3 +:+ g3 +:+ "") H1)
    as Hd1.
  destruct (scan_gap_draw g0 _ Hg0 Hd1) as [-> ->].
  assert (∀ d rest, d = draw_10_5 ∨ d = draw_10_2 →
    scan draw_pattern (d +:+ rest) 0
      = (d, ["10"; (if bool_decide (d = draw_10_5) then "5" else "2");
             "0"; "0"]) :: scan draw_pattern rest 0 ∧
    scan draw_indirect_pattern (d +:+ rest) 0
      = scan draw_indirect_pattern rest 0) as Hdraw.
  { intros d rest [->| ->].
    - apply scan_draw_10_5.
    - apply scan_draw_10_2. }
  destruct (Hdraw d1 (g1 +:+ d2 +:+ g2 +:+ d3 +:+ g3 +:+ "") H1) as [-> ->].
  destruct (scan_gap_draw g1 _ Hg1 Hd2) as [-> ->].
  destruct (Hdraw d2 (g2 +:+ d3 +:+ g3 +:+ "") H2) as [-> ->].
  destruct (scan_gap_draw g2 _ Hg2 Hd3) as [-> ->].
  destruct (Hdraw d3 (g3 +:+ "") H3) as [-> ->].
  destruct (scan_gap_draw g3 _ Hg3 Hdot3) as [-> ->].
  assert (scan draw_pattern "" 0 = []) as -> by done.
  assert (scan draw_indirect_pattern "" 0 = []) as -> by done.
  destruct H1 as [->| ->], H2 as [->| ->], H3 as [->| ->];
    vm_compute; reflexivity.
Qed.

(** What the draw part writes when there are direct draws. *)
Lemma summarize_draws_totals (r : results) (s0 s1 : gmap string value) :
  summarize_draws r s0 = Ok s1 →
  filter (λ d, is_direct d = true) (draws r) ≠ [] →
  s1 !! "total_instances"
    = Some (VInt (sum (instance_count_of
                         <$> filter (λ d, is_direct d = true) (draws r)))) ∧
  s1 !! "total_vertices_drawn"
    = Some (VInt (sum ((λ d, vertex_count_of d * instance_count_of d)
                         <$> filter (λ d, is_direct d = true) (draws r)))).
Proof.
  intros Hs Hdirect. unfold summarize_draws in Hs.
  assert (draws r ≠ []) as Hdraws.
  { intros Hnil. by rewrite Hnil in Hdirect. }
  rewrite (bool_decide_eq_true_2 (draws r ≠ [])) in Hs by done.
  rewrite (bool_decide_eq_true_2 (filter _ _ ≠ [])) in Hs by done.
  case_bool_decide.
  - destruct (truediv (len _) _) as [dpf|]; cbn [mbind result_bind] in Hs;
      [|done].
    destruct (truediv _ _) as [ipf|]; cbn [mbind result_bind] in Hs; [|done].
    injection Hs as <-. split.
    + rewrite !lookup_insert_ne by done. apply lookup_insert_eq.
    + rewrite !lookup_insert_ne by done. apply lookup_insert_eq.
  - injection Hs as <-. split.
    + apply lookup_insert_eq.
    + rewrite !lookup_insert_ne by done. apply lookup_insert_eq.
Qed.

(** The later parts leave the keys of the earlier ones alone. *)
Lemma summarize_dispatches_keeps (r : results) (s1 s2 : gmap string value)
    (key : string) :
  summarize_dispatches r s1 = Ok s2 →
  key ∉ ["dispatch_calls"; "dispatch_types"; "dispatches_per_frame"] →
  s2 !! key = s1 !! key.
Proof.
  intros Hs Hkey. unfold summarize_dispatches in Hs.
  assert (key ≠ "dispatch_calls" ∧ key ≠ "dispatch_types" ∧
          key ≠ "dispatches_per_frame") as (? & ? & ?) by set_solver.
  destruct (for_each _ (dispatches r) ∅) as [types|e];
    repeat case_bool_decide; try destruct (truediv _ _);
    cbn [mbind result_bind] in Hs; try done; injection Hs as <-;
    by rewrite ?lookup_insert_ne by done.
Qed.

Lemma summarize_buffers_keeps (r : results) (s2 : gmap string value)
    (key : string) :
  key ∉ ["buffer_count"; "total_buffer_memory"; "buffers"] →
  summarize_buffers r s2 !! key = s2 !! key.
Proof.
  intros Hkey. unfold summarize_buffers.
  assert (key ≠ "buffer_count" ∧ key ≠ "total_buffer_memory" ∧
          key ≠ "buffers") as (? & ? & ?) by set_solver.
  case_bool_decide; [|done]. by rewrite !lookup_insert_ne by done.
Qed.

Lemma compute_summary_totals (r : results) (summary : gmap string value) :
  compute_summary r = Ok summary →
  filter (λ d, is_direct d = true) (draws r) ≠ [] →
  summary !! "total_instances"
    = Some (VInt (sum (instance_count_of
                         <$> filter (λ d, is_direct d = true) (draws r)))) ∧
  summary !! "total_vertices_drawn"
    = Some (VInt (sum ((λ d, vertex_count_of d * instance_count_of d)
                         <$> filter (λ d, is_direct d = true) (draws r)))).
Proof.
  intros Hsum Hdirect. unfold compute_summary in Hsum.
  destruct (summarize_draws r ∅) as [s1|] eqn:Hs1;
    cbn [mbind result_bind] in Hsum; [|done].
  destruct (summarize_dispatches r s1) as [s2|] eqn:Hs2;
    cbn [mbind result_bind] in Hsum; [|done].
  injection Hsum as <-.
  destruct (summarize_draws_totals r ∅ s1 Hs1 Hdirect) as [<- <-].
  rewrite !summarize_buffers_keeps by set_solver.
  rewrite !(summarize_dispatches_keeps r s1 s2) by (done || set_solver).
  done.
Qed.

(** C8: a text made of the draw calls [.draw(10,5,0,0)] twice and
    [.draw(10,2,0,0)] once, in any order, among text that has no [.draw],
    is parsed, when the parse returns, to two draw configurations with the
    counts 2 and 1, 12 instances and 120 vertices. *)
Theorem parse_three_draws (g0 g1 g2 g3 d1 d2 d3 : string) (parsed : results) :
  [d1; d2; d3] = [draw_10_5; draw_10_5; draw_10_2] ∨
  [d1; d2; d3] = [draw_10_5; draw_10_2; draw_10_5] ∨
  [d1; d2; d3] = [draw_10_2; draw_10_5; draw_10_5] →
  no_draw g0 → no_draw g1 → no_draw g2 → no_draw g3 →
  parse_webgpu_recording (g0 +:+ d1 +:+ g1 +:+ d2 +:+ g2 +:+ d3 +:+ g3)
    = Ok parsed →
  draw_configurations parsed
    = Ok [("vertices=10, instances=5", 2); ("vertices=10, instances=2", 1)] ∧
  summary parsed !! "total_instances" = Some (VInt 12) ∧
  summary parsed !! "total_vertices_drawn" = Some (VInt 120).
Proof.
  intros Hd Hg0 Hg1 Hg2 Hg3 Hparse.
  destruct (parse_webgpu_recording_Ok _ _ Hparse)
    as (Hdraws & _ & _ & _ & _ & Hsum).
  assert (parse_draws (g0 +:+ d1 +:+ g1 +:+ d2 +:+ g2 +:+ d3 +:+ g3) =
          Ok ((λ d, DirectDraw 10
                      (if bool_decide (d = draw_10_5) then 5 else 2) 0 0)
                <$> [d1; d2; d3])) as Hthree.
  { apply parse_draws_three; try done;
      destruct Hd as [[= -> -> ->]|[[= -> -> ->]|[= -> -> ->]]]; auto. }
  assert (draws parsed =
          (λ d, DirectDraw 10 (if bool_decide (d = draw_10_5) then 5 else 2)
                  0 0) <$> [d1; d2; d3]) as Hparsed by congruence.
  destruct (compute_summary_totals _ _ Hsum) as [-> ->].
  { cbn [draws]. by rewrite Hparsed. }
  unfold draw_configurations. cbn [draws]. rewrite Hparsed.
  destruct Hd as [[= -> -> ->]|[[= -> -> ->]|[= -> -> ->]]].
  all: split_and!; vm_compute; reflexivity.
Qed.

(** A text without the substring [.draw], by a test on the text. *)
Lemma no_draw_by_test (g : string) : contains ".draw" g = false → no_draw g.
Proof.
  intros Hg pre post ->.
  assert (contains ".draw" (pre +:+ ".draw" +:+ post) = true) as Htrue
    by (apply contains_spec; eauto).
  congruence.
Qed.

(** Three draw calls among a frame marker and other text. *)
Lemma parse_three_draws_witness :
  match parse_webgpu_recording
          ("D_F0_1 x" +:+ draw_10_5 +:+ ";" +:+ draw_10_2 +:+ " .dra w " +:+
           draw_10_5 +:+ ". end") with
  | Ok parsed =>
      draw_configurations parsed
        = Ok [("vertices=10, instances=5", 2);
              ("vertices=10, instances=2", 1)] ∧
      summary parsed !! "total_instances" = Some (VInt 12) ∧
      summary parsed !! "total_vertices_drawn" = Some (VInt 120)
  | Raise _ => False
  end.
Proof.
  destruct (parse_webgpu_recording _) as [parsed|e] eqn:Hparse.
  - apply (parse_three_draws "D_F0_1 x" ";" " .dra w " ". end"
             draw_10_5 draw_10_2 draw_10_5 parsed);
      [by right; left|by apply no_draw_by_test..|done].
  - assert (is_ok (parse_webgpu_recording
                     ("D_F0_1 x" +:+ draw_10_5 +:+ ";" +:+ draw_10_2 +:+
                      " .dra w " +:+ draw_10_5 +:+ ". end")) = true) as Hok
      by (vm_compute; reflexivity).
    rewrite Hparse in Hok. discriminate Hok.
Defined.

End InspectorProofs.

(** * Further properties of analyze-trace.py *)

Module TraceRunProofs.
Import Py Trace TraceProofs TraceRun.

(** X1: the stack of a node id is empty exactly when the id is 0 or is not
    in the node table; otherwise its first frame is the node itself under
    its function name. *)
Theorem get_full_stack_empty_iff (nodes : gmap Z node) (node_id : Z) :
  (get_full_stack nodes node_id = [] ↔ node_id = 0 ∨ nodes !! node_id = None) ∧
  (∀ nd, node_id ≠ 0 → nodes !! node_id = Some nd →
         head (get_full_stack nodes node_id)
           = Some (node_id, functionName nd)).
Proof.
  destruct (get_full_stack_walk nodes node_id) as (stack & _ & -> & Hw).
  inversion Hw as [cur vis Hf|c vis Hin|c vis Hnone|c nd vis ext Hc Hv Hnd Hw'];
    subst.
  - simpl in Hf. apply bool_decide_eq_false in Hf.
    assert (node_id = 0) as -> by (by apply dec_stable).
    split; [by intuition|done].
  - set_solver.
  - split; [by intuition|congruence].
  - split.
    + split; [done|]. intros [?|?]; congruence.
    + intros nd' _ Hnd'. simpl. congruence.
Qed.

Lemma enumerate_from_cons (i : nat) (node_id : Z) (samples : list Z) :
  enumerate_from i (node_id :: samples)
    = (i, node_id) :: enumerate_from (S i) samples.
Proof. done. Qed.

Lemma sum_cons_l (a : Z) (l : list Z) : sum (a :: l) = a + sum l.
Proof.
  unfold sum. simpl.
  assert (∀ acc l', foldl Z.add acc l' = acc + foldl Z.add 0 l') as Hacc.
  { intros acc l'. revert acc. induction l' as [|b l' IH]; intros acc; simpl;
      [lia|]. rewrite (IH (acc + b)), (IH (0 + b)). lia. }
  rewrite Hacc. lia.
Qed.

Lemma over_samples_cons nodes i node_id samples sel w :
  over_samples nodes i (node_id :: samples) sel w =
  (if sel (get_full_stack nodes node_id) then w i else 0) +
  over_samples nodes (S i) samples sel w.
Proof.
  unfold over_samples. rewrite enumerate_from_cons, filter_cons.
  cbn [fst snd]. destruct (sel (get_full_stack nodes node_id)) eqn:Hsel.
  - rewrite decide_True by done. by rewrite fmap_cons, sum_cons_l.
  - rewrite decide_False by done. lia.
Qed.

(** The four maps after a run, from any aggregates and index on. *)
Lemma analyze_from_by_sample nodes time_deltas i samples a name :
  let a' := analyze_from nodes time_deltas i samples a in
  getd (total_time a') name =
    getd (total_time a) name +
    over_samples nodes i samples (on_stack name) (delta_at time_deltas) ∧
  getd (total_samples a') name =
    getd (total_samples a) name +
    over_samples nodes i samples (on_stack name) (λ _, 1) ∧
  getd (self_time a') name =
    getd (self_time a) name +
    over_samples nodes i samples (is_leaf name) (delta_at time_deltas) ∧
  getd (self_samples a') name =
    getd (self_samples a) name +
    over_samples nodes i samples (is_leaf name) (λ _, 1).
Proof.
  cbv zeta. revert i a.
  induction samples as [|node_id samples IH]; intros i a.
  { unfold over_samples. simpl. unfold sum. simpl. lia. }
  cbn [analyze_from].
  destruct (IH (S i) (analyze_sample nodes time_deltas i node_id a))
    as (-> & -> & -> & ->).
  destruct (analyze_sample_effect nodes time_deltas i node_id a name)
    as (-> & -> & -> & ->).
  rewrite !over_samples_cons. unfold on_stack, is_leaf, delta_at.
  split_and!; lia.
Qed.

(** X2: after a run, the total time (total sample count) of a name is the
    sum of the time deltas (the number) of the samples whose stack has a
    frame of that name, and its self time (self sample count) is the sum of
    the time deltas (the number) of the samples whose leaf has that name; a
    sample past the end of the time deltas counts with the delta 0. *)
Theorem analyze_samples_by_sample (nodes : gmap Z node)
    (samples time_deltas : list Z) (name : string) :
  let a := analyze_samples nodes samples time_deltas in
  getd (total_time a) name =
    over_samples nodes 0 samples (on_stack name) (delta_at time_deltas) ∧
  getd (total_samples a) name =
    over_samples nodes 0 samples (on_stack name) (λ _, 1) ∧
  getd (self_time a) name =
    over_samples nodes 0 samples (is_leaf name) (delta_at time_deltas) ∧
  getd (self_samples a) name =
    over_samples nodes 0 samples (is_leaf name) (λ _, 1).
Proof.
  cbv zeta. unfold analyze_samples.
  destruct (analyze_from_by_sample nodes time_deltas 0 samples empty_analysis
              name) as (-> & -> & -> & ->).
  unfold getd. simpl. rewrite !lookup_empty. simpl. split_and!; lia.
Qed.

(** ** The self metrics add up *)

Lemma total_of_incr (k : string) (v : Z) (m : gmap string Z) :
  total_of (incr k v m) = total_of m + v.
Proof.
  unfold total_of, incr, getd.
  destruct (m !! k) as [w|] eqn:Hk; simpl.
  - rewrite <- insert_delete_eq.
    rewrite map_fold_insert_L; [|intros; lia|apply lookup_delete_eq].
    rewrite (map_fold_delete_L _ _ k w m); [lia|intros; lia|done].
  - rewrite map_fold_insert_L; [lia|intros; lia|done].
Qed.

Lemma analyze_sample_self_total nodes time_deltas i node_id a :
  let a' := analyze_sample nodes time_deltas i node_id a in
  let counted := has_stack (get_full_stack nodes node_id) in
  total_of (self_samples a') =
    total_of (self_samples a) + (if counted then 1 else 0) ∧
  total_of (self_time a') =
    total_of (self_time a) + (if counted then delta_at time_deltas i else 0).
Proof.
  cbv zeta. unfold analyze_sample, has_stack.
  destruct (get_full_stack nodes node_id) as [|[leaf_id leaf_name] rest].
  { rewrite bool_decide_eq_false_2 by (by intros []). lia. }
  rewrite bool_decide_eq_true_2 by done.
  set (a1 := Analysis _ _ _ _ _).
  destruct (walk_stack_self (default 0 (time_deltas !! i))
              ((leaf_id, leaf_name) :: rest) ∅ a1) as [-> ->].
  subst a1. cbn [self_samples self_time]. by rewrite !total_of_incr.
Qed.

(** The self metrics after a run from any aggregates and index on. *)
Lemma analyze_from_self_total nodes time_deltas i samples a :
  let a' := analyze_from nodes time_deltas i samples a in
  total_of (self_samples a') =
    total_of (self_samples a) +
    over_samples nodes i samples has_stack (λ _, 1) ∧
  total_of (self_time a') =
    total_of (self_time a) +
    over_samples nodes i samples has_stack (delta_at time_deltas).
Proof.
  cbv zeta. revert i a.
  induction samples as [|node_id samples IH]; intros i a.
  { unfold over_samples. simpl. unfold sum. simpl. lia. }
  cbn [analyze_from].
  destruct (IH (S i) (analyze_sample nodes time_deltas i node_id a))
    as [-> ->].
  destruct (analyze_sample_self_total nodes time_deltas i node_id a)
    as [-> ->].
  rewrite !over_samples_cons. split; lia.
Qed.

(** X3: after a run, the self sample counts of all names add up to the
    number of samples that have a stack, and the self times add up to the
    sum of the time deltas of these samples: every sample that is not
    skipped is attributed to one leaf, once. *)
Theorem analyze_samples_self_adds_up (nodes : gmap Z node)
    (samples time_deltas : list Z) :
  let a := analyze_samples nodes samples time_deltas in
  total_of (self_samples a) = over_samples nodes 0 samples has_stack (λ _, 1) ∧
  total_of (self_time a)
    = over_samples nodes 0 samples has_stack (delta_at time_deltas).
Proof.
  cbv zeta. unfold analyze_samples.
  destruct (analyze_from_self_total nodes time_deltas 0 samples
              empty_analysis) as [-> ->].
  unfold total_of. cbn [self_samples self_time empty_analysis].
  rewrite !map_fold_empty. split; lia.
Qed.

(** ** The call tree *)

Lemma call_count_incr2 (ct : gmap string (gmap string Z)) p c p' c' :
  call_count (incr2 p c ct) p' c' =
  call_count ct p' c' + (if bool_decide (c = c' ∧ p = p') then 1 else 0).
Proof.
  unfold call_count, incr2. destruct (decide (p = p')) as [->|Hp].
  - rewrite lookup_insert_eq. simpl. rewrite getd_incr.
    destruct (decide (c = c')) as [->|Hc].
    + by rewrite !bool_decide_eq_true_2.
    + by rewrite !bool_decide_eq_false_2 by tauto.
  - rewrite lookup_insert_ne by done.
    rewrite bool_decide_eq_false_2 by tauto. lia.
Qed.

Lemma walk_stack_edges delta stack seen a p c :
  call_count (call_tree (walk_stack delta stack seen a)) p c =
  call_count (call_tree a) p c + edges c p stack.
Proof.
  revert seen a. induction stack as [|[nid name] rest IH]; intros seen a.
  { simpl. lia. }
  cbn [walk_stack]. rewrite IH.
  assert (call_tree (count_total delta name seen a) = call_tree a) as Hct.
  { unfold count_total. by case_bool_decide. }
  destruct rest as [|[nid' parent_name] rest]; simpl.
  - rewrite Hct. lia.
  - rewrite call_count_incr2, Hct. lia.
Qed.

(** X4: after a run, the call-tree count of the edge from [parent] to
    [child] is the number of places, over the stacks of all samples, where a
    frame named [child] stands directly below a frame named [parent]. *)
Theorem analyze_samples_call_tree_edges (nodes : gmap Z node)
    (samples time_deltas : list Z) (parent child : string) :
  call_count (call_tree (analyze_samples nodes samples time_deltas))
    parent child
  = sum ((λ node_id, edges child parent (get_full_stack nodes node_id))
           <$> samples).
Proof.
  unfold analyze_samples.
  assert (∀ i a,
    call_count (call_tree (analyze_from nodes time_deltas i samples a))
      parent child =
    call_count (call_tree a) parent child +
    sum ((λ node_id, edges child parent (get_full_stack nodes node_id))
           <$> samples)) as Hrun.
  { induction samples as [|node_id samples IH]; intros i a.
    { simpl. unfold sum. simpl. lia. }
    cbn [analyze_from]. rewrite IH, fmap_cons, sum_cons_l.
    unfold analyze_sample.
    destruct (get_full_stack nodes node_id) as [|[leaf_id leaf_name] rest]
      eqn:Hstack.
    { simpl. lia. }
    rewrite walk_stack_edges. cbn [call_tree]. lia. }
  rewrite Hrun. unfold call_count, getd. cbn [call_tree empty_analysis].
  rewrite lookup_empty. simpl. rewrite lookup_empty. simpl. lia.
Qed.

(** ** Signs *)

Lemma incr_bound (lo v : Z) (k : string) (m : gmap string Z) :
  lo ≤ v → 0 ≤ v →
  (∀ n w, m !! n = Some w → lo ≤ w) →
  ∀ n w, incr k v m !! n = Some w → lo ≤ w.
Proof.
  intros Hlo Hv Hm n w. unfold incr, getd.
  destruct (decide (k = n)) as [->|Hne].
  - rewrite lookup_insert_eq. intros [= <-].
    destruct (m !! n) as [w'|] eqn:Hn; simpl; [|lia].
    specialize (Hm n w' Hn). lia.
  - rewrite lookup_insert_ne by done. apply Hm.
Qed.

Lemma walk_stack_counts delta stack seen a :
  counts_positive a → counts_positive (walk_stack delta stack seen a).
Proof.
  revert seen a.
  induction stack as [|[nid name] rest IH]; intros seen a Ha; [done|].
  cbn [walk_stack]. apply IH.
  assert (counts_positive (count_total delta name seen a)) as Ha1.
  { unfold count_total. case_bool_decide; [|done].
    destruct Ha as (H1 & H2 & H5).
    split_and!; cbn [self_samples total_samples call_tree]; try done.
    by apply incr_bound. }
  destruct rest as [|[nid' parent_name] rest]; [done|].
  cbn [count_edge]. destruct Ha1 as (H1 & H2 & H5).
  split_and!; cbn [self_samples total_samples call_tree]; try done.
  intros p d c w. unfold incr2.
  destruct (decide (parent_name = p)) as [->|Hne].
  - rewrite lookup_insert_eq. intros [= <-]. apply incr_bound; [lia|lia|].
    intros n w'. destruct (call_tree _ !! p) as [d|] eqn:Hp; simpl.
    + by apply (H5 p d).
    + by rewrite lookup_empty.
  - rewrite lookup_insert_ne by done. apply H5.
Qed.

Lemma walk_stack_times delta stack seen a :
  0 ≤ delta → times_nonnegative a →
  times_nonnegative (walk_stack delta stack seen a).
Proof.
  intros Hdelta. revert seen a.
  induction stack as [|[nid name] rest IH]; intros seen a Ha; [done|].
  cbn [walk_stack]. apply IH.
  assert (times_nonnegative (count_total delta name seen a)) as Ha1.
  { unfold count_total. case_bool_decide; [|done].
    destruct Ha as (H3 & H4).
    split; cbn [self_time total_time]; try done.
    by apply incr_bound. }
  by destruct rest as [|[nid' parent_name] rest].
Qed.

Lemma analyze_samples_times_nonnegative nodes samples time_deltas :
  Forall (λ d, 0 ≤ d) time_deltas →
  times_nonnegative (analyze_samples nodes samples time_deltas).
Proof.
  intros Hpos. unfold analyze_samples.
  assert (times_nonnegative empty_analysis) as Hempty.
  { split; intros ?; intros; cbn in *; try rewrite lookup_empty in *; done. }
  revert Hempty. generalize empty_analysis as a. generalize 0%nat as i.
  induction samples as [|node_id samples IH]; intros i a Ha; [done|].
  cbn [analyze_from]. apply IH. unfold analyze_sample.
  assert (0 ≤ default 0 (time_deltas !! i)) as Hd.
  { destruct (time_deltas !! i) as [d|] eqn:Hi; simpl; [|done].
    by apply (Forall_lookup_1 _ _ _ _ Hpos Hi). }
  destruct (get_full_stack nodes node_id) as [|[leaf_id leaf_name] rest];
    [done|].
  apply walk_stack_times; [done|].
  destruct Ha as (H3 & H4).
  split; cbn [self_time total_time]; try done.
  by apply incr_bound.
Qed.

(** X5: after a run, every sample count and every call-tree count that the
    aggregates store is at least 1 (a name or an edge that was never
    counted has no entry); and when no time delta is negative, every time
    they store is at least 0. *)
Theorem analyze_samples_signs (nodes : gmap Z node)
    (samples time_deltas : list Z) :
  counts_positive (analyze_samples nodes samples time_deltas) ∧
  (Forall (λ d, 0 ≤ d) time_deltas →
   times_nonnegative (analyze_samples nodes samples time_deltas)).
Proof.
  split; [|apply analyze_samples_times_nonnegative].
  unfold analyze_samples.
  assert (counts_positive empty_analysis) as Hempty.
  { split_and!; intros ?; intros; cbn in *;
      try rewrite lookup_empty in *; done. }
  revert Hempty. generalize empty_analysis as a. generalize 0%nat as i.
  induction samples as [|node_id samples IH]; intros i a Ha; [done|].
  cbn [analyze_from]. apply IH. unfold analyze_sample.
  destruct (get_full_stack nodes node_id) as [|[leaf_id leaf_name] rest];
    [done|].
  apply walk_stack_counts.
  destruct Ha as (H1 & H2 & H5).
  split_and!; cbn [self_samples total_samples call_tree]; try done.
  by apply incr_bound.
Qed.

(** ** The active time *)

Lemma total_of_delete (k : string) (m : gmap string Z) :
  total_of m = getd m k + total_of (delete k m).
Proof.
  unfold total_of, getd. destruct (m !! k) as [w|] eqn:Hk; simpl.
  - by rewrite (map_fold_delete_L _ _ k w m); [|intros; lia|].
  - by rewrite delete_id.
Qed.

Lemma total_of_nonneg (m : gmap string Z) :
  (∀ n w, m !! n = Some w → 0 ≤ w) → 0 ≤ total_of m.
Proof.
  unfold total_of. induction m as [|k v m Hk Hfold IH] using map_first_key_ind.
  { by rewrite map_fold_empty. }
  intros Hm. rewrite map_fold_insert_first_key by done.
  assert (0 ≤ v) by (apply (Hm k); by rewrite lookup_insert_eq).
  assert (0 ≤ map_fold (λ _ v acc, v + acc) 0 m); [|lia].
  apply IH. intros n w Hn. apply (Hm n).
  rewrite lookup_insert_ne; [done|]. intros ->. congruence.
Qed.

Lemma idle_time_below_self_time (a : analysis) :
  (∀ n w, self_time a !! n = Some w → 0 ≤ w) →
  0 ≤ idle_time_us a ≤ total_of (self_time a).
Proof.
  intros Hm. unfold idle_time_us.
  assert (∀ n, 0 ≤ getd (self_time a) n) as Hget.
  { intros n. unfold getd. destruct (self_time a !! n) eqn:Hn; simpl;
      [by eapply Hm|done]. }
  split; [pose proof (Hget "(idle)"); pose proof (Hget "(program)");
          pose proof (Hget "(root)"); lia|].
  rewrite (total_of_delete "(idle)" (self_time a)).
  rewrite (total_of_delete "(program)" (delete "(idle)" (self_time a))).
  rewrite (total_of_delete "(root)"
             (delete "(program)" (delete "(idle)" (self_time a)))).
  unfold getd at 5 6. rewrite !lookup_delete_ne by done.
  fold (getd (self_time a) "(program)"). fold (getd (self_time a) "(root)").
  assert (0 ≤ total_of (delete "(root)"
            (delete "(program)" (delete "(idle)" (self_time a))))); [|lia].
  apply total_of_nonneg. intros n w Hn.
  do 3 apply lookup_delete_Some in Hn as [_ Hn]. by eapply Hm.
Qed.

Lemma sum_drop (i : nat) (l : list Z) :
  sum (drop i l) = default 0 (l !! i) + sum (drop (S i) l).
Proof.
  revert i. induction l as [|d l IH]; intros i.
  { by rewrite !drop_nil. }
  destruct i as [|i]; simpl.
  - rewrite drop_0. by rewrite sum_cons_l.
  - apply IH.
Qed.

Lemma sum_nonneg (l : list Z) : Forall (λ d, 0 ≤ d) l → 0 ≤ sum l.
Proof.
  induction 1 as [|d l Hd _ IH]; [done|]. rewrite sum_cons_l. lia.
Qed.

Lemma over_samples_below_sum nodes time_deltas i samples sel :
  Forall (λ d, 0 ≤ d) time_deltas →
  0 ≤ over_samples nodes i samples sel (delta_at time_deltas)
    ≤ sum (drop i time_deltas).
Proof.
  intros Hpos. revert i.
  induction samples as [|node_id samples IH]; intros i.
  { unfold over_samples. simpl. unfold sum at 1 2. simpl.
    split; [done|]. apply sum_nonneg. by apply Forall_drop. }
  rewrite over_samples_cons, sum_drop. specialize (IH (S i)).
  assert (0 ≤ delta_at time_deltas i) as Hd.
  { unfold delta_at. destruct (time_deltas !! i) as [d|] eqn:Hi; simpl;
      [|done]. by apply (Forall_lookup_1 _ _ _ _ Hpos Hi). }
  unfold delta_at in *. destruct (sel _); lia.
Qed.

Lemma total_time_us_sum (time_deltas : list Z) :
  total_time_us time_deltas = sum time_deltas.
Proof. unfold total_time_us. case_bool_decide as Hnil; [done|]. by subst. Qed.

(** The idle time of a run is a part of the time of its samples. *)
Lemma idle_time_range nodes samples time_deltas :
  Forall (λ d, 0 ≤ d) time_deltas →
  0 ≤ idle_time_us (analyze_samples nodes samples time_deltas)
    ≤ sum time_deltas.
Proof.
  intros Hpos.
  destruct (analyze_samples_times_nonnegative nodes samples time_deltas Hpos)
    as [Hself _].
  pose proof (idle_time_below_self_time _ Hself) as Hidle.
  pose proof (analyze_from_self_total nodes time_deltas 0 samples
                empty_analysis) as [_ Htotal].
  fold (analyze_samples nodes samples time_deltas) in Htotal.
  pose proof (over_samples_below_sum nodes time_deltas 0 samples has_stack
                Hpos) as Hover.
  rewrite drop_0 in Hover. rewrite Htotal in Hidle.
  unfold total_of in Hidle. cbn [self_time empty_analysis] in Hidle.
  rewrite map_fold_empty in Hidle. lia.
Qed.

(** X8: when no time delta is negative, the active time of the header, the
    total time less the self times of (idle), (program) and (root), lies
    between 0 and the total time: the active share is a share. *)
Theorem active_time_between (nodes : gmap Z node)
    (samples time_deltas : list Z) :
  Forall (λ d, 0 ≤ d) time_deltas →
  0 ≤ active_time_us nodes samples time_deltas ≤ total_time_us time_deltas.
Proof.
  intros Hpos. unfold active_time_us. rewrite total_time_us_sum.
  pose proof (idle_time_range nodes samples time_deltas Hpos). lia.
Qed.

(** Two samples of [inner] with the deltas 100 and 200. *)
Lemma active_time_between_witness :
  Forall (λ d, 0 ≤ d) [100; 200] ∧
  0 ≤ active_time_us nested_table [2; 2] [100; 200]
    ≤ total_time_us [100; 200].
Proof.
  assert (Forall (λ d, 0 ≤ d) [100; 200]) as Hpos
    by (repeat constructor; lia).
  split; [done|]. by apply active_time_between.
Defined.

End TraceRunProofs.

(** * The range of true division *)

Module FloatProofs.
Import Py TraceText.

(** ** The number of binary digits *)

Lemma digits2_pos_bounds (p : positive) :
  2 ^ (Zpos (digits2_pos p) - 1) ≤ Zpos p < 2 ^ Zpos (digits2_pos p).
Proof.
  induction p as [p IH|p IH|]; cbn [digits2_pos].
  - rewrite Pos2Z.inj_succ.
    replace (Z.succ (Zpos (digits2_pos p)) - 1) with (Z.succ (Zpos (digits2_pos p) - 1)) by lia.
    rewrite !Z.pow_succ_r by lia. lia.
  - rewrite Pos2Z.inj_succ.
    replace (Z.succ (Zpos (digits2_pos p)) - 1) with (Z.succ (Zpos (digits2_pos p) - 1)) by lia.
    rewrite !Z.pow_succ_r by lia. lia.
  - simpl. lia.
Qed.

Lemma Zdigits2_nonneg (m : Z) : 0 ≤ Zdigits2 m.
Proof. destruct m; simpl; lia. Qed.

Lemma Zdigits2_le (m k : Z) : 0 ≤ m → 0 ≤ k → m < 2 ^ k → Zdigits2 m ≤ k.
Proof.
  intros Hm Hk Hlt. destruct m as [|p|p]; simpl; [done| |lia].
  destruct (digits2_pos_bounds p) as [Hlo _].
  destruct (decide (Zpos (digits2_pos p) ≤ k)) as [|Hgt]; [done|].
  assert (2 ^ k ≤ 2 ^ (Zpos (digits2_pos p) - 1)) by (apply Z.pow_le_mono_r; lia).
  lia.
Qed.

Lemma Zdigits2_lt_pow (m : Z) : 0 ≤ m → m < 2 ^ Zdigits2 m.
Proof.
  intros Hm. destruct m as [|p|p]; simpl; [lia| |lia].
  apply digits2_pos_bounds.
Qed.

Lemma Zdigits2_mono (a b : Z) : 0 ≤ a ≤ b → Zdigits2 a ≤ Zdigits2 b.
Proof.
  intros [Ha Hab]. apply Zdigits2_le; [done|apply Zdigits2_nonneg|].
  pose proof (Zdigits2_lt_pow b). lia.
Qed.

Lemma Zdigits2_succ (m : Z) : 0 ≤ m → Zdigits2 (m + 1) ≤ Zdigits2 m + 1.
Proof.
  intros Hm. pose proof (Zdigits2_nonneg m). pose proof (Zdigits2_lt_pow m Hm).
  apply Zdigits2_le; [lia|lia|]. rewrite Z.pow_add_r by lia. lia.
Qed.

Lemma Zdigits2_shift (m s : Z) :
  0 ≤ m → 0 ≤ s → Zdigits2 (m * 2 ^ s) ≤ Zdigits2 m + s.
Proof.
  intros Hm Hs. pose proof (Zdigits2_nonneg m). pose proof (Zdigits2_lt_pow m Hm).
  assert (0 < 2 ^ s) by (apply Z.pow_pos_nonneg; lia).
  apply Zdigits2_le; [nia|lia|]. rewrite Z.pow_add_r by lia. nia.
Qed.

Lemma shr_1_m (s : shr_record) :
  0 ≤ shr_m s →
  0 ≤ shr_m (shr_1 s) ∧
  Zdigits2 (shr_m (shr_1 s)) = Z.max 0 (Zdigits2 (shr_m s) - 1).
Proof.
  destruct s as [m r st]. simpl. intros Hm.
  destruct m as [|[p|p|]|p]; simpl; try lia.
Qed.

Lemma iter_shr_1_m (p : positive) (s : shr_record) :
  0 ≤ shr_m s →
  0 ≤ shr_m (SpecFloat.iter_pos shr_1 p s) ∧
  Zdigits2 (shr_m (SpecFloat.iter_pos shr_1 p s)) = Z.max 0 (Zdigits2 (shr_m s) - Zpos p).
Proof.
  revert s. induction p as [p IH|p IH|]; intros s Hs; cbn [SpecFloat.iter_pos].
  - destruct (shr_1_m s Hs) as [H1 E1].
    destruct (IH _ H1) as [H2 E2]. destruct (IH _ H2) as [H3 E3].
    split; [done|]. rewrite E3, E2, E1. lia.
  - destruct (IH _ Hs) as [H2 E2]. destruct (IH _ H2) as [H3 E3].
    split; [done|]. rewrite E3, E2. lia.
  - apply shr_1_m; done.
Qed.

Lemma shr_fexp_bounds (m e : Z) (l : location) :
  0 ≤ m →
  let r := shr_fexp prec emax m e l in
  0 ≤ shr_m r.1 ∧
  r.2 ≤ Z.max (Z.max e (-1074)) (Zdigits2 m + e - 53) ∧
  Zdigits2 (shr_m r.1) + r.2 ≤ Z.max (Zdigits2 m + e) (-1074).
Proof.
  intros Hm. cbv zeta. unfold shr_fexp, shr.
  assert (shr_m (shr_record_of_loc m l) = m) as Hrec.
  { destruct l as [|[]]; done. }
  pose proof (Zdigits2_nonneg m).
  unfold fexp, emin, prec, emax.
  destruct (Z.max (Zdigits2 m + e - 53) (3 - 1024 - 53) - e) as [|n|n] eqn:Hn;
    cbn [fst snd]; rewrite ?Hrec.
  - lia.
  - destruct (iter_shr_1_m n (shr_record_of_loc m l)) as [H1 E1]; [by rewrite Hrec|].
    rewrite Hrec in E1. split; [done|]. rewrite E1. lia.
  - lia.
Qed.

Lemma round_nearest_even_bounds (m : Z) (l : location) :
  0 ≤ m → m ≤ round_nearest_even m l ≤ m + 1.
Proof.
  intros Hm. unfold round_nearest_even.
  destruct l as [|[]]; try destruct (Z.even m); lia.
Qed.

Lemma binary_round_aux_finite (sx : bool) (m e : Z) (l : location) :
  0 ≤ m → e ≤ 971 → Zdigits2 m + e ≤ 1023 →
  is_infinity (binary_round_aux prec emax sx m e l) = false.
Proof.
  intros Hm He Hd. unfold binary_round_aux.
  destruct (shr_fexp_bounds m e l Hm) as (H1 & E1 & D1).
  destruct (shr_fexp prec emax m e l) as [mrs' e'] eqn:Hshr. cbn [fst snd] in *.
  pose proof (round_nearest_even_bounds (shr_m mrs') (loc_of_shr_record mrs') H1) as [Hr1 Hr2].
  set (m2 := round_nearest_even (shr_m mrs') (loc_of_shr_record mrs')) in *.
  assert (0 ≤ m2) as Hm2 by lia.
  destruct (shr_fexp_bounds m2 e' loc_Exact Hm2) as (H2 & E2 & D2).
  destruct (shr_fexp prec emax m2 e' loc_Exact) as [mrs'' e''] eqn:Hshr2.
  cbn [fst snd] in *.
  assert (Zdigits2 m2 ≤ Zdigits2 (shr_m mrs') + 1).
  { trans (Zdigits2 (shr_m mrs' + 1)); [apply Zdigits2_mono; lia|by apply Zdigits2_succ]. }
  destruct (shr_m mrs'') as [|p|p]; [done| |done].
  unfold emax, prec. rewrite (proj2 (Z.leb_le e'' (1024 - 53))) by lia. done.
Qed.

Lemma SFdiv_finite (sa sb : bool) (ma mb : positive) :
  Zdigits2 (Zpos ma) ≤ 1023 →
  is_infinity (SFdiv prec emax (S754_finite sa ma 0) (S754_finite sb mb 0)) = false.
Proof.
  intros Hd. unfold SFdiv, SFdiv_core_binary.
  remember (Z.min (fexp prec emax (Zdigits2 (Zpos ma) + 0 - (Zdigits2 (Zpos mb) + 0))) (0 - 0)) as e' eqn:He'.
  assert (e' ≤ 0) as Hle by lia.
  remember (match 0 - 0 - e' with Zpos _ => Z.shiftl (Zpos ma) (0 - 0 - e') | Z0 => Zpos ma | Zneg _ => 0 end) as m' eqn:Hm'.
  assert (0 ≤ m' ∧ Zdigits2 m' + e' ≤ Zdigits2 (Zpos ma)) as [Hpos Hdm'].
  { rewrite Hm'. destruct (0 - 0 - e') as [|s|s] eqn:Hs.
    - split; lia.
    - rewrite Z.shiftl_mul_pow2 by lia.
      assert (0 < 2 ^ Zpos s) by (apply Z.pow_pos_nonneg; lia).
      split; [nia|].
      pose proof (Zdigits2_shift (Zpos ma) (Zpos s) ltac:(lia) ltac:(lia)). lia.
    - lia. }
  destruct (Z.div_eucl m' (Zpos mb)) as [q r] eqn:Hdiv.
  assert (0 ≤ q ≤ m') as Hq.
  { pose proof (Z.div_eucl_eq m' (Zpos mb) ltac:(lia)) as Heq. rewrite Hdiv in Heq.
    pose proof (Z.mod_pos_bound m' (Zpos mb) ltac:(lia)) as Hmod.
    unfold Z.modulo in Hmod. rewrite Hdiv in Hmod. nia. }
  apply binary_round_aux_finite; [lia|lia|].
  pose proof (Zdigits2_mono q m' Hq). lia.
Qed.

Lemma Zdigits2_abs (a : Z) : a ≠ 0 → Z.abs a < 2 ^ 1023 →
  match a with Zpos p | Zneg p => Zdigits2 (Zpos p) ≤ 1023 | Z0 => True end.
Proof.
  intros Ha Hlt. destruct a as [|p|p]; [done| |]; apply Zdigits2_le; lia.
Qed.

Lemma truediv_returns (a b : Z) :
  b ≠ 0 → Z.abs a < 2 ^ 1023 → ∃ q, truediv a b = Ok q.
Proof.
  intros Hb Ha. unfold truediv. rewrite bool_decide_eq_false_2 by done.
  case_bool_decide as Ha0; [eauto|].
  pose proof (Zdigits2_abs a Ha0 Ha) as Hd.
  destruct a as [|pa|pa]; [done| |]; destruct b as [|pb|pb]; try done; cbn [operand].
  all: match goal with |- context [SFdiv ?p ?e ?x ?y] =>
         pose proof (SFdiv_finite _ _ _ pb Hd : is_infinity (SFdiv p e x y) = false) as Hfin;
         destruct (SFdiv p e x y); try discriminate Hfin; eauto end.
Qed.

End FloatProofs.

(** * Further properties of the reporters of analyze-trace.py *)

Module TraceTextProofs.
Import Py Trace TraceRun TraceText ReProofs IntProofs TraceProofs
  TraceRunProofs FloatProofs.

(** ** The classifier returns *)

Lemma share_returns (t total_time_us : Z) :
  Z.abs t < 2 ^ 1023 → ∃ pct, share t total_time_us = Ok pct.
Proof.
  intros Ht. unfold share. case_bool_decide as Hne; [|eauto].
  destruct (truediv_returns t total_time_us Hne Ht) as [q ->].
  cbn [mbind result_bind]. eauto.
Qed.

Lemma classify_returns self_time total_time_us categories name t :
  Z.abs t < 2 ^ 1023 → Z.abs (getd self_time name) < 2 ^ 1023 →
  ∃ categories',
    classify self_time total_time_us categories (name, t) = Ok categories'.
Proof.
  intros Ht Hs. unfold classify.
  destruct (share_returns t total_time_us Ht) as [pct ->].
  cbn [mbind result_bind].
  destruct (share_returns (getd self_time name) total_time_us Hs)
    as [self_pct ->].
  cbn [mbind result_bind].
  destruct (lt_half pct); [eauto|]. destruct (category_of name); eauto.
Qed.

(** X6: the classifier raises nothing, whatever the denominator (0
    included), when every total time and every self time is below 2^1023 in
    absolute value. *)
Theorem bottleneck_categories_returns (total_time self_time : gmap string Z)
    (total_time_us : Z) :
  (∀ name t, total_time !! name = Some t → Z.abs t < 2 ^ 1023) →
  (∀ name t, self_time !! name = Some t → Z.abs t < 2 ^ 1023) →
  ∃ categories,
    bottleneck_categories total_time self_time total_time_us = Ok categories.
Proof.
  intros Htotal Hself. unfold bottleneck_categories.
  assert (∀ name, Z.abs (getd self_time name) < 2 ^ 1023) as Hself'.
  { intros name. unfold getd.
    destruct (self_time !! name) as [t|] eqn:Hn; simpl; [by eapply Hself|].
    apply Z.pow_pos_nonneg; lia. }
  assert (∀ item, item ∈ map_to_list total_time → Z.abs item.2 < 2 ^ 1023)
    as Hitems.
  { intros [name t] Hin%elem_of_map_to_list. by eapply Htotal. }
  generalize (∅ : gmap string (list entry)) as categories.
  induction (map_to_list total_time) as [|[name t] items IH];
    intros categories; [by eexists|].
  cbn [for_each].
  destruct (classify_returns self_time total_time_us categories name t)
    as [categories' ->]; [apply (Hitems (name, t)); by left|done|].
  cbn [mbind result_bind]. apply IH. intros item Hitem. apply Hitems.
  by right.
Qed.

(** The maps of the bottleneck example are within the range. *)
Lemma bottleneck_categories_returns_witness :
  ∃ categories,
    bottleneck_categories sample_total_time sample_self_time 1000
      = Ok categories.
Proof.
  apply bottleneck_categories_returns.
  - intros name t Ht.
    assert (0 ≤ t ≤ 900); [|assert (2 ^ 10 ≤ 2 ^ 1023)
      by (apply Z.pow_le_mono_r; lia); lia].
    unfold sample_total_time in Ht.
    repeat (apply lookup_insert_Some in Ht as [[_ <-]|[_ Ht]]; [lia|]).
    apply lookup_singleton_Some in Ht as [_ <-]. lia.
  - intros name t Ht.
    assert (0 ≤ t ≤ 900); [|assert (2 ^ 10 ≤ 2 ^ 1023)
      by (apply Z.pow_le_mono_r; lia); lia].
    unfold sample_self_time in Ht.
    repeat (apply lookup_insert_Some in Ht as [[_ <-]|[_ Ht]]; [lia|]).
    apply lookup_singleton_Some in Ht as [_ <-]. lia.
Defined.

(** X7: with the denominator 0 the guard of line 238 makes every percentage
    the integer 0, so every function is passed over and no category is
    made, whatever the times are. *)
Theorem bottleneck_categories_zero_denominator
    (total_time self_time : gmap string Z) :
  bottleneck_categories total_time self_time 0 = Ok ∅.
Proof.
  unfold bottleneck_categories.
  generalize (∅ : gmap string (list entry)) as categories.
  induction (map_to_list total_time) as [|[name t] items IH];
    intros categories; [done|].
  cbn [for_each]. unfold classify at 1. unfold share.
  rewrite bool_decide_eq_false_2 by (by intros []).
  cbn [mbind result_bind lt_half].
  rewrite bool_decide_eq_true_2 by done.
  cbn [mbind result_bind]. apply IH.
Qed.

(** ** format_time *)

(** A time in the range of the floats has fewer digits than the limit. *)
Lemma float_range_convertible (us : Z) : Z.abs us < 2 ^ 1023 → convertible us.
Proof.
  intros Hus. unfold convertible. pose proof float_range_in_limit. lia.
Qed.

(** X9: a time below 2^1023 microseconds is rendered in seconds from
    1000000 on, in milliseconds from 1000 on, both as the quotient of the
    true division, and in microseconds as it is below 1000, which takes in
    the negative times that have no more than 4300 digits; a negative time
    of more digits is not rendered: the conversion of the number to text
    raises [ValueError]. *)
Theorem format_time_units (us : Z) :
  us < 2 ^ 1023 →
  (convertible us ∧
   ∃ text, format_time us = Ok text ∧
     match text with
     | Microseconds n => n = us ∧ us < 1000
     | Milliseconds f => 1000 ≤ us < 1000000 ∧ truediv us 1000 = Ok f
     | Seconds f => 1000000 ≤ us ∧ truediv us 1000000 = Ok f
     end) ∨
  (¬ convertible us ∧ us < 0 ∧ format_time us = Raise ValueError).
Proof.
  intros Hus. unfold format_time.
  case_bool_decide as Hs.
  { left. split; [apply float_range_convertible; lia|].
    destruct (truediv_returns us 1000000) as [f Hf]; [done|lia|].
    rewrite Hf. cbn [mbind result_bind]. by exists (Seconds f). }
  case_bool_decide as Hms.
  { left. split; [apply float_range_convertible; lia|].
    destruct (truediv_returns us 1000) as [f Hf]; [done|lia|].
    rewrite Hf. cbn [mbind result_bind]. exists (Milliseconds f).
    split; [done|]. split; [lia|done]. }
  unfold str_int. case_bool_decide as Hc; cbn [mbind result_bind].
  - left. split; [done|]. exists (Microseconds us).
    split; [done|]. split; [done|lia].
  - right. split_and!; [done| |done].
    destruct (decide (us < 0)) as [|Hpos]; [done|]. destruct Hc.
    apply float_range_convertible.
    assert (2 ^ 10 ≤ 2 ^ 1023) by (apply Z.pow_le_mono_r; lia). lia.
Qed.

(** A negative time. *)
Lemma format_time_units_witness :
  (convertible (-5) ∧
   ∃ text, format_time (-5) = Ok text ∧
     match text with
     | Microseconds n => n = -5 ∧ -5 < 1000
     | Milliseconds f => 1000 ≤ -5 < 1000000 ∧ truediv (-5) 1000 = Ok f
     | Seconds f => 1000000 ≤ -5 ∧ truediv (-5) 1000000 = Ok f
     end) ∨
  (¬ convertible (-5) ∧ -5 < 0 ∧ format_time (-5) = Raise ValueError).
Proof. apply (format_time_units (-5)). done. Defined.

(** ** print_report *)

Lemma format_time_returns (us : Z) :
  Z.abs us < 2 ^ 1023 → ∃ text, format_time us = Ok text.
Proof.
  intros Hus. unfold format_time.
  case_bool_decide; [|case_bool_decide].
  - destruct (truediv_returns us 1000000) as [f ->]; [done|lia|].
    by eexists.
  - destruct (truediv_returns us 1000) as [f ->]; [done|lia|]. by eexists.
  - rewrite str_int_Ok by by apply float_range_convertible. by eexists.
Qed.

(** X10: when no time delta is negative and the deltas add up to a total
    that is not 0 and is below 2^1023, print_report raises nothing before
    its sections: it calls them with the aggregates, the sample count, the
    total time and the active time, and returns when they do; the header
    carries the sample count and the integer quotient of the total time by
    the sample count (by 1 without samples). *)
Theorem print_report_returns {R : Type}
    (print_sections : analysis → Z → Z → Z → result R)
    (nodes : gmap Z node) (samples time_deltas : list Z) (sections : R) :
  Forall (λ d, 0 ≤ d) time_deltas →
  sum time_deltas ≠ 0 → sum time_deltas < 2 ^ 1023 →
  print_sections (analyze_samples nodes samples time_deltas)
    (Z.of_nat (length samples)) (total_time_us time_deltas)
    (active_time_us nodes samples time_deltas) = Ok sections →
  ∃ h, print_report print_sections nodes samples time_deltas
         = Ok (h, sections) ∧
       total_samples_line h = Z.of_nat (length samples) ∧
       sample_interval_line h =
         sum time_deltas `div` Z.max (Z.of_nat (length samples)) 1.
Proof.
  intros Hpos Hne Hlt Hsections.
  pose proof (idle_time_range nodes samples time_deltas Hpos) as Hidle.
  pose proof (total_time_us_sum time_deltas) as Htotal.
  assert (0 ≤ active_time_us nodes samples time_deltas ≤ sum time_deltas)
    as Hactive by (unfold active_time_us; lia).
  unfold print_report.
  change (if bool_decide (time_deltas ≠ []) then sum time_deltas else 0)
    with (total_time_us time_deltas).
  change (total_time_us time_deltas -
          (getd (self_time (analyze_samples nodes samples time_deltas))
             "(idle)" +
           getd (self_time (analyze_samples nodes samples time_deltas))
             "(program)" +
           getd (self_time (analyze_samples nodes samples time_deltas))
             "(root)"))
    with (active_time_us nodes samples time_deltas).
  cbv zeta. rewrite Hsections. rewrite Htotal in *.
  destruct (format_time_returns (sum time_deltas)) as [t1 ->]; [lia|].
  destruct (format_time_returns (active_time_us nodes samples time_deltas))
    as [t2 ->]; [lia|].
  destruct (truediv_returns (active_time_us nodes samples time_deltas)
              (sum time_deltas)) as [q ->]; [done|lia|].
  cbn [mbind result_bind]. eexists. split; [done|]. done.
Qed.

(** Two samples of [inner] with the deltas 100 and 200, and sections that
    return the active time. *)
Lemma print_report_returns_witness :
  ∃ h, print_report (λ _ _ _ active, Ok active) nested_table [2; 2]
         [100; 200]
         = Ok (h, active_time_us nested_table [2; 2] [100; 200]) ∧
       total_samples_line h = 2 ∧
       sample_interval_line h = sum [100; 200] `div` Z.max 2 1.
Proof.
  apply (print_report_returns (λ _ _ _ active, Ok active) nested_table
           [2; 2] [100; 200]).
  - repeat constructor; lia.
  - by vm_compute.
  - assert (sum [100; 200] = 300) as -> by (by vm_compute).
    assert (2 ^ 9 ≤ 2 ^ 1023) by (apply Z.pow_le_mono_r; lia). lia.
  - done.
Defined.

(** ** truncate *)

Lemma take_string_length (n : nat) (s : string) :
  String.length (take_string n s) = (n `min` String.length s)%nat.
Proof.
  revert s. induction n as [|n IH]; intros [|c s]; simpl; try done.
  by rewrite IH.
Qed.

Lemma take_string_prefix (n : nat) (s : string) :
  ∃ rest, s = take_string n s +:+ rest.
Proof.
  revert s. induction n as [|n IH]; intros [|c s]; simpl;
    try (by eexists; rewrite string_app_nil_l).
  destruct (IH s) as [rest Hrest]. exists rest.
  by rewrite string_app_cons, <- Hrest.
Qed.

(** X11: truncate leaves a text of at most [max_len] characters as it is;
    a longer one is cut, for [max_len] from 3 on, to its first
    [max_len - 3] characters and three dots, [max_len] characters in all.
    So the result fits [max_len] exactly when the text does or [max_len]
    is at least 3: below 3 a longer text comes back with more than
    [max_len] characters. *)
Theorem truncate_fits (s : string) (max_len : Z) :
  (len s ≤ max_len → truncate s max_len = s) ∧
  (max_len < len s → 3 ≤ max_len →
   ∃ kept rest, truncate s max_len = kept +:+ "..." ∧ s = kept +:+ rest ∧
                len kept = max_len - 3 ∧ len (truncate s max_len) = max_len) ∧
  (len (truncate s max_len) ≤ max_len ↔ len s ≤ max_len ∨ 3 ≤ max_len).
Proof.
  assert (∀ n, len (take_string n s +:+ "...")
               = Z.of_nat (n `min` String.length s) + 3) as Hlen.
  { intros n. unfold len. rewrite string_length_app, take_string_length.
    simpl. lia. }
  unfold truncate. split_and!.
  - intros Hle. by rewrite bool_decide_eq_true_2.
  - intros Hlt H3. rewrite bool_decide_eq_false_2 by lia.
    unfold slice_to. rewrite bool_decide_eq_false_2 by lia.
    destruct (take_string_prefix (Z.to_nat (max_len - 3)) s) as [rest Hrest].
    exists (take_string (Z.to_nat (max_len - 3)) s), rest.
    split_and!; [done|done| |].
    + unfold len in *. rewrite take_string_length. lia.
    + rewrite Hlen. unfold len in *. lia.
  - case_bool_decide as Hle; [by intuition|].
    unfold slice_to. case_bool_decide as Hneg; rewrite Hlen; unfold len in *.
    + split; [lia|]. intros [?|?]; lia.
    + split; [lia|]. intros _. lia.
Qed.

End TraceTextProofs.

(** * The keys of the counting dicts *)

Module KeyProofs.
Import Py Re Inspector InspectorRun ReProofs IntProofs ParseProofs
  InspectorProofs.

Lemma decimal_snoc (a : string) (c : ascii) :
  decimal (a +:+ String c "") = 10 * decimal a + digit_value c.
Proof.
  unfold decimal.
  assert (list_ascii_of_string (a +:+ String c "")
          = list_ascii_of_string a ++ [c]) as ->.
  { induction a as [|b a IH]; [done|]. rewrite string_app_cons. simpl.
    by rewrite IH. }
  by rewrite foldl_app.
Qed.

Lemma pretty_N_char_digit (d : N) :
  (d < 10)%N →
  digit (pretty_N_char d) = true ∧ digit_value (pretty_N_char d) = Z.of_N d.
Proof.
  intros Hd.
  assert (d = 0 ∨ d = 1 ∨ d = 2 ∨ d = 3 ∨ d = 4 ∨ d = 5 ∨ d = 6 ∨ d = 7 ∨
          d = 8 ∨ d = 9)%N as Hcases by lia.
  repeat (destruct Hcases as [->|Hcases]; [done|]). by subst.
Qed.

Lemma pretty_N_go_app (n : N) (s : string) :
  pretty_N_go n s = pretty_N_go n "" +:+ s.
Proof.
  revert s. induction (N.lt_wf_0 n) as [n _ IH]; intros s.
  assert (n = 0 ∨ 0 < n)%N as [->|Hn] by lia.
  { by rewrite !pretty_N_go_0. }
  rewrite (pretty_N_go_step n s), (pretty_N_go_step n "") by done.
  assert (n `div` 10 < n)%N as Hlt by (by apply N.div_lt).
  rewrite (IH _ Hlt (String _ s)), (IH _ Hlt (String _ "")).
  by rewrite string_app_assoc.
Qed.

Lemma pretty_N_go_digits (n : N) :
  all digit (pretty_N_go n "") = true ∧
  decimal (pretty_N_go n "") = Z.of_N n ∧
  ((0 < n)%N →
   pretty_N_go n "" ≠ "" ∧
   10 ^ (Z.of_nat (String.length (pretty_N_go n "")) - 1) ≤ Z.of_N n).
Proof.
  induction (N.lt_wf_0 n) as [n _ IH].
  assert (n = 0 ∨ 0 < n)%N as [->|Hn] by lia.
  { rewrite pretty_N_go_0. split_and!; [done|done|lia]. }
  rewrite pretty_N_go_step, pretty_N_go_app by done.
  destruct (IH (n `div` 10)%N) as (Hall & Hint & Hlen); [by apply N.div_lt|].
  destruct (pretty_N_char_digit (n `mod` 10)%N) as [Hd Hv];
    [by apply N.mod_lt|].
  assert (Z.of_N n = 10 * Z.of_N (n `div` 10) + Z.of_N (n `mod` 10))
    as Hdiv by (rewrite (N.div_mod n 10) at 1 by done; lia).
  split_and!.
  - rewrite all_app, Hall. simpl. by rewrite Hd.
  - rewrite decimal_snoc, Hint, Hv. lia.
  - intros _. split; [by destruct (pretty_N_go (n `div` 10) "")|].
    rewrite string_length_app. cbn [String.length].
    replace (Z.of_nat (String.length (pretty_N_go (n `div` 10) "") + 1) - 1)
      with (Z.of_nat (String.length (pretty_N_go (n `div` 10) ""))) by lia.
    destruct (decide (n `div` 10 = 0)%N) as [Hz|Hpos%N.neq_0_lt_0].
    + rewrite Hz, pretty_N_go_0. simpl. lia.
    + destruct (Hlen Hpos) as [Hne Hle].
      destruct (pretty_N_go (n `div` 10) "") as [|c rest]; [done|].
      cbn [String.length] in *. rewrite Nat2Z.inj_succ in *.
      replace (Z.succ (Z.of_nat (String.length rest)) - 1)
        with (Z.of_nat (String.length rest)) in Hle by lia.
      rewrite Z.pow_succ_r by lia.
      pose proof (N2Z.is_nonneg (n `mod` 10)) as Hm. clear -Hdiv Hle Hm.
      set (a := Z.of_N (n `div` 10)) in *. set (b := Z.of_N (n `mod` 10)) in *.
      set (p := 10 ^ _) in *. clearbody a b p. lia.
Qed.

(** The decimal numeral of an integer that is not negative: digits, one at
    least and no more than the number needs, that write the number. *)
Lemma pretty_digits (n : Z) :
  0 ≤ n →
  all digit (pretty n) = true ∧ pretty n ≠ "" ∧ decimal (pretty n) = n ∧
  (convertible n → (String.length (pretty n) ≤ max_str_digits)%nat).
Proof.
  intros Hn. destruct n as [|p|p]; [|clear Hn|lia].
  { split_and!; [done..|]. intros _. unfold max_str_digits. simpl. lia. }
  unfold pretty, pretty_Z, pretty, pretty_positive, pretty, pretty_N.
  rewrite decide_False by done.
  destruct (pretty_N_go_digits (N.pos p)) as (Hall & Hint & Hlen).
  destruct Hlen as [Hne Hle]; [done|].
  split_and!; [done|done|by rewrite Hint|].
  unfold convertible. intros Hc.
  destruct (decide (String.length (pretty_N_go (N.pos p) "")
                    ≤ max_str_digits)%nat) as [|Hlong]; [done|].
  pose proof (Z.pow_le_mono_r 10 (Z.of_nat max_str_digits)
                (Z.of_nat (String.length (pretty_N_go (N.pos p) "")) - 1)
                ltac:(lia) ltac:(lia)) as Hpow.
  change (Z.of_N (N.pos p)) with (Z.pos p) in Hle. lia.
Qed.

(** [int] reads the numeral of a number that is not negative back. *)
Lemma int_pretty (n : Z) : 0 ≤ n → convertible n → int (pretty n) = Ok n.
Proof.
  intros Hn Hc. destruct (pretty_digits n Hn) as (Hall & Hne & Hint & Hlen).
  rewrite int_short by auto. by rewrite Hint.
Qed.

Lemma pretty_numeral (n : Z) : all numeral_char (pretty n) = true.
Proof.
  assert (∀ m, 0 ≤ m → all numeral_char (pretty m) = true) as Hpos.
  { intros m Hm. destruct (pretty_digits m Hm) as (Hall & _).
    eapply all_impl; [|done]. intros c Hc. unfold numeral_char.
    by rewrite Hc. }
  destruct n as [|p|p]; [done|by apply Hpos|].
  change (pretty (Z.neg p)) with ("-" +:+ pretty (Z.pos p)).
  rewrite all_app. by rewrite (Hpos (Z.pos p)).
Qed.

Lemma split_on_part (sep : ascii) (a rest : string) :
  all (other_than sep) a = true →
  split_on sep (a +:+ String sep rest) = a :: split_on sep rest.
Proof.
  intros Ha. induction a as [|c a IH].
  { rewrite string_app_nil_l. simpl. by rewrite Ascii.eqb_refl. }
  rewrite string_app_cons. simpl in *.
  apply andb_prop in Ha as [Hc Ha]. unfold other_than in Hc.
  apply negb_true_iff in Hc. rewrite Hc. by rewrite IH.
Qed.

Lemma split_on_last (sep : ascii) (a : string) :
  all (other_than sep) a = true → split_on sep a = [a].
Proof.
  intros Ha. induction a as [|c a IH]; [done|]. simpl in *.
  apply andb_prop in Ha as [Hc Ha]. unfold other_than in Hc.
  apply negb_true_iff in Hc. rewrite Hc. by rewrite IH.
Qed.

Lemma pretty_without (sep : ascii) (n : Z) :
  numeral_char sep = false → all (other_than sep) (pretty n) = true.
Proof.
  intros Hsep. eapply all_impl; [|apply pretty_numeral].
  intros c Hc. unfold other_than. apply negb_true_iff.
  destruct (Ascii.eqb_spec c sep); [congruence|done].
Qed.

Lemma split_dispatch_key (d : dispatch) (k : string) :
  dispatch_key d = Ok k →
  split_on "x" k = [pretty (x d); pretty (y d); pretty (z d)].
Proof.
  intros Hk. pose proof (dispatch_key_outcome d) as Hd. rewrite Hk in Hd.
  cbn [outcome] in Hd. subst k.
  rewrite !(string_app_cons _ ""), !string_app_nil_l.
  rewrite split_on_part by (by apply pretty_without).
  rewrite split_on_part by (by apply pretty_without).
  by rewrite split_on_last by (by apply pretty_without).
Qed.

Lemma dispatch_key_returns (d : dispatch) :
  convertible_dispatch d ↔ ∃ k, dispatch_key d = Ok k.
Proof.
  unfold dispatch_key, str_int, convertible_dispatch.
  repeat case_bool_decide; cbn [mbind result_bind]; split;
    try (by intros (? & ? & ?)); try (by intros [? ?]); by eexists.
Qed.

(** X13: the key of a dispatch tells its dimensions: two dispatches that
    have keys have the same key exactly when they agree on x, y and z, so
    that [dispatch_types] counts the dispatches of each size apart; and a
    dispatch has a key exactly when none of its dimensions has more than
    4300 digits: otherwise making the key raises [ValueError]. *)
Theorem dispatch_key_dimensions (d1 d2 : dispatch) :
  (∀ k1 k2, dispatch_key d1 = Ok k1 → dispatch_key d2 = Ok k2 →
     (k1 = k2 ↔ x d1 = x d2 ∧ y d1 = y d2 ∧ z d1 = z d2)) ∧
  (convertible_dispatch d1 ↔ ∃ k, dispatch_key d1 = Ok k) ∧
  (¬ convertible_dispatch d1 → dispatch_key d1 = Raise ValueError).
Proof.
  split_and!.
  - intros k1 k2 Hk1 Hk2. split.
    + intros <-. pose proof (split_dispatch_key d1 k1 Hk1) as H1.
      rewrite (split_dispatch_key d2 k1 Hk2) in H1.
      injection H1 as Hx Hy Hz.
      split_and!; symmetry; by apply (inj pretty).
    + intros (Hx & Hy & Hz). unfold dispatch_key in Hk1, Hk2.
      rewrite Hx, Hy, Hz in Hk1. congruence.
  - apply dispatch_key_returns.
  - intros Hd. pose proof (dispatch_key_outcome d1) as Hout.
    destruct (dispatch_key d1) as [k|e] eqn:Hk.
    + destruct Hd. apply dispatch_key_returns. by exists k.
    + by destruct Hout as [-> _].
Qed.

Lemma workgroups_of_dispatch_key (d : dispatch) :
  parsed_dispatch d →
  ∃ key, dispatch_key d = Ok key ∧
         workgroups_of_key key = Ok (x d * y d * z d).
Proof.
  intros [(Hx & Hy & Hz & _) Hd].
  destruct (proj1 (dispatch_key_returns d) Hd) as [key Hkey].
  exists key. split; [done|].
  unfold workgroups_of_key. rewrite (split_dispatch_key d key Hkey).
  destruct Hd as (? & ? & ?).
  unfold item. cbn [lookup list_lookup mbind result_bind].
  rewrite !int_pretty by done. done.
Qed.

End KeyProofs.

(** * The counts of the summary *)

Module SummaryProofs.
Import Py Re Inspector InspectorRun ReProofs IntProofs ParseProofs
  InspectorProofs.

(** ** Counting by key *)

Lemma tally_cons {A} (key : A → result string) k (a : A) (l : list A) :
  tally key k (a :: l)
  = (if decide (key a = Ok k) then 1 else 0) + tally key k l.
Proof.
  unfold tally, len. rewrite filter_cons.
  destruct (decide (key a = Ok k)); simpl; lia.
Qed.

Lemma tally_nonneg {A} (key : A → result string) k (l : list A) :
  0 ≤ tally key k l.
Proof. unfold tally, len. lia. Qed.

Lemma count_key_lookup (k k' : string) (m : gmap string Z) :
  default 0 (count_key k m !! k')
  = default 0 (m !! k') + (if decide (k = k') then 1 else 0).
Proof.
  unfold count_key. destruct (decide (k = k')) as [->|Hne].
  - by rewrite lookup_insert_eq.
  - rewrite lookup_insert_ne by done. lia.
Qed.

Lemma count_key_positive (k : string) (m : gmap string Z) :
  (∀ k' n, m !! k' = Some n → 0 < n) →
  ∀ k' n, count_key k m !! k' = Some n → 0 < n.
Proof.
  intros Hm k' n. unfold count_key. destruct (decide (k = k')) as [->|Hne].
  - rewrite lookup_insert_eq. intros [= <-].
    destruct (m !! k') as [w|] eqn:Hk; simpl; [|lia].
    specialize (Hm k' w Hk). lia.
  - rewrite lookup_insert_ne by done. apply Hm.
Qed.

Lemma sum_values_count_key (k : string) (m : gmap string Z) :
  sum_values (count_key k m) = sum_values m + 1.
Proof.
  unfold sum_values, count_key. destruct (m !! k) as [v|] eqn:Hk; simpl.
  - rewrite <- insert_delete_eq.
    rewrite (sum_permutation _ _ (fmap_Permutation snd _ _
               (map_to_list_insert _ _ _ (lookup_delete_eq m k)))).
    rewrite <- (sum_permutation _ _ (fmap_Permutation snd _ _
                  (map_to_list_delete m k v Hk))).
    rewrite !fmap_cons, !sum_cons. simpl. lia.
  - rewrite (sum_permutation _ _ (fmap_Permutation snd _ _
               (map_to_list_insert _ _ _ Hk))).
    rewrite fmap_cons, sum_cons. simpl. lia.
Qed.

(** The histogram that a loop [types[key(d)] += 1] makes of a list, when
    it makes the key of every item. *)
Lemma histogram_from {A} (key : A → result string) (l : list A)
    (m types : gmap string Z) :
  for_each (λ types a, k ← key a; Ok (count_key k types)) l m = Ok types →
  (∀ k, default 0 (types !! k) = default 0 (m !! k) + tally key k l) ∧
  ((∀ k n, m !! k = Some n → 0 < n) → ∀ k n, types !! k = Some n → 0 < n) ∧
  sum_values types = sum_values m + len l.
Proof.
  revert m. induction l as [|a l IH]; intros m; cbn [for_each].
  { intros [= <-]. split_and!; [|done|unfold len; simpl; lia].
    intros k. unfold tally, len. simpl. lia. }
  destruct (key a) as [ka|e] eqn:Ha; cbn [mbind result_bind]; [|done].
  intros Htypes. destruct (IH (count_key ka m) Htypes) as (Hcount & Hpos & Hsum).
  split_and!.
  - intros k. rewrite Hcount, count_key_lookup, tally_cons, Ha.
    destruct (decide (ka = k)) as [->|Hne].
    + rewrite decide_True by done. lia.
    + rewrite decide_False by congruence. lia.
  - intros Hm. apply Hpos. by apply count_key_positive.
  - rewrite Hsum, sum_values_count_key. unfold len. simpl. lia.
Qed.

Lemma histogram {A} (key : A → result string) (l : list A)
    (types : gmap string Z) :
  for_each (λ types a, k ← key a; Ok (count_key k types)) l ∅ = Ok types →
  (∀ k n, types !! k = Some n ↔ n = tally key k l ∧ 0 < n) ∧
  sum_values types = len l.
Proof.
  intros Htypes.
  destruct (histogram_from key l ∅ types Htypes) as (Hcount & Hpos & Hsum).
  split.
  - intros k n. specialize (Hcount k). rewrite lookup_empty in Hcount.
    simpl in Hcount. split.
    + intros Hk. rewrite Hk in Hcount. simpl in Hcount. split; [lia|].
      eapply Hpos; [|done]. intros k' n'. by rewrite lookup_empty.
    + intros [-> Hn]. destruct (types !! k) as [w|]; simpl in Hcount.
      * f_equal. lia.
      * lia.
  - rewrite Hsum. unfold sum_values. rewrite map_to_list_empty. simpl.
    unfold sum. simpl. lia.
Qed.

(** ** The dispatch part of the summary *)

Lemma compute_summary_dispatches (r : results) (summary : gmap string value) :
  compute_summary r = Ok summary → dispatches r ≠ [] →
  ∃ types,
    for_each (λ types d, key ← dispatch_key d; Ok (count_key key types))
      (dispatches r) ∅ = Ok types ∧
    summary !! "dispatch_calls" = Some (VInt (len (dispatches r))) ∧
    summary !! "dispatch_types" = Some (VDict types).
Proof.
  intros Hsum Hne. unfold compute_summary in Hsum.
  destruct (summarize_draws r ∅) as [s1|]; [|done].
  cbn [mbind result_bind] in Hsum.
  destruct (summarize_dispatches r s1) as [s2|] eqn:Hs2; [|done].
  cbn [mbind result_bind] in Hsum. injection Hsum as <-.
  rewrite !summarize_buffers_keeps by set_solver.
  unfold summarize_dispatches in Hs2.
  rewrite (bool_decide_eq_true_2 (dispatches r ≠ [])) in Hs2 by done.
  destruct (for_each _ (dispatches r) ∅) as [types|];
    cbn [mbind result_bind] in Hs2; [|done].
  exists types. split; [done|].
  case_bool_decide.
  - destruct (truediv _ _); cbn [mbind result_bind] in Hs2; [|done].
    injection Hs2 as <-. split.
    + rewrite !lookup_insert_ne by done. apply lookup_insert_eq.
    + rewrite lookup_insert_ne by done. apply lookup_insert_eq.
  - injection Hs2 as <-. split.
    + rewrite lookup_insert_ne by done. apply lookup_insert_eq.
    + apply lookup_insert_eq.
Qed.

(** X16: when there are dispatches, the summary counts them, and its
    [dispatch_types] has a key exactly for the keys of the dispatches, each
    with the number of dispatches of that key; the counts add up to the
    number of dispatches. *)
Theorem compute_summary_dispatch_types (r : results)
    (summary : gmap string value) :
  compute_summary r = Ok summary → dispatches r ≠ [] →
  ∃ types,
    summary !! "dispatch_types" = Some (VDict types) ∧
    summary !! "dispatch_calls" = Some (VInt (len (dispatches r))) ∧
    (∀ k n, types !! k = Some n ↔
            n = tally dispatch_key k (dispatches r) ∧ 0 < n) ∧
    sum_values types = len (dispatches r).
Proof.
  intros Hsum Hne.
  destruct (compute_summary_dispatches r summary Hsum Hne)
    as (types & Hloop & Hcalls & Htypes).
  destruct (histogram dispatch_key (dispatches r) types Hloop)
    as [Hcount Hall].
  exists types. split_and!; [exact Htypes|exact Hcalls|exact Hcount|exact Hall].
Qed.

Lemma compute_summary_dispatch_types_witness :
  match compute_summary sample_results with
  | Ok summary =>
      ∃ types,
        summary !! "dispatch_types" = Some (VDict types) ∧
        summary !! "dispatch_calls"
          = Some (VInt (len (dispatches sample_results))) ∧
        (∀ k n, types !! k = Some n ↔
                n = tally dispatch_key k (dispatches sample_results) ∧
                0 < n) ∧
        sum_values types = len (dispatches sample_results)
  | Raise _ => False
  end.
Proof.
  destruct (compute_summary sample_results) as [summary|e] eqn:Hsum.
  - by apply (compute_summary_dispatch_types sample_results summary Hsum).
  - assert (is_ok (compute_summary sample_results) = true) as Hok
      by (vm_compute; reflexivity).
    rewrite Hsum in Hok. discriminate Hok.
Defined.

(** ** The draw counts of the summary *)

Lemma draws_split (ds : list draw) :
  len (filter (λ d, is_direct d = true) ds)
  + len (filter (λ d, is_indirect d = true) ds) ≤ len ds ∧
  (len ds = len (filter (λ d, is_direct d = true) ds)
            + len (filter (λ d, is_indirect d = true) ds) ↔
   Forall (λ d, is_direct d = true ∨ is_indirect d = true) ds).
Proof.
  unfold len. induction ds as [|d ds [IHle IHeq]].
  { split; [done|]. split; [by constructor|done]. }
  rewrite !filter_cons, Forall_cons.
  assert (is_direct d = true ∧ is_indirect d = false ∨
          is_direct d = false ∧ is_indirect d = true ∨
          is_direct d = false ∧ is_indirect d = false) as Hd.
  { destruct d as [| |t]; simpl; [by left|right; by left|].
    case_bool_decide; [right; by left|by do 2 right]. }
  destruct Hd as [[Hd Hi]|[[Hd Hi]|[Hd Hi]]]; rewrite Hd, Hi;
    repeat first [rewrite decide_True by done|rewrite decide_False by done];
    cbn [length]; (split; [lia|]); rewrite <- IHeq.
  - split; [intros; split; [by left|lia]|intros [_ ?]; lia].
  - split; [intros; split; [by right|lia]|intros [_ ?]; lia].
  - split; [lia|by intros [[?|?] _]].
Qed.

(** X17: when there are draws, the summary has the three draw counts: the
    number of all draws, of those without a type and of those whose type is
    indirect.  The two kinds together are no more than all the draws, and
    they are all of them exactly when every draw is of one of these kinds,
    as every draw that the parser makes is. *)
Theorem compute_summary_draw_counts (r : results)
    (summary : gmap string value) (content : string) :
  compute_summary r = Ok summary → draws r ≠ [] →
  ∃ direct indirect,
    summary !! "draw_calls" = Some (VInt (len (draws r))) ∧
    summary !! "direct_draws" = Some (VInt direct) ∧
    summary !! "indirect_draws" = Some (VInt indirect) ∧
    direct = len (direct_draws r) ∧
    indirect = len (filter (λ d, is_indirect d = true) (draws r)) ∧
    direct + indirect ≤ len (draws r) ∧
    (len (draws r) = direct + indirect ↔
     Forall (λ d, is_direct d = true ∨ is_indirect d = true) (draws r)) ∧
    (parse_draws content = Ok (draws r) → len (draws r) = direct + indirect).
Proof.
  intros Hsum Hne. unfold compute_summary in Hsum.
  destruct (summarize_draws r ∅) as [s1|] eqn:Hs1; [|done].
  cbn [mbind result_bind] in Hsum.
  destruct (summarize_dispatches r s1) as [s2|] eqn:Hs2; [|done].
  cbn [mbind result_bind] in Hsum. injection Hsum as <-.
  rewrite !summarize_buffers_keeps by set_solver.
  rewrite !(summarize_dispatches_keeps r s1 s2) by (done || set_solver).
  exists (len (direct_draws r)),
    (len (filter (λ d, is_indirect d = true) (draws r))).
  destruct (draws_split (draws r)) as [Hle Heq].
  split_and!; try done.
  4:{ intros Hparse. apply Heq.
      pose proof (parse_draws_outcome content) as Hout.
      rewrite Hparse in Hout. cbn [outcome] in Hout.
      eapply Forall_impl; [exact Hout|]. by intros d [_ ?]. }
  all: unfold summarize_draws in Hs1;
    rewrite (bool_decide_eq_true_2 (draws r ≠ [])) in Hs1 by done;
    repeat case_bool_decide;
    try (destruct (truediv (len _) _); cbn [mbind result_bind] in Hs1;
         [|done];
         destruct (truediv _ _); cbn [mbind result_bind] in Hs1; [|done]);
    injection Hs1 as <-; rewrite ?lookup_insert_ne by done;
    apply lookup_insert_eq.
Qed.

(** Results with a draw of another type: the two kinds are fewer than the
    draws. *)
Lemma compute_summary_draw_counts_witness :
  match compute_summary
          (Results [DirectDraw 3 1 0 0; OtherDraw "mesh"; IndirectDraw 8]
             [] [] [] 0 ∅) with
  | Ok summary =>
      summary !! "draw_calls" = Some (VInt 3) ∧
      summary !! "direct_draws" = Some (VInt 1) ∧
      summary !! "indirect_draws" = Some (VInt 1)
  | Raise _ => False
  end.
Proof.
  set (r := Results [DirectDraw 3 1 0 0; OtherDraw "mesh"; IndirectDraw 8]
              [] [] [] 0 ∅).
  destruct (compute_summary r) as [summary|e] eqn:Hsum.
  - destruct (compute_summary_draw_counts r summary "" Hsum)
      as (direct & indirect & -> & -> & -> & -> & -> & _); [done|].
    split_and!; vm_compute; reflexivity.
  - assert (is_ok (compute_summary r) = true) as Hok
      by (vm_compute; reflexivity).
    rewrite Hsum in Hok. discriminate Hok.
Defined.

End SummaryProofs.

(** * The draw configurations of the report *)

Module ConfigProofs.
Import Py Re Inspector InspectorRun ReProofs IntProofs ParseProofs
  InspectorProofs KeyProofs SummaryProofs.

(** ** The items of a counting dict, in the order of their keys *)

Lemma count_item_to_map (k : string) (items : list (string * Z)) :
  list_to_map (count_item k items)
  = count_key k (list_to_map items : gmap string Z).
Proof.
  unfold count_key. induction items as [|[k' n] items IH]; simpl.
  { by rewrite lookup_empty. }
  case_bool_decide as Hk; simpl.
  - subst. rewrite lookup_insert_eq. simpl. by rewrite insert_insert_eq.
  - rewrite IH. rewrite lookup_insert_ne by done.
    by rewrite insert_insert_ne by done.
Qed.

Lemma count_item_keys (k : string) (items : list (string * Z)) :
  (count_item k items).*1
  = if decide (k ∈ items.*1) then items.*1 else items.*1 ++ [k].
Proof.
  induction items as [|[k' n] items IH]; [done|]. cbn [count_item].
  case_bool_decide as Hk; rewrite !fmap_cons; cbn [fst].
  - subst. rewrite decide_True; [done|by left].
  - rewrite IH. destruct (decide (k ∈ items.*1)) as [Hin|Hin].
    + rewrite decide_True; [done|by right].
    + rewrite decide_False; [done|]. intros [?|?]%elem_of_cons; by subst.
Qed.

Lemma count_item_NoDup (k : string) (items : list (string * Z)) :
  NoDup items.*1 → NoDup (count_item k items).*1.
Proof.
  intros Hnd. rewrite count_item_keys.
  destruct (decide (k ∈ items.*1)); [done|].
  apply NoDup_app. split_and!; [done| |apply NoDup_singleton].
  intros k' Hk' ->%list_elem_of_singleton. done.
Qed.

Lemma count_items_from {A} (key : A → result string) (l : list A)
    (items items' : list (string * Z)) :
  for_each (λ configs a, k ← key a; Ok (count_item k configs)) l items
    = Ok items' →
  (NoDup items.*1 → NoDup items'.*1) ∧
  for_each (λ types a, k ← key a; Ok (count_key k types)) l
    (list_to_map items : gmap string Z)
    = Ok (list_to_map items').
Proof.
  revert items. induction l as [|a l IH]; intros items; cbn [for_each].
  { by intros [= <-]. }
  destruct (key a) as [k|e]; cbn [mbind result_bind]; [|done].
  intros Hitems. destruct (IH (count_item k items) Hitems) as [Hnd Hmap].
  split; [|by rewrite <- count_item_to_map].
  intros Hnodup. by apply Hnd, count_item_NoDup.
Qed.

(** The loop returns when every item has a key. *)
Lemma count_items_returns {A} (key : A → result string) (l : list A)
    (items : list (string * Z)) :
  Forall (λ a, is_ok (key a) = true) l →
  ∃ items',
    for_each (λ configs a, k ← key a; Ok (count_item k configs)) l items
      = Ok items'.
Proof.
  intros Hl. revert items.
  induction Hl as [|a l Ha _ IH]; intros items; cbn [for_each];
    [by eexists|].
  destruct (key a) as [k|e]; [|done]. cbn [mbind result_bind]. apply IH.
Qed.

(** ** sorted(..., key=lambda x: -x[1]) *)

Lemma insert_by_count_perm (item : string * Z) (sorted : list (string * Z)) :
  insert_by_count item sorted ≡ₚ item :: sorted.
Proof.
  induction sorted as [|item' sorted IH]; simpl; [done|].
  case_bool_decide; [done|]. rewrite IH. apply Permutation_swap.
Qed.

Lemma sorted_by_count_perm (items : list (string * Z)) :
  sorted_by_count items ≡ₚ items.
Proof.
  unfold sorted_by_count. induction items as [|item items IH]; simpl; [done|].
  by rewrite insert_by_count_perm, IH.
Qed.

Lemma insert_by_count_sorted (item : string * Z)
    (sorted : list (string * Z)) :
  StronglySorted by_count sorted →
  StronglySorted by_count (insert_by_count item sorted).
Proof.
  induction 1 as [|item' sorted Hsorted IH Hall]; simpl.
  { repeat constructor. }
  case_bool_decide as Hle.
  - constructor; [by constructor|]. constructor; [unfold by_count; lia|].
    eapply Forall_impl; [exact Hall|]. unfold by_count. intros; lia.
  - constructor; [done|]. rewrite insert_by_count_perm.
    constructor; [unfold by_count; lia|done].
Qed.

Lemma sorted_by_count_sorted (items : list (string * Z)) :
  StronglySorted by_count (sorted_by_count items).
Proof.
  unfold sorted_by_count. induction items as [|item items IH]; simpl.
  - constructor.
  - by apply insert_by_count_sorted.
Qed.

Lemma config_key_outcome (d : draw) :
  outcome (λ k, k = "vertices=" +:+ pretty (vertex_count_of d)
                      +:+ ", instances=" +:+ pretty (instance_count_of d))
    (convertible_draw d) (config_key d).
Proof.
  unfold config_key, str_int, convertible_draw.
  repeat case_bool_decide; cbn [mbind result_bind outcome]; try done;
    (split; [done|]); by intros [? ?].
Qed.

Lemma config_key_returns (d : draw) :
  convertible_draw d ↔ ∃ k, config_key d = Ok k.
Proof.
  unfold config_key, str_int, convertible_draw.
  repeat case_bool_decide; cbn [mbind result_bind]; split;
    try (by intros [? ?]); by eexists.
Qed.

(** X18: the draw configurations that the report prints: no configuration
    comes twice; a configuration is printed with a count exactly when that
    many direct draws, one at least, have its key; the counts come in
    falling order and add up to the number of direct draws.  The
    configurations are made exactly when the vertex count and the instance
    count of every direct draw have no more than 4300 digits; otherwise
    making a key raises [ValueError]. *)
Theorem draw_configurations_counts (r : results) :
  (∀ rows, draw_configurations r = Ok rows →
     NoDup rows.*1 ∧
     (∀ k n, (k, n) ∈ rows ↔
             n = tally config_key k (direct_draws r) ∧ 0 < n) ∧
     StronglySorted by_count rows ∧
     sum rows.*2 = len (direct_draws r)) ∧
  (Forall convertible_draw (direct_draws r) ↔
   ∃ rows, draw_configurations r = Ok rows) ∧
  (∀ e, draw_configurations r = Raise e → e = ValueError).
Proof.
  unfold draw_configurations. fold (direct_draws r). split_and!.
  - intros rows Hrows.
    destruct (for_each _ (direct_draws r) []) as [items|] eqn:Hitems;
      cbn [mbind result_bind] in Hrows; [|done].
    injection Hrows as <-.
    destruct (count_items_from config_key (direct_draws r) [] items Hitems)
      as [Hnd Hmap].
    specialize (Hnd (NoDup_nil_2)).
    change (list_to_map []) with (∅ : gmap string Z) in Hmap.
    destruct (histogram config_key (direct_draws r) _ Hmap)
      as [Hcount Hsum].
    pose proof (sorted_by_count_perm items) as Hperm.
    split_and!.
    + by rewrite Hperm.
    + intros k n. rewrite Hperm, <- Hcount.
      by rewrite elem_of_list_to_map.
    + apply sorted_by_count_sorted.
    + rewrite (sum_permutation _ _ (fmap_Permutation snd _ _ Hperm)).
      rewrite <- Hsum. unfold sum_values.
      apply sum_permutation, fmap_Permutation. symmetry.
      by apply map_to_list_to_map.
  - split.
    + intros Hall.
      destruct (count_items_returns config_key (direct_draws r) [])
        as [items ->]; [|by eexists].
      eapply Forall_impl; [exact Hall|].
      intros d [k ->]%config_key_returns. done.
    + intros [rows Hrows]. generalize dependent ([] : list (string * Z)).
      induction (direct_draws r) as [|d l IH]; intros items;
        [by constructor|].
      cbn [for_each].
      destruct (config_key d) as [k|e] eqn:Hk; cbn [mbind result_bind];
        [|done].
      intros Hrows. constructor; [|by eapply IH].
      apply config_key_returns. by exists k.
  - intros e. generalize ([] : list (string * Z)).
    induction (direct_draws r) as [|d l IH]; intros items; [done|].
    cbn [for_each]. pose proof (config_key_outcome d) as Hd.
    destruct (config_key d) as [k|e']; cbn [mbind result_bind].
    + apply IH.
    + destruct Hd as [-> _]. by intros [= <-].
Qed.

(** ** The key of a draw configuration *)

Lemma span_numeral (n : Z) (rest : string) :
  span numeral_char (pretty n +:+ String "," rest)
  = (pretty n, String "," rest).
Proof. apply span_run; [apply pretty_numeral|done]. Qed.

Lemma config_key_inj (d1 d2 : draw) (k : string) :
  config_key d1 = Ok k → config_key d2 = Ok k →
  vertex_count_of d1 = vertex_count_of d2 ∧
  instance_count_of d1 = instance_count_of d2.
Proof.
  intros H1 H2. pose proof (config_key_outcome d1) as Hk1.
  pose proof (config_key_outcome d2) as Hk2.
  rewrite H1 in Hk1. rewrite H2 in Hk2. cbn [outcome] in Hk1, Hk2.
  rewrite Hk1 in Hk2. clear H1 H2 Hk1. rename Hk2 into Hkey.
  apply (f_equal (strip "vertices=")) in Hkey. rewrite !strip_app in Hkey.
  injection Hkey as Hkey.
  rewrite !(string_app_cons "," " instances=") in Hkey.
  apply (f_equal (span numeral_char)) in Hkey.
  rewrite !span_numeral in Hkey. injection Hkey as Hv Hi.
  rewrite !string_app_nil_l in Hi. split; by apply (inj pretty).
Qed.

(** X19: the key of a draw configuration tells the vertex count and the
    instance count: two direct draws that have keys are counted under the
    same configuration exactly when they agree on both, whatever their
    first vertex and first instance; and a direct draw has a key exactly
    when neither count has more than 4300 digits. *)
Theorem config_key_counts (v i fv fi v' i' fv' fi' : Z) :
  (∀ k k', config_key (DirectDraw v i fv fi) = Ok k →
           config_key (DirectDraw v' i' fv' fi') = Ok k' →
           (k = k' ↔ v = v' ∧ i = i')) ∧
  (convertible v ∧ convertible i ↔
   ∃ k, config_key (DirectDraw v i fv fi) = Ok k).
Proof.
  split.
  - intros k k' Hk Hk'. split.
    + intros <-. apply (config_key_inj _ _ k Hk Hk').
    + intros [<- <-]. unfold config_key in Hk, Hk'. cbn in Hk, Hk'.
      congruence.
  - apply (config_key_returns (DirectDraw v i fv fi)).
Qed.

End ConfigProofs.

(** * The dispatches of the report, and the summary as a whole *)

Module ReportProofs.
Import Py Re Inspector InspectorRun ReProofs IntProofs ParseProofs
  InspectorProofs FloatProofs KeyProofs SummaryProofs.

(** X14: every dispatch that the parser returns has a key, and the
    workgroup total that the report reads back from the key (lines
    195-196) is the total that the parser recorded for the dispatch. *)
Theorem workgroups_round_trip (content : string) (ds : list dispatch)
    (d : dispatch) :
  parse_dispatches content = Ok ds → d ∈ ds →
  ∃ key, dispatch_key d = Ok key ∧
         workgroups_of_key key = Ok (total_workgroups d).
Proof.
  intros Hds Hd.
  pose proof (parse_dispatches_outcome content) as Hok.
  rewrite Hds in Hok. cbn [outcome] in Hok. rewrite Forall_forall in Hok.
  pose proof (Hok d Hd) as Hparsed.
  destruct Hparsed as [(_ & _ & _ & Htotal) _]. rewrite Htotal.
  by apply workgroups_of_dispatch_key, Hok.
Qed.

Lemma workgroups_round_trip_witness :
  ∃ key, dispatch_key (Dispatch 4 2 1 8) = Ok key ∧
         workgroups_of_key key = Ok 8.
Proof.
  apply (workgroups_round_trip ".dispatchWorkgroups(4,2,1)"
           [Dispatch 4 2 1 8] (Dispatch 4 2 1 8)).
  - vm_compute. reflexivity.
  - by left.
Defined.

(** X15: the summary is computed without an exception when the draws and
    the dispatches are fewer than 2^1023, the instances of the direct
    draws add up to less than 2^1023 in absolute value, and no dimension
    of a dispatch has more than 4300 digits. *)
Theorem compute_summary_returns (r : results) :
  len (draws r) < 2 ^ 1023 → len (dispatches r) < 2 ^ 1023 →
  Z.abs (sum (instance_count_of <$> direct_draws r)) < 2 ^ 1023 →
  Forall convertible_dispatch (dispatches r) →
  ∃ summary, compute_summary r = Ok summary.
Proof.
  intros Hdraws Hdispatches Hinstances Hkeys.
  destruct (decide (0 < frame_count r)) as [Hfc|Hfc].
  2:{ destruct (outcome_short _ _ _ (compute_summary_no_frames r Hfc) Hkeys)
        as (summary & -> & _).
      by eexists. }
  assert (frame_count r ≠ 0) as Hne by lia.
  assert (len (direct_draws r) ≤ len (draws r)) as Hdirect.
  { unfold len, direct_draws. pose proof (length_filter
      (λ d, is_direct d = true) (draws r)). lia. }
  unfold compute_summary, summarize_draws.
  fold (direct_draws r).
  rewrite !(bool_decide_eq_true_2 (0 < frame_count r)) by done.
  assert (∃ s1, (if bool_decide (draws r ≠ []) then _ else Ok ∅)
                = Ok s1) as [s1 ->].
  { case_bool_decide; [|by eexists]. case_bool_decide; [|by eexists].
    destruct (truediv_returns (len (direct_draws r)) (frame_count r))
      as [q1 ->]; [done|unfold len in *; lia|].
    cbn [mbind result_bind].
    destruct (truediv_returns (sum (instance_count_of <$> direct_draws r))
                (frame_count r)) as [q2 ->]; [done|done|].
    cbn [mbind result_bind]. by eexists. }
  cbn [mbind result_bind]. unfold summarize_dispatches.
  rewrite !(bool_decide_eq_true_2 (0 < frame_count r)) by done.
  case_bool_decide; [|by eexists].
  destruct (outcome_short _ _ _ (dispatch_types_outcome (dispatches r) ∅)
              Hkeys) as (types & -> & _).
  cbn [mbind result_bind].
  destruct (truediv_returns (len (dispatches r)) (frame_count r))
    as [q3 ->]; [done|unfold len in *; lia|].
  cbn [mbind result_bind]. by eexists.
Qed.

Lemma compute_summary_returns_witness :
  ∃ summary,
    compute_summary
      (Results [DirectDraw 10 5 0 0] [Dispatch 1 1 1 1] [] [] 2 ∅)
    = Ok summary.
Proof.
  assert (2 ^ 10 ≤ 2 ^ 1023) as Hpow by (apply Z.pow_le_mono_r; lia).
  apply compute_summary_returns.
  - change (1 < 2 ^ 1023). lia.
  - change (1 < 2 ^ 1023). lia.
  - assert (sum (instance_count_of
                   <$> direct_draws
                         (Results [DirectDraw 10 5 0 0] [Dispatch 1 1 1 1]
                            [] [] 2 ∅)) = 5) as -> by (vm_compute; reflexivity).
    lia.
  - repeat constructor.
Defined.

End ReportProofs.

(** * The names and the flat profile of analyze-trace.py *)

Module TraceNamesProofs.
Import Py Re Trace TraceText TraceNames InspectorRun TraceFlat ReProofs
  TraceTextProofs ConfigProofs.

Lemma remove_hashes_length (s : string) (skip : nat) :
  (String.length (remove_hashes s skip) ≤ String.length s)%nat.
Proof.
  revert skip. induction s as [|c s IH]; intros skip; [done|].
  cbn [remove_hashes]. destruct skip as [|skip].
  - destruct (hash_at (String c s)); simpl.
    + specialize (IH 17%nat). lia.
    + specialize (IH 0%nat). lia.
  - specialize (IH skip). simpl. lia.
Qed.

Lemma replace_from_length (old new s : string) (skip : nat) :
  (String.length new ≤ String.length old)%nat →
  (String.length (replace_from old new s skip) + skip `min` String.length s
   ≤ String.length s)%nat.
Proof.
  intros Hlen. revert skip. induction s as [|c s IH]; intros skip.
  { simpl. lia. }
  cbn [replace_from]. destruct skip as [|skip].
  - destruct (String.prefix old (String c s)) eqn:Hp.
    + apply prefix_Some in Hp as [post Hp].
      apply (f_equal String.length) in Hp.
      rewrite string_length_app in Hp. simpl in Hp.
      specialize (IH (pred (String.length old))).
      rewrite string_length_app. simpl. lia.
    + specialize (IH 0%nat). simpl. lia.
  - specialize (IH skip). simpl. lia.
Qed.

Lemma replace_length (old new s : string) :
  (String.length new ≤ String.length old)%nat →
  (String.length (replace old new s) ≤ String.length s)%nat.
Proof.
  intros Hlen. pose proof (replace_from_length old new s 0 Hlen). unfold replace.
  lia.
Qed.

Lemma remove_hashes_plain (s : string) :
  all plain s = true → remove_hashes s 0 = s.
Proof.
  induction s as [|c s IH]; [done|]. cbn [all remove_hashes hash_at].
  intros [Hc Hs]%andb_prop. unfold plain in Hc.
  apply andb_prop in Hc as [Hc _]. apply negb_true_iff in Hc. rewrite Hc.
  simpl. by rewrite IH.
Qed.

Lemma all_plain_app (a b : string) :
  all plain (a +:+ b) = true → all plain a = true.
Proof.
  induction a as [|c a IH]; [done|]. rewrite string_app_cons. simpl.
  intros [-> ?]%andb_prop. by apply IH.
Qed.

Lemma replace_plain (old new s : string) :
  all plain old = false → all plain s = true → replace old new s = s.
Proof.
  intros Hold. unfold replace. induction s as [|c s IH]; [done|].
  intros Hs. cbn [replace_from].
  destruct (String.prefix old (String c s)) eqn:Hp.
  { apply prefix_Some in Hp as [post Hp]. rewrite Hp in Hs.
    apply all_plain_app in Hs. congruence. }
  simpl in Hs. apply andb_prop in Hs as [_ Hs]. by rewrite IH.
Qed.

Lemma demangle_rust_name_length (name : string) :
  (String.length (demangle_rust_name name) ≤ String.length name)%nat.
Proof.
  unfold demangle_rust_name. cbv zeta.
  pose proof (remove_hashes_length name 0) as H0.
  etrans; [apply replace_length; simpl; lia|].
  etrans; [apply replace_length; simpl; lia|].
  etrans; [apply replace_length; simpl; lia|]. done.
Qed.

Lemma truncate_length (s : string) (max_len : Z) :
  3 ≤ max_len → TraceText.len (truncate s max_len) ≤ max_len.
Proof.
  intros H3. unfold truncate. case_bool_decide as Hle; [done|].
  unfold slice_to. rewrite bool_decide_eq_false_2 by lia.
  unfold TraceText.len in *.
  rewrite string_length_app, take_string_length. simpl. lia.
Qed.

(** X20: demangle_rust_name never makes a name longer; it leaves a name
    without a bracket and without a colon as it is; and the name that the
    flat profile and the bottleneck analysis show, the demangled name cut
    by truncate, has at most 60 characters. *)
Theorem demangle_rust_name_shortens (name : string) :
  TraceText.len (demangle_rust_name name) ≤ TraceText.len name ∧
  (all plain name = true → demangle_rust_name name = name) ∧
  TraceText.len (truncate (demangle_rust_name name) 60) ≤ 60.
Proof.
  split_and!.
  - pose proof (demangle_rust_name_length name). unfold TraceText.len. lia.
  - intros Hplain. unfold demangle_rust_name. cbv zeta.
    rewrite (remove_hashes_plain name Hplain).
    by rewrite !(replace_plain _ _ name) by done.
  - by apply truncate_length.
Qed.

Lemma sorted_funcs_perm (self_items : list (string * Z)) :
  sorted_funcs self_items
  ≡ₚ (filter (λ item, item.1 ∉ flat_excluded) self_items).
Proof. apply sorted_by_count_perm. Qed.

Lemma sorted_funcs_elem_of (d : gmap string Z) self_items name t :
  items_of d self_items →
  (name, t) ∈ sorted_funcs self_items ↔
  (name ∉ flat_excluded) ∧ d !! name = Some t.
Proof.
  intros Hitems.
  rewrite sorted_funcs_perm, list_elem_of_filter, Hitems, elem_of_map_to_list.
  done.
Qed.

Lemma sorted_funcs_NoDup (d : gmap string Z) self_items :
  items_of d self_items → NoDup (sorted_funcs self_items).*1.
Proof.
  intros Hitems. rewrite sorted_funcs_perm.
  eapply sublist_NoDup; [|apply fmap_sublist, sublist_filter].
  rewrite Hitems. apply NoDup_fst_map_to_list.
Qed.

Lemma flat_row_of_display (a : analysis) (total_time_us : Z)
    (item : string * Z) (row : flat_row) :
  flat_row_of a total_time_us item = Ok row →
  row_display row = truncate (demangle_rust_name item.1) 60.
Proof.
  destruct item as [name t]. unfold flat_row_of.
  destruct (share t total_time_us); cbn [mbind result_bind]; [|done].
  destruct (share _ total_time_us); cbn [mbind result_bind]; [|done].
  destruct (format_time t); cbn [mbind result_bind]; [|done].
  destruct (format_time _); cbn [mbind result_bind]; [|done].
  by intros [= <-].
Qed.

Lemma map_result_rows (a : analysis) (total_time_us : Z)
    (items : list (string * Z)) (rows : list flat_row) :
  map_result (flat_row_of a total_time_us) items = Ok rows →
  row_display <$> rows
    = (λ item, truncate (demangle_rust_name item.1) 60) <$> items.
Proof.
  revert rows. induction items as [|item items IH]; intros rows.
  { by intros [= <-]. }
  cbn [map_result].
  destruct (flat_row_of a total_time_us item) as [row|] eqn:Hrow;
    cbn [mbind result_bind]; [|done].
  destruct (map_result _ items) as [rows'|]; cbn [mbind result_bind]; [|done].
  intros [= <-]. rewrite !fmap_cons.
  by rewrite (IH rows'), (flat_row_of_display _ _ _ _ Hrow).
Qed.

(** X21: whatever the order in which the dict keeps its items, the flat
    profile has a line for at most 40 functions, each of them once; they
    are functions of the self-time map with their self times, none of them
    (idle), (program), (root) or the garbage collector; they come in falling
    order of self time; a function that is left out, and is not one of the
    four, is left out because there are 40 lines and none of them has a
    smaller self time.  When the profile is printed without an exception,
    its lines show these functions in this order, under their demangled and
    truncated names. *)
Theorem flat_profile_top (a : analysis) (self_items : list (string * Z))
    (total_time_us : Z) :
  items_of (self_time a) self_items →
  let funcs := flat_profile_funcs self_items in
  (length funcs ≤ 40)%nat ∧ NoDup funcs.*1 ∧
  (∀ name t, (name, t) ∈ funcs →
             (name ∉ flat_excluded) ∧ self_time a !! name = Some t) ∧
  StronglySorted by_count funcs ∧
  (∀ name t, self_time a !! name = Some t → name ∉ flat_excluded →
             (name, t) ∉ funcs →
             length funcs = 40%nat ∧ Forall (λ item, t ≤ item.2) funcs) ∧
  (∀ rows, print_flat_profile a self_items total_time_us = Ok rows →
           row_display <$> rows
             = (λ item, truncate (demangle_rust_name item.1) 60) <$> funcs).
Proof.
  intros Hitems. cbv zeta. unfold flat_profile_funcs.
  set (sorted := sorted_funcs self_items).
  pose proof (take_drop 40 sorted) as Hsplit.
  pose proof (sorted_by_count_sorted
    (filter (λ item, item.1 ∉ flat_excluded) self_items)) as Hsorted.
  fold (sorted_funcs self_items) in Hsorted. fold sorted in Hsorted.
  rewrite <- Hsplit in Hsorted.
  split_and!.
  - rewrite length_take. lia.
  - eapply sublist_NoDup; [apply (sorted_funcs_NoDup _ _ Hitems)|].
    apply fmap_sublist, sublist_take.
  - intros name t Hin. apply (sorted_funcs_elem_of _ _ _ _ Hitems).
    fold sorted. rewrite <- Hsplit. apply elem_of_app. by left.
  - by eapply StronglySorted_app_1_l.
  - intros name t Ht Hex Hout.
    assert ((name, t) ∈ sorted) as Hin
      by (by apply (sorted_funcs_elem_of _ _ _ _ Hitems)).
    rewrite <- Hsplit in Hin. apply elem_of_app in Hin as [Hin|Hin]; [done|].
    split.
    + rewrite length_take. destruct (decide (length sorted ≤ 40)%nat) as [Hle|];
        [|lia].
      rewrite drop_ge in Hin by done. by apply elem_of_nil in Hin.
    + apply Forall_forall. intros item Hitem.
      apply (StronglySorted_app_1_elem_of by_count _ _ item (name, t) Hsorted
               Hitem Hin).
  - intros rows. apply map_result_rows.
Qed.

(** The items of the sample aggregates, in the order of [map_to_list]. *)
Lemma flat_profile_top_witness :
  (length (flat_profile_funcs sample_self_items) ≤ 40)%nat ∧
  NoDup (flat_profile_funcs sample_self_items).*1 ∧
  (∀ name t, (name, t) ∈ flat_profile_funcs sample_self_items →
             (name ∉ flat_excluded) ∧
             self_time sample_analysis !! name = Some t) ∧
  StronglySorted by_count (flat_profile_funcs sample_self_items) ∧
  (∀ name t, self_time sample_analysis !! name = Some t →
             name ∉ flat_excluded →
             (name, t) ∉ flat_profile_funcs sample_self_items →
             length (flat_profile_funcs sample_self_items) = 40%nat ∧
             Forall (λ item, t ≤ item.2)
               (flat_profile_funcs sample_self_items)) ∧
  (∀ rows, print_flat_profile sample_analysis sample_self_items 300 = Ok rows →
           row_display <$> rows
             = (λ item, truncate (demangle_rust_name item.1) 60)
                 <$> flat_profile_funcs sample_self_items).
Proof.
  apply (flat_profile_top sample_analysis sample_self_items 300).
  unfold items_of, sample_self_items. reflexivity.
Defined.

End TraceNamesProofs.

(** * The call tree of analyze-trace.py *)

Module TraceTreeProofs.
Import Py Trace TraceText TraceNames TraceFlat TraceTree ReProofs
  InspectorProofs FloatProofs TraceTextProofs ConfigProofs TraceNamesProofs.

(** ** Comparisons with 0.1 *)

Lemma SFleb_not_ltb (m0 : positive) (e0 : Z) (f : float) :
  SFleb (S754_finite false m0 e0) f = true →
  SFltb f (S754_finite false m0 e0) = false.
Proof.
  unfold SFleb, SFltb, SFcompare.
  destruct f as [s|s| |s m e]; try destruct s; try discriminate;
    try reflexivity.
  rewrite (Z.compare_antisym e0 e).
  destruct (e0 ?= e) eqn:He; cbn [CompOpp]; try discriminate;
    try reflexivity.
  change (Pos.compare_cont Eq m m0) with (Pos.compare_cont (CompOpp Eq) m m0).
  rewrite <- (Pos.compare_cont_antisym m0 m Eq).
  destruct (Pos.compare_cont Eq m0 m); cbn [CompOpp]; try discriminate;
    reflexivity.
Qed.

Lemma ge_tenth_not_lt (f : float) :
  ge_tenth f = true → lt_tenth (Float f) = false.
Proof. apply SFleb_not_ltb. Qed.

(** ** The loops *)

Lemma for_each_inv {A S : Type} (I : S → Prop) (body : S → A → result S)
    (l : list A) (s s' : S) :
  (∀ s x s', x ∈ l → I s → body s x = Ok s' → I s') →
  I s → for_each body l s = Ok s' → I s'.
Proof.
  revert s. induction l as [|x l IH]; intros s Hbody Hs; cbn [for_each].
  { by intros [= <-]. }
  destruct (body s x) as [s1|] eqn:Hx; cbn [mbind result_bind]; [|done].
  apply IH.
  - intros s0 y s0' Hy. apply Hbody. by right.
  - eapply Hbody; [by left|done|done].
Qed.

Lemma for_each_not_raised {A S : Type} (e : exn) (body : S → A → result S)
    (l : list A) (s : S) :
  (∀ s x, body s x ≠ Raise e) → for_each body l s ≠ Raise e.
Proof.
  intros Hbody. revert s. induction l as [|x l IH]; intros s; cbn [for_each].
  { done. }
  destruct (body s x) as [s1|e'] eqn:Hx; cbn [mbind result_bind]; [apply IH|].
  rewrite <- Hx. apply Hbody.
Qed.

Lemma share_not_zero_division (t total_time_us : Z) :
  share t total_time_us ≠ Raise ZeroDivisionError.
Proof.
  unfold share. case_bool_decide as Hne; [|done].
  destruct (truediv_cases t total_time_us Hne) as [[q ->]| ->]; done.
Qed.

Lemma format_time_not_zero_division (us : Z) :
  format_time us ≠ Raise ZeroDivisionError.
Proof.
  unfold format_time, str_int. repeat case_bool_decide; try done.
  - destruct (truediv_cases us 1000000) as [[q ->]| ->]; done.
  - destruct (truediv_cases us 1000) as [[q ->]| ->]; done.
Qed.

Section walk.
Context (a : analysis) (children_items : string → list (string * Z))
  (total_time_us : Z).

Lemma large_share (name : string) :
  large a total_time_us name →
  ∃ f, share (getd (total_time a) name) total_time_us = Ok (Float f) ∧
       ge_tenth f = true.
Proof.
  intros (q & Hq & Hge). unfold share. case_bool_decide as Hne.
  - rewrite Hq. cbn [mbind result_bind]. eauto.
  - subst. by rewrite truediv_zero in Hq.
Qed.

Lemma print_subtree_inv (room : nat) (name : string) (st st' : tree_state) :
  (room ≤ 9)%nat →
  (room = 9%nat → name ∉ tree_excluded) →
  (room ≠ 9%nat → large a total_time_us name) →
  tree_inv st →
  print_subtree a children_items total_time_us room name st = Ok st' →
  tree_inv st'.
Proof.
  revert name st st'.
  induction room as [|room IH]; intros name st st' Hroom Hroot Hchild Hst.
  { by intros [= <-]. }
  cbn [print_subtree]. cbv zeta.
  case_bool_decide as Hprinted; [by intros [= <-]|].
  destruct (share (getd (self_time a) name) total_time_us) as [self_pct|];
    cbn [mbind result_bind]; [|done].
  destruct (share (getd (total_time a) name) total_time_us)
    as [total_pct|] eqn:Htotal; cbn [mbind result_bind]; [|done].
  assert (0 < 8 - Z.of_nat room →
          ∃ f, total_pct = Float f ∧ ge_tenth f = true) as Hlarge.
  { intros Hindent.
    destruct (large_share name) as (f & Hf & Hge); [apply Hchild; lia|].
    exists f. split; [congruence|done]. }
  destruct (lt_tenth total_pct && bool_decide (0 < 8 - Z.of_nat room))
    eqn:Hskip.
  { apply andb_prop in Hskip as [Hlt Hindent].
    apply bool_decide_eq_true in Hindent.
    destruct (Hlarge Hindent) as (f & -> & Hge).
    by rewrite (ge_tenth_not_lt f Hge) in Hlt. }
  destruct (format_time (getd (self_time a) name)) as [self_text|];
    cbn [mbind result_bind]; [|done].
  destruct (format_time (getd (total_time a) name)) as [total_text|];
    cbn [mbind result_bind]; [|done].
  apply (for_each_inv tree_inv).
  - intros st0 child st0' _ Hst0.
    destruct (truediv (getd (total_time a) child.1) total_time_us)
      as [q|] eqn:Hq; cbn [mbind result_bind]; [|done].
    destruct (ge_tenth (mul_int q 100)) eqn:Hge; [|by intros [= <-]].
    apply IH; [lia|lia| |done]. intros _. by exists q.
  - destruct Hst as (Hset & Hnd & Hrows). unfold tree_inv. cbn [fst snd].
    rewrite Hset in Hprinted. rewrite elem_of_list_to_set in Hprinted.
    split_and!.
    + rewrite fmap_app, list_to_set_app_L, Hset. simpl. set_solver.
    + rewrite fmap_app. apply NoDup_app. split_and!; [done| |].
      * intros n Hn ->%list_elem_of_singleton. done.
      * apply NoDup_singleton.
    + apply Forall_app. split; [done|]. apply Forall_singleton.
      unfold tree_row_ok. cbn [tree_indent tree_display tree_name
                                 tree_total_pct].
      split_and!; [lia|lia| | |done].
      * assert (3 ≤ 70 - prefix_len (8 - Z.of_nat room)) as Hmax.
        { unfold prefix_len. case_bool_decide; lia. }
        pose proof (truncate_length (demangle_rust_name name) _ Hmax). lia.
      * intros Hzero. apply Hroot. lia.
Qed.

Lemma print_subtree_no_zero_division (room : nat) (name : string)
    (st : tree_state) :
  total_time_us ≠ 0 →
  print_subtree a children_items total_time_us room name st
  ≠ Raise ZeroDivisionError.
Proof.
  intros Hne. revert name st.
  induction room as [|room IH]; intros name st; cbn [print_subtree]; [done|].
  cbv zeta. case_bool_decide; [done|].
  pose proof (share_not_zero_division (getd (self_time a) name)
                total_time_us) as H1.
  destruct (share (getd (self_time a) name) total_time_us) as [self_pct|];
    cbn [mbind result_bind]; [|by intros [= ->]].
  pose proof (share_not_zero_division (getd (total_time a) name)
                total_time_us) as H2.
  destruct (share (getd (total_time a) name) total_time_us) as [total_pct|];
    cbn [mbind result_bind]; [|by intros [= ->]].
  destruct (lt_tenth total_pct && _); [done|].
  pose proof (format_time_not_zero_division (getd (self_time a) name)) as H3.
  destruct (format_time (getd (self_time a) name)) as [self_text|];
    cbn [mbind result_bind]; [|by intros [= ->]].
  pose proof (format_time_not_zero_division (getd (total_time a) name))
    as H4.
  destruct (format_time (getd (total_time a) name)) as [total_text|];
    cbn [mbind result_bind]; [|by intros [= ->]].
  apply for_each_not_raised. intros st0 child.
  destruct (truediv_cases (getd (total_time a) child.1) total_time_us Hne)
    as [[q ->]| ->]; cbn [mbind result_bind]; [|by intros [= ->]].
  destruct (ge_tenth (mul_int q 100)); [apply IH|done].
Qed.

End walk.

(** ** The walk with a total time of 0 *)

Lemma insert_by_key_perm {A} (key : A → Z) (item : A) (sorted : list A) :
  insert_by_key key item sorted ≡ₚ item :: sorted.
Proof.
  induction sorted as [|item' sorted IH]; simpl; [done|].
  case_bool_decide; [done|]. rewrite IH. apply Permutation_swap.
Qed.

Lemma sorted_by_key_perm {A} (key : A → Z) (l : list A) :
  sorted_by_key key l ≡ₚ l.
Proof.
  unfold sorted_by_key. induction l as [|item l IH]; simpl; [done|].
  by rewrite insert_by_key_perm, IH.
Qed.

Lemma share_zero (t : Z) : share t 0 = Ok (Int 0).
Proof. done. Qed.

Section zero.
Context (a : analysis) (children_items : string → list (string * Z)).
Hypothesis times_in_range :
  ∀ name, Z.abs (getd (self_time a) name) < 2 ^ 1023 ∧
          Z.abs (getd (total_time a) name) < 2 ^ 1023.

Lemma print_subtree_zero (name : string) (st : tree_state) :
  name ∉ st.1 →
  (children_items name = [] →
   ∃ row, print_subtree a children_items 0 9 name st
          = Ok ({[name]} ∪ st.1, st.2 ++ [row])) ∧
  (children_items name ≠ [] →
   print_subtree a children_items 0 9 name st = Raise ZeroDivisionError).
Proof.
  intros Hname. cbn [print_subtree]. cbv zeta.
  rewrite bool_decide_eq_false_2 by done.
  rewrite !share_zero. cbn [mbind result_bind].
  change (8 - Z.of_nat 8) with 0.
  rewrite (bool_decide_eq_false_2 (0 < 0)) by lia.
  rewrite andb_false_r.
  destruct (times_in_range name) as [Hself Htotal].
  destruct (format_time_returns _ Hself) as [self_text ->].
  destruct (format_time_returns _ Htotal) as [total_text ->].
  cbn [mbind result_bind]. split.
  - intros ->. eexists. cbn [sorted_by_key foldr take for_each]. done.
  - intros Hchildren.
    pose proof (sorted_by_key_perm (λ item, - getd (total_time a) item.1)
                  (children_items name)) as Hperm.
    destruct (sorted_by_key _ (children_items name)) as [|child rest].
    { by apply Permutation_nil_l in Hperm. }
    cbn [take for_each]. by rewrite truediv_zero.
Qed.

Lemma roots_zero (l : list (string * Z)) (st : tree_state) :
  (∀ name, name ∈ st.1 → children_items name = []) →
  (Exists (has_children children_items) l →
   for_each
     (λ st item,
        if bool_decide (item.1 ∉ st.1)
        then print_subtree a children_items 0 9 item.1 st
        else Ok st) l st = Raise ZeroDivisionError) ∧
  (¬ Exists (has_children children_items) l →
   ∃ st', for_each
            (λ st item,
               if bool_decide (item.1 ∉ st.1)
               then print_subtree a children_items 0 9 item.1 st
               else Ok st) l st = Ok st').
Proof.
  revert st. induction l as [|item l IH]; intros st Hst.
  { split; [by intros ?%Exists_nil|]. intros _. by eexists. }
  cbn [for_each]. rewrite Exists_cons. unfold has_children at 1 3.
  case_bool_decide as Hprinted.
  - destruct (print_subtree_zero item.1 st Hprinted) as [Hnone Hsome].
    destruct (decide (children_items item.1 = [])) as [Hc|Hc].
    + destruct (Hnone Hc) as [row ->]. cbn [mbind result_bind].
      destruct (IH ({[item.1]} ∪ st.1, st.2 ++ [row])) as [IH1 IH2].
      { cbn [fst]. intros name [->%elem_of_singleton|Hin]%elem_of_union;
          [done|by apply Hst]. }
      split; [intros [?|?]; [done|by apply IH1]|].
      intros Hno. apply IH2. tauto.
    + rewrite (Hsome Hc). cbn [mbind result_bind]. split; [done|].
      intros Hno. destruct Hno. by left.
  - cbn [mbind result_bind].
    destruct (IH st Hst) as [IH1 IH2].
    pose proof (Hst _ Hprinted) as Hc.
    split; [intros [?|?]; [done|by apply IH1]|].
    intros Hno. apply IH2. tauto.
Qed.

End zero.

(** X22: print_call_tree raises ZeroDivisionError exactly when the total
    time it is given is 0 and one of the 30 functions it starts from has a
    child in the call tree: the division of line 192 has no guard.  (The
    times are taken to be below 2^1023 in absolute value, so that none
    overflows a float or has too many digits to be rendered before.) *)
Theorem call_tree_zero_division (a : analysis)
    (total_items : list (string * Z))
    (children_items : string → list (string * Z)) (total_time_us : Z) :
  (∀ name, Z.abs (getd (self_time a) name) < 2 ^ 1023 ∧
           Z.abs (getd (total_time a) name) < 2 ^ 1023) →
  print_call_tree a total_items children_items total_time_us
    = Raise ZeroDivisionError ↔
  total_time_us = 0 ∧
  Exists (has_children children_items) (take 30 (tree_funcs total_items)).
Proof.
  intros Hrange. unfold print_call_tree, call_tree_walk.
  destruct (decide (total_time_us = 0)) as [->|Hne].
  - destruct (roots_zero a children_items Hrange
                (take 30 (tree_funcs total_items)) (∅, [])) as [Hyes Hno].
    { intros name. cbn [fst]. by intros ?%elem_of_empty. }
    destruct (decide (Exists (has_children children_items)
                        (take 30 (tree_funcs total_items)))) as [Hex|Hex].
    + rewrite (Hyes Hex). cbn [mbind result_bind]. by split.
    + destruct (Hno Hex) as [st' ->]. cbn [mbind result_bind].
      split; [done|]. by intros [_ ?].
  - split; [|by intros [? _]]. intros Hraise. exfalso.
    destruct (for_each _ _ _) as [st'|e] eqn:Hrun;
      cbn [mbind result_bind] in Hraise; [done|].
    injection Hraise as ->. revert Hrun. apply for_each_not_raised.
    intros st item. case_bool_decide; [|done].
    by apply print_subtree_no_zero_division.
Qed.

(** Two samples of [inner] below [outer] with time deltas of 0: the tree
    starts from [outer], which has a child. *)
Lemma call_tree_zero_division_witness :
  print_call_tree stalled_analysis (sample_total_items 0)
    sample_children_items 0 = Raise ZeroDivisionError ↔
  0 = 0 ∧
  Exists (has_children sample_children_items)
    (take 30 (tree_funcs (sample_total_items 0))).
Proof.
  apply (call_tree_zero_division stalled_analysis (sample_total_items 0)
           sample_children_items 0).
  assert (0 < 2 ^ 1023) as Hpow by (by apply Z.pow_pos_nonneg).
  intros name. unfold getd, stalled_analysis. cbn [self_time total_time].
  split.
  - destruct (decide (name = "inner")) as [->|Hne].
    + by rewrite lookup_singleton_eq.
    + by rewrite lookup_singleton_ne.
  - destruct (decide (name = "outer")) as [->|Hne1].
    + by rewrite lookup_insert_eq.
    + rewrite lookup_insert_ne by done.
      destruct (decide (name = "inner")) as [->|Hne2].
      * by rewrite lookup_singleton_eq.
      * by rewrite lookup_singleton_ne.
Defined.

(** X23: when the walk of the call tree ends without an exception, its
    lines are the lines that print_call_tree prints; the functions marked
    as printed are exactly those that have a line, so the skip of line 178
    never fires; no function has two lines; and every line is at a level
    from 0 to 8, fits 70 characters with its prefix, is for a function that
    is not excluded when it is a root, and shows a share of at least 0.1
    below the roots. *)
Theorem call_tree_lines (a : analysis) (total_items : list (string * Z))
    (children_items : string → list (string * Z)) (total_time_us : Z)
    (st : tree_state) :
  call_tree_walk a total_items children_items total_time_us = Ok st →
  print_call_tree a total_items children_items total_time_us = Ok st.2 ∧
  st.1 = list_to_set (tree_name <$> st.2) ∧
  NoDup (tree_name <$> st.2) ∧
  Forall tree_row_ok st.2.
Proof.
  intros Hwalk. split.
  { unfold print_call_tree. by rewrite Hwalk. }
  revert Hwalk. unfold call_tree_walk.
  apply (for_each_inv tree_inv).
  - intros st0 item st0' Hitem Hst0. case_bool_decide; [|by intros [= <-]].
    apply print_subtree_inv; [lia| |done|done].
    intros _. apply elem_of_take in Hitem as (i & Hi & _).
    apply list_elem_of_lookup_2 in Hi. unfold tree_funcs in Hi.
    rewrite sorted_by_count_perm in Hi.
    by apply list_elem_of_filter in Hi as [Hi _].
  - split_and!; [done|apply NoDup_nil_2|apply Forall_nil_2].
Qed.

(** The same two samples with a total time of 300. *)
Lemma call_tree_lines_witness :
  match call_tree_walk sample_tree (sample_total_items 300)
          sample_children_items 300 with
  | Ok st =>
      print_call_tree sample_tree (sample_total_items 300)
        sample_children_items 300 = Ok st.2 ∧
      st.1 = list_to_set (tree_name <$> st.2) ∧
      NoDup (tree_name <$> st.2) ∧
      Forall tree_row_ok st.2
  | Raise _ => False
  end.
Proof.
  destruct (call_tree_walk sample_tree (sample_total_items 300)
              sample_children_items 300) as [st|e] eqn:Hwalk.
  - by apply (call_tree_lines sample_tree (sample_total_items 300)
                sample_children_items 300).
  - assert (is_ok (call_tree_walk sample_tree (sample_total_items 300)
                     sample_children_items 300) = true) as Hok
      by (vm_compute; reflexivity).
    rewrite Hwalk in Hok. discriminate Hok.
Defined.

End TraceTreeProofs.
